(** * The Kuzu graph store of langchaingo: a shallow embedding

    The development follows the package [graphs/kuzu]: the value
    converters (types.go), the schema manager (schema.go), the import
    pipeline (import.go, kuzu.go) and the logical transaction state
    machine (transaction.go).  Go strings are byte strings ([string]),
    Go maps are finite maps ([gmap]), slices are lists, machine integers
    are [Z] with their wrap-around written out.  The query engine and the
    Go standard library are external: they enter through the record
    [Env]. *)

From stdpp Require Import base option list gmap strings sorting.
From Stdlib Require Import ZArith Floats DecimalString Lia Ascii.

#[local] Set Warnings "-register-all".
#[local] Open Scope string_scope.
#[local] Open Scope list_scope.
#[local] Open Scope Z_scope.

(** ** Go basics *)

(** Two's complement wrap-around of a signed [w]-bit integer, and the
    unsigned truncation. *)
Definition wrap_signed (w : Z) (z : Z) : Z :=
  (z + 2 ^ (w - 1)) mod 2 ^ w - 2 ^ (w - 1).

Definition wrap_unsigned (w : Z) (z : Z) : Z := z mod 2 ^ w.

(** Go's [int] is 64 bits wide on the platforms the engine supports. *)
Definition int_add_mul31 (hash c : Z) : Z := wrap_signed 64 (hash * 31 + c).

(** [%d] of fmt: decimal digits with a leading minus sign. *)
Definition itoa (z : Z) : string := NilZero.string_of_int (Z.to_int z).

(** [len(s)] as a Go [int]. *)
Definition len (s : string) : Z := Z.of_nat (String.length s).

(** A point in time: seconds since the Unix epoch, the nanoseconds within
    the second, and the zone offset (seconds east of UTC) of its location. *)
Record Time := { unix : Z; nsec : Z; zone : Z }.

Definition Hour (t : Time) : Z := ((unix t + zone t) mod 86400) / 3600.
Definition Minute (t : Time) : Z := ((unix t + zone t) mod 3600) / 60.
Definition Second (t : Time) : Z := (unix t + zone t) mod 60.
Definition Nanosecond (t : Time) : Z := nsec t.

(** A [float32] is kept as the [float64] that represents it exactly. *)
Record float32 := { f32 : float }.

(** A field of a struct seen through reflection. *)
Record FieldInfo (V : Type) := {
  fieldName : string;
  jsonTag : string;
  canInterface : bool;
  fieldValue : V
}.
Arguments fieldName {V} _.
Arguments jsonTag {V} _.
Arguments canInterface {V} _.
Arguments fieldValue {V} _.

(** The dynamic values ([interface{}]) the package inspects: the cases of
    the type switch in [ConvertGoValueToKuzu], the kinds [convertReflect]
    distinguishes, and [GoOther] for every remaining kind (it carries the
    text fmt prints for it). *)
Inductive GoValue : Type :=
  | GoNil
  | GoString (s : string)
  | GoBool (b : bool)
  | GoInt (z : Z)
  | GoInt8 (z : Z)
  | GoInt16 (z : Z)
  | GoInt32 (z : Z)
  | GoInt64 (z : Z)
  | GoUint (z : Z)
  | GoUint8 (z : Z)
  | GoUint16 (z : Z)
  | GoUint32 (z : Z)
  | GoUint64 (z : Z)
  | GoFloat32 (f : float32)
  | GoFloat64 (f : float)
  | GoTime (t : Time)
  | GoSlice (l : list GoValue)
  | GoMap (m : gmap string GoValue)
  | GoPtr (p : option GoValue)
  | GoStruct (fields : list (FieldInfo GoValue))
  | GoArray (l : list GoValue)
  | GoOther (text : string).

(** ** Package graphs: documents, nodes and relationships *)

Record Node := {
  ID : string;
  Type_ : string;
  Properties : gmap string GoValue
}.

Record Relationship := {
  Source : Node;
  Target : Node;
  RelType : string;
  RelProperties : gmap string GoValue
}.

Record Document := {
  PageContent : string;
  Metadata : gmap string GoValue
}.

Record GraphDocument := {
  Nodes : list Node;
  Relationships : list Relationship;
  DocSource : Document
}.

Record Options := {
  IncludeSource : bool;
  BatchSize : Z;
  Timeout : Z
}.

Definition NewOptions : Options :=
  {| IncludeSource := false; BatchSize := 100; Timeout := 0 |}.

Definition NewNode (id type : string) : Node :=
  {| ID := id; Type_ := type; Properties := ∅ |}.

Definition NewRelationship (source target : Node) (relType : string) : Relationship :=
  {| Source := source; Target := target; RelType := relType; RelProperties := ∅ |}.

(** ** import.go: deduplication *)

(** The loop shared by both deduplication functions:
    [for _, x := range xs { if !seen[key(x)] { seen[key(x)] = true;
    result = append(result, x) } }].  A key that is absent from [seen]
    reads as [false]. *)
Fixpoint seen_loop {A} (key : A → string) (seen : gmap string bool)
    (result : list A) (xs : list A) : list A :=
  match xs with
  | [] => result
  | x :: rest =>
      if negb (default false (seen !! key x))
      then seen_loop key (<[key x := true]> seen) (result ++ [x]) rest
      else seen_loop key seen result rest
  end.

Definition DeduplicateNodes (nodes : list Node) : list Node :=
  seen_loop ID ∅ [] nodes.

(** [fmt.Sprintf("%s_%s_%s_%s", rel.Source.ID, rel.Type, rel.Target.ID,
    rel.Source.Type+"_"+rel.Target.Type)] *)
Definition dedupKey (rel : Relationship) : string :=
  ID (Source rel) +:+ "_" +:+ RelType rel +:+ "_" +:+ ID (Target rel) +:+ "_"
    +:+ (Type_ (Source rel) +:+ "_" +:+ Type_ (Target rel)).

Definition DeduplicateRelationships (relationships : list Relationship) : list Relationship :=
  seen_loop dedupKey ∅ [] relationships.

(** ** Errors

    An error value built by [fmt.Errorf]: its format string and the error
    it wraps with [%w], if any.  [ExtError] is an error produced outside
    the package (the engine, [context], [strconv], [time], [json]). *)
Inductive error : Type :=
  | Errorf (format : string) (wrapped : option error)
  | ExtError (origin : string).

Definition ErrConnectionNotInitialized : error :=
  Errorf "kuzu connection not initialized" None.
Definition ErrQueryExecutionFailed : error :=
  Errorf "failed to execute query" None.

(** ** Statements sent to the engine

    A statement is kept as the arguments its query text is built from; a
    label stands for [sanitizeIdentifier label] in the text. *)
Record NodeData := {
  nd_id : string;
  nd_type : string;
  nd_properties : gmap string GoValue
}.

Record RelData := {
  rd_source_id : string;
  rd_target_id : string;
  rd_properties : gmap string GoValue
}.

Inductive Stmt : Type :=
  (** [-- BEGIN READ ONLY TRANSACTION] or [-- BEGIN TRANSACTION] *)
  | BeginStmt (readOnly : bool)
  (** [-- COMMIT TRANSACTION] *)
  | CommitStmt
  (** [-- ROLLBACK TRANSACTION] *)
  | RollbackStmt
  (** [CREATE NODE TABLE IF NOT EXISTS nodeType (id STRING, type STRING,
      properties MAP(STRING, STRING), PRIMARY KEY(id))] *)
  | CreateNodeTableStmt (nodeType : string)
  (** [CREATE NODE TABLE IF NOT EXISTS Chunk (id, text, type, properties)] *)
  | CreateChunkTableStmt
  (** [CREATE REL TABLE IF NOT EXISTS relType (FROM sourceType TO
      targetType, properties MAP(STRING, STRING))] *)
  | CreateRelTableStmt (relType sourceType targetType : string)
  (** [CREATE REL TABLE IF NOT EXISTS MENTIONS (FROM Chunk TO Node, ...)] *)
  | CreateMentionsTableStmt
  (** [MERGE (n:label {id: $id}) SET n.type = $node_type,
      n.properties = map($prop_keys, $prop_vals)] *)
  | MergeNodeStmt (label id node_type : string) (prop_keys prop_vals : list string)
  (** [UNWIND $nodes AS nodeData MERGE (n:label {id: nodeData.id})
      SET n.type = nodeData.type], followed by
      [SET n.properties = nodeData.properties] when [setProperties] *)
  | MergeNodesStmt (label : string) (setProperties : bool) (nodes : list NodeData)
  (** [MATCH (s:source {id: $source_id}) MATCH (t:target {id: $target_id})
      MERGE (s)-[r:rel]->(t) SET r.properties = map($prop_keys, $prop_vals)] *)
  | MergeRelStmt (source target rel source_id target_id : string)
      (prop_keys prop_vals : list string)
  (** [UNWIND $relationships AS relData MATCH (s:source {id: relData.source_id})
      MATCH (t:target {id: relData.target_id}) MERGE (s)-[r:rel]->(t)],
      followed by [SET r.properties = relData.properties] when [setProperties] *)
  | MergeRelsStmt (source target rel : string) (setProperties : bool)
      (relationships : list RelData)
  (** [MATCH (c:Chunk {id: $doc_id}) UNWIND $node_ids AS nodeId
      MATCH (n:label {id: nodeId}) MERGE (c)-[:MENTIONS]->(n)] *)
  | MentionsStmt (label doc_id : string) (node_ids : list string)
  (** any other query text, with its parameters *)
  | QueryStmt (query : string) (params : gmap string GoValue).

(** ** The environment: Go's standard library and the engine

    [range_order n keys] is the order in which the [n]-th map iteration of
    a run visits [keys]; Go leaves it unspecified.  [engine_accepts h s]
    tells whether the engine, having received the statements [h], executes
    [s] without error. *)
Record Env := {
  time_Parse : string → string → option Time;
  time_Format : string → Time → string;
  json_Unmarshal : string → option GoValue;
  json_Unmarshal_slice : string → option (list GoValue);
  json_Unmarshal_map : string → option (gmap string GoValue);
  strconv_ParseBool : string → bool * option error;
  strconv_ParseInt : string → Z * option error;
  strconv_ParseUint : string → Z * option error;
  strconv_ParseFloat : Z → string → float * option error;
  fmt_Sprint : GoValue → string;
  float32_of_float64 : float → float32;
  float32_of_int64 : Z → float32;
  float64_of_int64 : Z → float;
  int64_of_float64 : float → Z;
  uint64_of_float64 : float → Z;
  utf8_runes : string → list Z;
  range_order : nat → list string → list string;
  range_order_perm : ∀ n keys, range_order n keys ≡ₚ keys;
  engine_accepts : list Stmt → Stmt → bool
}.

(** ** types.go *)

Definition KuzuDataType := string.

Definition KuzuINT64 : KuzuDataType := "INT64".
Definition KuzuINT32 : KuzuDataType := "INT32".
Definition KuzuINT16 : KuzuDataType := "INT16".
Definition KuzuINT8 : KuzuDataType := "INT8".
Definition KuzuUINT64 : KuzuDataType := "UINT64".
Definition KuzuUINT32 : KuzuDataType := "UINT32".
Definition KuzuUINT16 : KuzuDataType := "UINT16".
Definition KuzuUINT8 : KuzuDataType := "UINT8".
Definition KuzuDOUBLE : KuzuDataType := "DOUBLE".
Definition KuzuFLOAT : KuzuDataType := "FLOAT".
Definition KuzuSTRING : KuzuDataType := "STRING".
Definition KuzuBOOL : KuzuDataType := "BOOL".
Definition KuzuDATE : KuzuDataType := "DATE".
Definition KuzuTIMESTAMP : KuzuDataType := "TIMESTAMP".
Definition KuzuLIST : KuzuDataType := "LIST".
Definition KuzuSTRUCT : KuzuDataType := "STRUCT".
Definition KuzuMAP : KuzuDataType := "MAP".

Record TypeConverter := {
  StrictMode : bool;
  DateFormat : string;
  TimestampFormat : string;
  DecimalPrecision : Z
}.

Definition RFC3339 : string := "2006-01-02T15:04:05Z07:00".

Definition NewTypeConverter : TypeConverter :=
  {| StrictMode := false;
     DateFormat := "2006-01-02";
     TimestampFormat := RFC3339;
     DecimalPrecision := 15 |}.

(** The three results of [ConvertGoValueToKuzu]. *)
Definition Converted : Type := GoValue * KuzuDataType * option error.

(** [%v] of fmt; the text of a string is the string itself. *)
Definition Sprint_v (env : Env) (value : GoValue) : string :=
  match value with
  | GoString s => s
  | GoOther text => text
  | _ => fmt_Sprint env value
  end.

Definition isDateString (env : Env) (tc : TypeConverter) (s : string) : bool :=
  bool_decide (is_Some (time_Parse env (DateFormat tc) s)).

Definition isTimestampString (env : Env) (tc : TypeConverter) (s : string) : bool :=
  bool_decide (is_Some (time_Parse env (TimestampFormat tc) s)).

Definition HasPrefix (s pre : string) : bool := String.prefix pre s.
Definition HasSuffix (s suf : string) : bool :=
  String.prefix (String.rev suf) (String.rev s).

Definition isJSONString (s : string) : bool :=
  (HasPrefix s "{" && HasSuffix s "}") || (HasPrefix s "[" && HasSuffix s "]").

(** [convertString]: a string that parses as a date, as a timestamp, or as
    JSON is promoted, in that order; [convert] is [ConvertGoValueToKuzu],
    entered again on the decoded JSON value ([None] once the bound on such
    re-entries is used up: the string then stays a string). *)
Definition convertString (env : Env) (tc : TypeConverter)
    (convert : option (GoValue → Converted)) (s : string) : Converted :=
  let plain : Converted := (GoString s, KuzuSTRING, None) in
  let json : Converted :=
    if isJSONString s then
      match json_Unmarshal env s, convert with
      | Some obj, Some convert => convert obj
      | _, _ => plain
      end
    else plain in
  let timestamp : Converted :=
    if isTimestampString env tc s then
      match time_Parse env (TimestampFormat tc) s with
      | Some t => (GoString (time_Format env (TimestampFormat tc) t), KuzuTIMESTAMP, None)
      | None => json
      end
    else json in
  if isDateString env tc s then
    match time_Parse env (DateFormat tc) s with
    | Some date => (GoString (time_Format env (DateFormat tc) date), KuzuDATE, None)
    | None => timestamp
    end
  else timestamp.

Definition convertTime (env : Env) (tc : TypeConverter) (t : Time) : Converted :=
  if (Hour t =? 0) && (Minute t =? 0) && (Second t =? 0) && (Nanosecond t =? 0)
  then (GoString (time_Format env (DateFormat tc) t), KuzuDATE, None)
  else (GoString (time_Format env (TimestampFormat tc) t), KuzuTIMESTAMP, None).

(** The loop of [convertSlice] over the converted elements: the first
    error ends it, and so does, in strict mode, the first element whose
    type differs from the type of element 0. *)
Fixpoint convertSlice_loop (tc : TypeConverter) (i : nat) (elementType : KuzuDataType)
    (items : list Converted) (convertedSlice : list GoValue) : Converted :=
  match items with
  | [] => (GoSlice convertedSlice, KuzuLIST, None)
  | (converted, itemType, err) :: rest =>
      match err with
      | Some e => (GoNil, "", Some (Errorf "failed to convert slice element %d: %w" (Some e)))
      | None =>
          match i with
          | O => convertSlice_loop tc 1 itemType rest (convertedSlice ++ [converted])
          | S _ =>
              if negb (String.eqb elementType itemType) && StrictMode tc
              then (GoNil, "", Some (Errorf "inconsistent types in slice: %s vs %s" None))
              else convertSlice_loop tc (S i) elementType rest (convertedSlice ++ [converted])
          end
      end
  end.

(** [convertSlice], given the conversion of each element. *)
Definition convertSlice (tc : TypeConverter) (slice : list GoValue)
    (items : list Converted) : Converted :=
  match slice with
  | [] => (GoSlice slice, KuzuLIST, None)
  | _ => convertSlice_loop tc 0 "" items []
  end.

(** The first error among converted entries, in the order given. *)
Fixpoint first_error {K} (entries : list (K * Converted)) : option (K * error) :=
  match entries with
  | [] => None
  | (key, (_, _, Some e)) :: _ => Some (key, e)
  | (_, (_, _, None)) :: rest => first_error rest
  end.

(** [convertMap], given the conversion of each value.  When several
    values fail, Go reports the one its iteration meets first; here the
    iteration runs in the order of [map_to_list]. *)
Definition convertMap (items : gmap string Converted) : Converted :=
  match first_error (map_to_list items) with
  | Some (_, e) => (GoNil, "", Some (Errorf "failed to convert map value for key '%s': %w" (Some e)))
  | None => (GoMap ((λ c : Converted, c.1.1) <$> items), KuzuSTRUCT, None)
  end.

(** The part of a json tag before its first comma. *)
Definition tagName (jsonTag : string) : string :=
  match String.index 0 "," jsonTag with
  | Some comma => String.substring 0 comma jsonTag
  | None => jsonTag
  end.

Definition structFieldName {V} (field : FieldInfo V) : string :=
  if negb (String.eqb (jsonTag field) "") && negb (String.eqb (jsonTag field) "-")
  then tagName (jsonTag field)
  else fieldName field.

(** The struct case of [convertReflect], given the conversion of each
    field: unexported fields are skipped, a later field of the same name
    overwrites an earlier one. *)
Fixpoint convertStruct_loop (fields : list (FieldInfo Converted))
    (structMap : gmap string GoValue) : Converted :=
  match fields with
  | [] => (GoMap structMap, KuzuSTRUCT, None)
  | field :: rest =>
      if negb (canInterface field) then convertStruct_loop rest structMap
      else
        match fieldValue field with
        | (_, _, Some e) =>
            (GoNil, "", Some (Errorf "failed to convert struct field '%s': %w" (Some e)))
        | (converted, _, None) =>
            convertStruct_loop rest (<[structFieldName field := converted]> structMap)
        end
  end.

Definition mapField {V W} (f : V → W) (field : FieldInfo V) : FieldInfo W :=
  {| fieldName := fieldName field; jsonTag := jsonTag field;
     canInterface := canInterface field; fieldValue := f (fieldValue field) |}.

(** [ConvertGoValueToKuzu].  [depth] bounds how many times the conversion
    is entered again on the value decoded from a JSON string. *)
Fixpoint ConvertGoValueToKuzu_at (env : Env) (tc : TypeConverter) (depth : nat)
    (value : GoValue) {struct depth} : Converted :=
  let again : option (GoValue → Converted) :=
    match depth with
    | O => None
    | S d => Some (ConvertGoValueToKuzu_at env tc d)
    end in
  (fix convert (value : GoValue) : Converted :=
     match value with
     | GoNil => (GoNil, KuzuSTRING, None)
     | GoString v => convertString env tc again v
     | GoBool v => (GoBool v, KuzuBOOL, None)
     | GoInt v => (GoInt64 (wrap_signed 64 v), KuzuINT64, None)
     | GoInt8 v => (GoInt8 v, KuzuINT8, None)
     | GoInt16 v => (GoInt16 v, KuzuINT16, None)
     | GoInt32 v => (GoInt32 v, KuzuINT32, None)
     | GoInt64 v => (GoInt64 v, KuzuINT64, None)
     | GoUint v => (GoUint64 (wrap_unsigned 64 v), KuzuUINT64, None)
     | GoUint8 v => (GoUint8 v, KuzuUINT8, None)
     | GoUint16 v => (GoUint16 v, KuzuUINT16, None)
     | GoUint32 v => (GoUint32 v, KuzuUINT32, None)
     | GoUint64 v => (GoUint64 v, KuzuUINT64, None)
     | GoFloat32 v => (GoFloat32 v, KuzuFLOAT, None)
     | GoFloat64 v => (GoFloat64 v, KuzuDOUBLE, None)
     | GoTime v => convertTime env tc v
     | GoSlice v => convertSlice tc v (convert <$> v)
     | GoMap v => convertMap (convert <$> v)
     (* default: convertReflect *)
     | GoPtr None => (GoNil, KuzuSTRING, None)
     | GoPtr (Some elem) => convert elem
     | GoStruct fields => convertStruct_loop (mapField convert <$> fields) ∅
     | GoArray v => convertSlice tc v (convert <$> v)
     | GoOther _ => (GoString (Sprint_v env value), KuzuSTRING, None)
     end) value.

(** The length of the longest string inside a value. *)
Fixpoint longestString (value : GoValue) : nat :=
  match value with
  | GoString s => String.length s
  | GoSlice l | GoArray l => foldr (λ v n, Nat.max (longestString v) n) O l
  | GoMap m => map_fold (λ _ v n, Nat.max (longestString v) n) O m
  | GoPtr (Some elem) => longestString elem
  | GoStruct fields =>
      foldr (λ field n, Nat.max (longestString (fieldValue field)) n) O fields
  | _ => O
  end.

(** The number of constructors of a value. *)
Fixpoint valueSize (value : GoValue) : nat :=
  match value with
  | GoSlice l | GoArray l => S (foldr (λ v n, (valueSize v + n)%nat) O l)
  | GoMap m => S (map_fold (λ _ v n, (valueSize v + n)%nat) O m)
  | GoPtr (Some elem) => S (valueSize elem)
  | GoStruct fields =>
      S (foldr (λ field n, (valueSize (fieldValue field) + n)%nat) O fields)
  | _ => 1%nat
  end.

(** A JSON text is longer than every string it encodes, so the conversion
    of a value is entered again at most as many times as its longest
    string is long. *)
Definition ConvertGoValueToKuzu (env : Env) (tc : TypeConverter) (value : GoValue)
    : Converted :=
  ConvertGoValueToKuzu_at env tc (S (longestString value)) value.

(** *** From engine values back to host values *)

Definition convertKuzuString (env : Env) (value : GoValue) : GoValue * option error :=
  match value with
  | GoString str => (GoString str, None)
  | _ => (GoString (Sprint_v env value), None)
  end.

Definition convertKuzuBool (env : Env) (value : GoValue) : GoValue * option error :=
  match value with
  | GoBool v => (GoBool v, None)
  | GoString v => let '(b, err) := strconv_ParseBool env v in (GoBool b, err)
  | GoInt64 v => (GoBool (negb (v =? 0)), None)
  | _ => (GoBool false, Some (Errorf "cannot convert %T to bool" None))
  end.

Definition convertKuzuInt (env : Env) (value : GoValue) (dataType : KuzuDataType)
    : GoValue * option error :=
  match value with
  | GoInt64 v =>
      if String.eqb dataType KuzuINT8 then (GoInt8 (wrap_signed 8 v), None)
      else if String.eqb dataType KuzuINT16 then (GoInt16 (wrap_signed 16 v), None)
      else if String.eqb dataType KuzuINT32 then (GoInt32 (wrap_signed 32 v), None)
      else (GoInt64 v, None)
  | GoFloat64 v => (GoInt64 (int64_of_float64 env v), None)
  | GoString v => let '(i, err) := strconv_ParseInt env v in (GoInt64 i, err)
  | _ => (GoNil, Some (Errorf "cannot convert %T to int" None))
  end.

Definition convertKuzuUint (env : Env) (value : GoValue) (dataType : KuzuDataType)
    : GoValue * option error :=
  match value with
  | GoUint64 v =>
      if String.eqb dataType KuzuUINT8 then (GoUint8 (wrap_unsigned 8 v), None)
      else if String.eqb dataType KuzuUINT16 then (GoUint16 (wrap_unsigned 16 v), None)
      else if String.eqb dataType KuzuUINT32 then (GoUint32 (wrap_unsigned 32 v), None)
      else (GoUint64 v, None)
  | GoInt64 v => (GoUint64 (wrap_unsigned 64 v), None)
  | GoFloat64 v => (GoUint64 (uint64_of_float64 env v), None)
  | GoString v => let '(u, err) := strconv_ParseUint env v in (GoUint64 u, err)
  | _ => (GoNil, Some (Errorf "cannot convert %T to uint" None))
  end.

Definition convertKuzuFloat (env : Env) (value : GoValue) (dataType : KuzuDataType)
    : GoValue * option error :=
  match value with
  | GoFloat64 v =>
      if String.eqb dataType KuzuFLOAT then (GoFloat32 (float32_of_float64 env v), None)
      else (GoFloat64 v, None)
  | GoInt64 v =>
      if String.eqb dataType KuzuFLOAT then (GoFloat32 (float32_of_int64 env v), None)
      else (GoFloat64 (float64_of_int64 env v), None)
  | GoString v =>
      let wide := let '(f, err) := strconv_ParseFloat env 64 v in (GoFloat64 f, err) in
      if String.eqb dataType KuzuFLOAT then
        match strconv_ParseFloat env 32 v with
        | (f, None) => (GoFloat32 (float32_of_float64 env f), None)
        | (_, Some _) => wide
        end
      else wide
  | _ => (GoNil, Some (Errorf "cannot convert %T to float" None))
  end.

(** The zero [time.Time], which [time.Parse] returns along with an error:
    January 1 of year 1, 00:00:00 UTC. *)
Definition zeroTime : Time := {| unix := -62135596800; nsec := 0; zone := 0 |}.

Definition parseTime (env : Env) (layout v : string) : GoValue * option error :=
  match time_Parse env layout v with
  | Some t => (GoTime t, None)
  | None => (GoTime zeroTime, Some (ExtError "time.Parse"))
  end.

Definition convertKuzuDate (env : Env) (tc : TypeConverter) (value : GoValue)
    : GoValue * option error :=
  match value with
  | GoString v => parseTime env (DateFormat tc) v
  | GoTime v => (GoTime v, None)
  | _ => (GoNil, Some (Errorf "cannot convert %T to date" None))
  end.

Definition convertKuzuTimestamp (env : Env) (tc : TypeConverter) (value : GoValue)
    : GoValue * option error :=
  match value with
  | GoString v => parseTime env (TimestampFormat tc) v
  | GoTime v => (GoTime v, None)
  | _ => (GoNil, Some (Errorf "cannot convert %T to timestamp" None))
  end.

Definition convertKuzuList (env : Env) (value : GoValue) : GoValue * option error :=
  match value with
  | GoSlice v => (GoSlice v, None)
  | GoString v =>
      match json_Unmarshal_slice env v with
      | Some arr => (GoSlice arr, None)
      | None => (GoNil, Some (Errorf "cannot parse string as list: %s" None))
      end
  | _ => (GoNil, Some (Errorf "cannot convert %T to list" None))
  end.

Definition convertKuzuStruct (env : Env) (value : GoValue) : GoValue * option error :=
  match value with
  | GoMap v => (GoMap v, None)
  | GoString v =>
      match json_Unmarshal_map env v with
      | Some obj => (GoMap obj, None)
      | None => (GoNil, Some (Errorf "cannot parse string as struct: %s" None))
      end
  | _ => (GoNil, Some (Errorf "cannot convert %T to struct" None))
  end.

Definition one_of (dataType : KuzuDataType) (types : list KuzuDataType) : bool :=
  existsb (String.eqb dataType) types.

Definition ConvertKuzuValueToGo (env : Env) (tc : TypeConverter) (value : GoValue)
    (dataType : KuzuDataType) : GoValue * option error :=
  match value with
  | GoNil => (GoNil, None)
  | _ =>
      if String.eqb dataType KuzuSTRING then convertKuzuString env value
      else if String.eqb dataType KuzuBOOL then convertKuzuBool env value
      else if one_of dataType [KuzuINT8; KuzuINT16; KuzuINT32; KuzuINT64]
      then convertKuzuInt env value dataType
      else if one_of dataType [KuzuUINT8; KuzuUINT16; KuzuUINT32; KuzuUINT64]
      then convertKuzuUint env value dataType
      else if one_of dataType [KuzuFLOAT; KuzuDOUBLE] then convertKuzuFloat env value dataType
      else if String.eqb dataType KuzuDATE then convertKuzuDate env tc value
      else if String.eqb dataType KuzuTIMESTAMP then convertKuzuTimestamp env tc value
      else if String.eqb dataType KuzuLIST then convertKuzuList env value
      else if String.eqb dataType KuzuSTRUCT then convertKuzuStruct env value
      else (value, None)
  end.

(** [PropertyConverter.ConvertProperties]: every value converted, the first
    failure ends the call. *)
Definition ConvertProperties (env : Env) (properties : gmap string GoValue)
    : gmap string GoValue * option error :=
  let items := ConvertGoValueToKuzu env NewTypeConverter <$> properties in
  match first_error (map_to_list items) with
  | Some (_, e) => (∅, Some (Errorf "failed to convert property '%s': %w" (Some e)))
  | None => ((λ c : Converted, c.1.1) <$> items, None)
  end.

(** ** kuzu.go: the store

    [sent] is the engine's side of the connection: the statements it has
    received so far, oldest first.  [ranges] counts the map iterations
    performed so far (see [range_order]). *)
Record Kuzu := {
  connected : bool;
  nodeTables : gmap string bool;
  relTables : gmap string bool;
  structuredSchema : gmap string GoValue;
  sent : list Stmt;
  ranges : nat
}.

Definition NewKuzu : Kuzu :=
  {| connected := true; nodeTables := ∅; relTables := ∅; structuredSchema := ∅;
     sent := []; ranges := O |}.

Definition set_nodeTables (f : gmap string bool → gmap string bool) (k : Kuzu) : Kuzu :=
  {| connected := connected k; nodeTables := f (nodeTables k); relTables := relTables k;
     structuredSchema := structuredSchema k; sent := sent k; ranges := ranges k |}.

Definition set_relTables (f : gmap string bool → gmap string bool) (k : Kuzu) : Kuzu :=
  {| connected := connected k; nodeTables := nodeTables k; relTables := f (relTables k);
     structuredSchema := structuredSchema k; sent := sent k; ranges := ranges k |}.

Definition set_structuredSchema (schema : gmap string GoValue) (k : Kuzu) : Kuzu :=
  {| connected := connected k; nodeTables := nodeTables k; relTables := relTables k;
     structuredSchema := schema; sent := sent k; ranges := ranges k |}.

Definition set_sent (f : list Stmt → list Stmt) (k : Kuzu) : Kuzu :=
  {| connected := connected k; nodeTables := nodeTables k; relTables := relTables k;
     structuredSchema := structuredSchema k; sent := f (sent k); ranges := ranges k |}.

Definition set_ranges (n : nat) (k : Kuzu) : Kuzu :=
  {| connected := connected k; nodeTables := nodeTables k; relTables := relTables k;
     structuredSchema := structuredSchema k; sent := sent k; ranges := n |}.

(** [Kuzu.Close]: the connection and the database are dropped. *)
Definition Close (k : Kuzu) : Kuzu :=
  {| connected := false; nodeTables := nodeTables k; relTables := relTables k;
     structuredSchema := structuredSchema k; sent := sent k; ranges := ranges k |}.

Definition IsConnected (k : Kuzu) : bool := connected k.

(** A call that may fail and may change the state [S]. *)
Definition Action (S : Type) : Type := S → option error * S.

Definition ok {S} : Action S := λ s, (None, s).
Definition fail {S} (e : error) : Action S := λ s, (Some e, s).

(** [if err := a; err != nil { return err }; b] *)
Definition and_then {S} (a b : Action S) : Action S :=
  λ s, match a s with
       | (Some e, s') => (Some e, s')
       | (None, s') => b s'
       end.

(** [if err := a; err != nil { return fmt.Errorf(format, err) }] *)
Definition wrapped {S} (format : string) (a : Action S) : Action S :=
  λ s, match a s with
       | (Some e, s') => (Some (Errorf format (Some e)), s')
       | (None, s') => (None, s')
       end.

(** [if err := a; err != nil { return e }] *)
Definition failing_with {S} (e : error) (a : Action S) : Action S :=
  λ s, match a s with
       | (Some _, s') => (Some e, s')
       | (None, s') => (None, s')
       end.

Notation "a ;> b" := (and_then a b) (at level 62, right associativity).

(** [for _, x := range xs { if err := body(x); err != nil { return err } }] *)
Fixpoint for_each {S A} (xs : list A) (body : A → Action S) : Action S :=
  match xs with
  | [] => ok
  | x :: rest => body x ;> for_each rest body
  end.

(** [for k, v := range m]: the entries of [m] in the order the run picks
    for this iteration. *)
Definition range_entries {V} (env : Env) (n : nat) (m : gmap string V) : list (string * V) :=
  omap (λ key, (λ v, (key, v)) <$> m !! key) (range_order env n (map_to_list m).*1).

Definition for_range {V} (env : Env) (m : gmap string V) (body : string → V → Action Kuzu)
    : Action Kuzu :=
  λ k, for_each (range_entries env (ranges k) m) (λ kv, body kv.1 kv.2)
         (set_ranges (S (ranges k)) k).

(** [k.connection.Query(query)] and [k.connection.Execute(stmt, params)]:
    the statement reaches the engine, which accepts or rejects it.  The
    call presumes a connection; what the engine's binding does with the
    nil connection of a closed store is outside the package and is not
    modelled. *)
Definition execute (env : Env) (stmt : Stmt) : Action Kuzu :=
  λ k, ((if engine_accepts env (sent k) stmt then None else Some (ExtError "engine")),
        set_sent (λ h, h ++ [stmt]) k).

(** A [context.Context], as far as the package looks at it: whether it is
    done when the call checks it. *)
Record Context := { ctx_done : bool }.

Definition Background : Context := {| ctx_done := false |}.

(** [Kuzu.Query]: nothing is sent without a connection or under a context
    that is done; a statement the engine rejects gives
    [fmt.Errorf("%w: %v", ErrQueryExecutionFailed, err)].  The rows of the
    result play no part in the import and are left out. *)
Definition Query (env : Env) (ctx : Context) (stmt : Stmt) : Action Kuzu :=
  λ k, if negb (IsConnected k) then (Some ErrConnectionNotInitialized, k)
       else if ctx_done ctx then (Some (ExtError "context"), k)
       else failing_with (Errorf "%w: %v" (Some ErrQueryExecutionFailed)) (execute env stmt) k.

(** ** schema.go *)

(** *** Identifiers *)

(** [(b >= 'a' && b <= 'z') || (b >= 'A' && b <= 'Z')] *)
Definition isLetter (b : ascii) : bool :=
  (Ascii.leb "a" b && Ascii.leb b "z") || (Ascii.leb "A" b && Ascii.leb b "Z").

(** [strings.ReplaceAll(s, old, new)] for an [old] of one byte, the only
    kind the package passes. *)
Fixpoint ReplaceAll (s : string) (old : ascii) (new : string) : string :=
  match s with
  | EmptyString => EmptyString
  | String c rest =>
      if Ascii.eqb c old then new +:+ ReplaceAll rest old new
      else String c (ReplaceAll rest old new)
  end.

Definition sanitizeIdentifier (identifier : string) : string :=
  let sanitized := ReplaceAll identifier " " "_" in
  let sanitized := ReplaceAll sanitized "-" "_" in
  match sanitized with
  | String b _ =>
      if negb (isLetter b) && negb (Ascii.eqb b "_") then "_" +:+ sanitized else sanitized
  | EmptyString => sanitized
  end.



(** *** Tables *)

Definition cached (tables : gmap string bool) (key : string) : bool :=
  default false (tables !! key).

Definition createNodeTable (env : Env) (nodeType : string) : Action Kuzu :=
  λ k, if cached (nodeTables k) nodeType then (None, k)
       else (wrapped "failed to create node table %s: %w"
               (execute env (CreateNodeTableStmt nodeType)) ;>
             (λ k, (None, set_nodeTables <[nodeType := true]> k))) k.

Definition createChunkNodeTable (env : Env) : Action Kuzu :=
  λ k, if cached (nodeTables k) "Chunk" then (None, k)
       else (wrapped "failed to create Chunk node table: %w"
               (execute env CreateChunkTableStmt) ;>
             (λ k, (None, set_nodeTables <["Chunk" := true]> k))) k.

(** [fmt.Sprintf("%s_%s_%s", sourceType, relType, targetType)] *)
Definition patternKey (sourceType relType targetType : string) : string :=
  sourceType +:+ "_" +:+ relType +:+ "_" +:+ targetType.

Definition createRelationshipTable (env : Env) (relType sourceType targetType : string)
    : Action Kuzu :=
  λ k, let key := patternKey sourceType relType targetType in
       if cached (relTables k) key then (None, k)
       else (wrapped "failed to create relationship table %s: %w"
               (execute env (CreateRelTableStmt relType sourceType targetType)) ;>
             (λ k, (None, set_relTables <[key := true]> k))) k.

(** A rejected MENTIONS table is not an error: the cache is left as it is. *)
Definition createMentionsRelationshipTable (env : Env) : Action Kuzu :=
  λ k, if cached (relTables k) "MENTIONS" then (None, k)
       else match execute env CreateMentionsTableStmt k with
            | (Some _, k') => (None, k')
            | (None, k') => (None, set_relTables <["MENTIONS" := true]> k')
            end.

(** The anonymous struct [{sourceType, targetType, relType}]. *)
Record RelPattern := { sourceType : string; targetType : string; relType : string }.

Definition patternOf (rel : Relationship) : RelPattern :=
  {| sourceType := Type_ (Source rel); targetType := Type_ (Target rel);
     relType := RelType rel |}.

Definition relKey (rel : Relationship) : string :=
  patternKey (Type_ (Source rel)) (RelType rel) (Type_ (Target rel)).

(** [for _, node := range nodes { nodeTypes[node.Type] = true }] *)
Definition collectNodeTypes (nodes : list Node) (nodeTypes : gmap string bool)
    : gmap string bool :=
  foldl (λ m node, <[Type_ node := true]> m) nodeTypes nodes.

Definition collectRelPatterns (rels : list Relationship) (patterns : gmap string RelPattern)
    : gmap string RelPattern :=
  foldl (λ m rel, <[relKey rel := patternOf rel]> m) patterns rels.

Definition ensureTablesExist (env : Env) (doc : GraphDocument) : Action Kuzu :=
  let nodeTypes := collectNodeTypes (Nodes doc) ∅ in
  let relationshipTypes := collectRelPatterns (Relationships doc) ∅ in
  for_range env nodeTypes (λ nodeType _,
    wrapped "failed to create node table for type %s: %w" (createNodeTable env nodeType)) ;>
  wrapped "failed to create Chunk node table: %w" (createChunkNodeTable env) ;>
  for_range env relationshipTypes (λ _ relInfo,
    wrapped "failed to create relationship table %s: %w"
      (createRelationshipTable env (relType relInfo) (sourceType relInfo) (targetType relInfo))) ;>
  wrapped "failed to create MENTIONS relationship table: %w" (createMentionsRelationshipTable env).

Definition ensureTablesForBatch (env : Env) (nodeTypes : gmap string bool)
    (relPatterns : gmap string RelPattern) : Action Kuzu :=
  for_range env nodeTypes (λ nodeType _,
    wrapped "failed to create node table %s: %w" (createNodeTable env nodeType)) ;>
  wrapped "failed to create Chunk table: %w" (createChunkNodeTable env) ;>
  for_range env relPatterns (λ _ relInfo,
    wrapped "failed to create relationship table %s: %w"
      (createRelationshipTable env (relType relInfo) (sourceType relInfo) (targetType relInfo))) ;>
  wrapped "failed to create MENTIONS table: %w" (createMentionsRelationshipTable env).

Record PropertyInfo := { propName : string; propType : string }.

Record RelationshipInfo := { relName : string; relSource : string; relTarget : string }.

(** [updateStructuredSchema]: the snapshot has the three keys
    [node_types], [relationship_types] and [total_tables]. *)
Definition updateStructuredSchema (env : Env) (nodeTables : gmap string (list PropertyInfo))
    (relTables : gmap string RelationshipInfo) (k : Kuzu) : Kuzu :=
  let nodeTypes :=
    (λ entry : string * list PropertyInfo,
       GoMap {[ "label" := GoString entry.1;
                "properties" := GoArray ((λ prop,
                   GoMap {[ "name" := GoString (propName prop);
                            "type" := GoString (propType prop) ]}) <$> entry.2) ]})
    <$> range_entries env (ranges k) nodeTables in
  let relTypes :=
    (λ entry : string * RelationshipInfo,
       GoMap {[ "name" := GoString (relName entry.2);
                "source_type" := GoString (relSource entry.2);
                "target_type" := GoString (relTarget entry.2) ]})
    <$> range_entries env (S (ranges k)) relTables in
  set_ranges (S (S (ranges k)))
    (set_structuredSchema
       {[ "node_types" := GoArray nodeTypes;
          "relationship_types" := GoArray relTypes;
          "total_tables" := GoInt (Z.of_nat (size nodeTables) + Z.of_nat (size relTables)) ]} k).

(** One round of the loop of [GetSchemaVersion]:
    [hash = hash*31 + len(key)], then, for a string value,
    [hash = hash*31 + int(char)] for each of its characters. *)
Definition schemaHash_step (env : Env) (hash : Z) (entry : string * GoValue) : Z :=
  let hash := int_add_mul31 hash (len entry.1) in
  match entry.2 with
  | GoString str => foldl int_add_mul31 hash (utf8_runes env str)
  | _ => hash
  end.

(** The fingerprint computed when the iteration visits [entries]. *)
Definition schemaVersion_of (env : Env) (entries : list (string * GoValue)) : string :=
  "v" +:+ itoa (foldl (schemaHash_step env) 0 entries).

Definition GetSchemaVersion (env : Env) (k : Kuzu) : string * Kuzu :=
  (schemaVersion_of env (range_entries env (ranges k) (structuredSchema k)),
   set_ranges (S (ranges k)) k).

(** ** import.go and kuzu.go: the import pipeline *)

Definition lift {S} (result : option error) : Action S := λ s, (result, s).

Definition emptyString (s : string) : bool := String.eqb s "".

Fixpoint validateNodes (nodes : list Node) : option error :=
  match nodes with
  | [] => None
  | node :: rest =>
      if emptyString (ID node) then Some (Errorf "node at index %d has empty ID" None)
      else if emptyString (Type_ node) then Some (Errorf "node %s has empty type" None)
      else validateNodes rest
  end.

Fixpoint validateRelationships (rels : list Relationship) : option error :=
  match rels with
  | [] => None
  | rel :: rest =>
      if emptyString (RelType rel)
      then Some (Errorf "relationship at index %d has empty type" None)
      else if emptyString (ID (Source rel))
      then Some (Errorf "relationship at index %d has empty source ID" None)
      else if emptyString (ID (Target rel))
      then Some (Errorf "relationship at index %d has empty target ID" None)
      else validateRelationships rest
  end.

Definition validateGraphDocument (doc : GraphDocument) : option error :=
  match validateNodes (Nodes doc) with
  | Some e => Some e
  | None => validateRelationships (Relationships doc)
  end.

Definition isReserved (key : string) : bool := String.eqb key "id" || String.eqb key "type".

(** The text stored for a property value on the individual path of
    [addNode] and [addRelationship]. *)
Definition propertyText (env : Env) (value : GoValue) : string :=
  match ConvertGoValueToKuzu env NewTypeConverter value with
  | (_, _, Some _) => Sprint_v env value
  | (convertedValue, _, None) => Sprint_v env convertedValue
  end.

(** The loop that fills [propKeys] and [propValues]; [skip] tells the keys
    it passes over. *)
Fixpoint propertyArrays (skip : string → bool) (text : GoValue → string)
    (entries : list (string * GoValue)) (propKeys propValues : list string)
    : list string * list string :=
  match entries with
  | [] => (propKeys, propValues)
  | (key, value) :: rest =>
      if skip key then propertyArrays skip text rest propKeys propValues
      else propertyArrays skip text rest (propKeys ++ [key]) (propValues ++ [text value])
  end.

Definition addNode (env : Env) (node : Node) : Action Kuzu :=
  λ k, if emptyString (ID node) then (Some (Errorf "node ID cannot be empty" None), k)
       else
         match ConvertProperties env (Properties node) with
         | (_, Some e) => (Some (Errorf "failed to convert node properties: %w" (Some e)), k)
         | (convertedProperties, None) =>
             let '(propKeys, propValues) :=
               propertyArrays isReserved (propertyText env)
                 (range_entries env (ranges k) convertedProperties) [] [] in
             wrapped "failed to add node %s: %w"
               (Query env Background
                  (MergeNodeStmt (Type_ node) (ID node) (Type_ node) propKeys propValues))
               (set_ranges (S (ranges k)) k)
         end.

Definition addRelationship (env : Env) (rel : Relationship) : Action Kuzu :=
  λ k, if emptyString (ID (Source rel)) || emptyString (ID (Target rel))
       then (Some (Errorf "relationship source and target IDs cannot be empty" None), k)
       else
         match ConvertProperties env (RelProperties rel) with
         | (_, Some e) =>
             (Some (Errorf "failed to convert relationship properties: %w" (Some e)), k)
         | (convertedProperties, None) =>
             let '(propKeys, propValues) :=
               propertyArrays (λ _, false) (propertyText env)
                 (range_entries env (ranges k) convertedProperties) [] [] in
             wrapped "failed to add relationship %s: %w"
               (Query env Background
                  (MergeRelStmt (Type_ (Source rel)) (Type_ (Target rel)) (RelType rel)
                     (ID (Source rel)) (ID (Target rel)) propKeys propValues))
               (set_ranges (S (ranges k)) k)
         end.

(** [for i := 0; i < len(xs); i += size { batch := xs[i:min(i+size, len(xs))] ... }]:
    the batches the loop goes through. *)
Fixpoint batches_upto {A} (rounds size : nat) (xs : list A) : list (list A) :=
  match rounds, xs with
  | O, _ | _, [] => []
  | S rounds, _ => take size xs :: batches_upto rounds size (drop size xs)
  end.

Definition batches {A} (size : nat) (xs : list A) : list (list A) :=
  batches_upto (length xs) size xs.

(** [for _, x := range xs { m[key(x)] = append(m[key(x)], val(x)) }] *)
Definition groupBy {A B} (key : A → string) (val : A → B) (xs : list A)
    : gmap string (list B) :=
  foldl (λ m x, <[key x := default [] (m !! key x) ++ [val x]]> m) ∅ xs.

Definition nodeData (node : Node) : NodeData :=
  {| nd_id := ID node; nd_type := Type_ node; nd_properties := Properties node |}.

Definition relData (rel : Relationship) : RelData :=
  {| rd_source_id := ID (Source rel); rd_target_id := ID (Target rel);
     rd_properties := RelProperties rel |}.

(** [len(nodes) > 0 && len(nodes[0].Properties) > 0] *)
Definition firstHasProperties (nodes : list Node) : bool :=
  match nodes with
  | [] => false
  | first :: _ => bool_decide (size (Properties first) ≠ O)
  end.

(** The statement of [insertNodeBatch]. *)
Definition nodeBatchStmt (nodeType : string) (nodes : list Node) : Stmt :=
  MergeNodesStmt nodeType (firstHasProperties nodes) (nodeData <$> nodes).

Definition insertNodeBatch (env : Env) (ctx : Context) (nodeType : string)
    (nodes : list Node) : Action Kuzu :=
  match nodes with
  | [] => ok
  | _ => wrapped "failed to execute batch insert: %w"
           (Query env ctx (nodeBatchStmt nodeType nodes))
  end.

Definition batchInsertNodesByType (env : Env) (ctx : Context) (nodeType : string)
    (nodes : list Node) : Action Kuzu :=
  for_each (batches 100 nodes) (λ batch,
    wrapped "failed to insert batch %d-%d: %w" (insertNodeBatch env ctx nodeType batch)).

(** [generateDocumentID]: [hash = hash*31 + int(char)] over the characters
    of the content, printed as [doc_%d]. *)
Definition generateDocumentID (env : Env) (content : string) : string :=
  "doc_" +:+ itoa (foldl int_add_mul31 0 (utf8_runes env content)).

(** The id of the source document: its metadata entry [id] when that is a
    non-empty string, the generated id otherwise. *)
Definition documentID (env : Env) (doc : GraphDocument) : string :=
  let docID :=
    match Metadata (DocSource doc) !! "id" with
    | Some (GoString idStr) => idStr
    | _ => ""
    end in
  if emptyString docID then generateDocumentID env (PageContent (DocSource doc)) else docID.

Definition batchCreateMentionsRelationships (env : Env) (ctx : Context)
    (docID nodeType : string) (nodeIDs : list string) : Action Kuzu :=
  match nodeIDs with
  | [] => ok
  | _ => wrapped "failed to create batch MENTIONS relationships: %w"
           (Query env ctx (MentionsStmt nodeType docID nodeIDs))
  end.

Definition batchLinkNodesToSource (env : Env) (ctx : Context) (nodes : list Node)
    (doc : GraphDocument) : Action Kuzu :=
  if emptyString (PageContent (DocSource doc)) then ok
  else
    let docID := documentID env doc in
    for_range env (groupBy Type_ ID nodes) (λ nodeType nodeIDs,
      wrapped "failed to create MENTIONS for type %s: %w"
        (batchCreateMentionsRelationships env ctx docID nodeType nodeIDs)).

(** The statement of [insertRelationshipBatch] for one pattern group; the
    first relationship of the group gives the labels. *)
Definition relBatchStmt (firstRel : Relationship) (rels : list Relationship) : Stmt :=
  MergeRelsStmt (Type_ (Source firstRel)) (Type_ (Target firstRel)) (RelType firstRel)
    (bool_decide (size (RelProperties firstRel) ≠ O)) (relData <$> rels).

Definition insertRelationshipBatch (env : Env) (ctx : Context)
    (relationships : list Relationship) : Action Kuzu :=
  match relationships with
  | [] => ok
  | _ =>
      for_range env (groupBy relKey id relationships) (λ _ rels,
        match rels with
        | [] => ok
        | firstRel :: _ =>
            wrapped "failed to insert relationship batch for pattern %s_%s_%s: %w"
              (Query env ctx (relBatchStmt firstRel rels))
        end)
  end.

Definition batchInsertRelationships (env : Env) (ctx : Context)
    (relationships : list Relationship) : Action Kuzu :=
  for_each (batches 100 relationships) (λ batch,
    wrapped "failed to insert relationship batch %d-%d: %w"
      (insertRelationshipBatch env ctx batch)).

Definition processBatch (env : Env) (ctx : Context) (doc : GraphDocument) (opts : Options)
    : Action Kuzu :=
  for_range env (groupBy Type_ id (Nodes doc)) (λ nodeType nodes,
    wrapped "failed to batch insert nodes of type %s: %w"
      (batchInsertNodesByType env ctx nodeType nodes)) ;>
  (if IncludeSource opts
   then wrapped "failed to batch link nodes to source: %w"
          (batchLinkNodesToSource env ctx (Nodes doc) doc)
   else ok) ;>
  for_range env (groupBy relKey id (Relationships doc)) (λ _ rels,
    wrapped "failed to batch insert relationships: %w"
      (batchInsertRelationships env ctx rels)).

(** The source links of the individual path are commented out in the
    source, so [opts] plays no part. *)
Definition processIndividually (env : Env) (ctx : Context) (doc : GraphDocument)
    (opts : Options) : Action Kuzu :=
  for_each (Nodes doc) (addNode env) ;>
  for_each (Relationships doc) (addRelationship env).

(** [len(doc.Nodes) > 10 || len(doc.Relationships) > 10] *)
Definition isLarge (doc : GraphDocument) : bool :=
  bool_decide (10 < length (Nodes doc))%nat || bool_decide (10 < length (Relationships doc))%nat.

Definition processGraphDocument (env : Env) (ctx : Context) (doc : GraphDocument)
    (opts : Options) : Action Kuzu :=
  wrapped "document validation failed: %w" (lift (validateGraphDocument doc)) ;>
  ensureTablesExist env doc ;>
  (if isLarge doc then processBatch env ctx doc opts
   else processIndividually env ctx doc opts).

Definition applyOptions {O} (options : list (O → O)) (opts : O) : O :=
  foldl (λ o opt, opt o) opts options.

Definition AddGraphDocument (env : Env) (ctx : Context) (docs : list GraphDocument)
    (options : list (Options → Options)) : Action Kuzu :=
  λ k, if negb (connected k) then (Some ErrConnectionNotInitialized, k)
       else
         let opts := applyOptions options NewOptions in
         for_each docs (λ doc, processGraphDocument env ctx doc opts) k.

Definition collectDocuments (docs : list GraphDocument)
    : gmap string bool * gmap string RelPattern :=
  foldl (λ acc doc, (collectNodeTypes (Nodes doc) acc.1,
                     collectRelPatterns (Relationships doc) acc.2)) (∅, ∅) docs.

(** [for i, doc := range docs { if err := k.validateGraphDocument(doc);
    err != nil { return fmt.Errorf("document %d validation failed: %w", i, err) } }] *)
Fixpoint validateAll (docs : list GraphDocument) : option error :=
  match docs with
  | [] => None
  | doc :: rest =>
      match validateGraphDocument doc with
      | Some e => Some (Errorf "document %d validation failed: %w" (Some e))
      | None => validateAll rest
      end
  end.

Definition processDocumentBatch (env : Env) (ctx : Context) (docs : list GraphDocument)
    (opts : Options) : Action Kuzu :=
  lift (validateAll docs) ;>
  wrapped "failed to create tables for batch: %w"
    (ensureTablesForBatch env (collectDocuments docs).1 (collectDocuments docs).2) ;>
  for_each docs (λ doc,
    wrapped "failed to process document: %w" (processGraphDocument env ctx doc opts)).

(** ** transaction.go *)

Inductive TransactionState : Set :=
  | TransactionIdle
  | TransactionActive
  | TransactionCommitted
  | TransactionRolledBack
  | TransactionFailed.

Definition TransactionState_String (ts : TransactionState) : string :=
  match ts with
  | TransactionIdle => "idle"
  | TransactionActive => "active"
  | TransactionCommitted => "committed"
  | TransactionRolledBack => "rolled_back"
  | TransactionFailed => "failed"
  end.

(** The handle.  [tx_done] tells whether [tx.ctx] is done: the caller's
    context was done, or [tx.cancelFunc] has been called.  The store the
    handle points to ([tx.kuzu]) is passed along with it. *)
Record Transaction := {
  tx_id : string;
  state : TransactionState;
  tx_done : bool;
  operations : list Stmt;
  startedAt : Z
}.

Record TransactionConfig := { ReadOnly : bool; TxTimeout : Z; Retries : Z }.

Definition WithReadOnly (readOnly : bool) (config : TransactionConfig) : TransactionConfig :=
  {| ReadOnly := readOnly; TxTimeout := TxTimeout config; Retries := Retries config |}.

Definition getCurrentTimestamp : Z := 1000.

Definition generateTransactionID : string := "tx_" +:+ itoa getCurrentTimestamp.

(** The store's [Query], under the name the handle calls it by. *)
Abbreviation kuzu_Query := Query (only parsing).

Module Tx.

Definition GetState (tx : Transaction) : TransactionState := state tx.

Definition setState (s : TransactionState) (tx : Transaction) : Transaction :=
  {| tx_id := tx_id tx; state := s; tx_done := tx_done tx;
     operations := operations tx; startedAt := startedAt tx |}.

Definition cancelFunc (tx : Transaction) : Transaction :=
  {| tx_id := tx_id tx; state := state tx; tx_done := true;
     operations := operations tx; startedAt := startedAt tx |}.

Definition record (stmt : Stmt) (tx : Transaction) : Transaction :=
  {| tx_id := tx_id tx; state := state tx; tx_done := tx_done tx;
     operations := operations tx ++ [stmt]; startedAt := startedAt tx |}.

Definition ctx (tx : Transaction) : Context := {| ctx_done := tx_done tx |}.

Definition IsActive (tx : Transaction) : bool :=
  match GetState tx with TransactionActive => true | _ => false end.

Definition Query (env : Env) (stmt : Stmt) : Action (Transaction * Kuzu) :=
  λ '(tx, k),
    if negb (IsActive tx)
    then (Some (Errorf "transaction is not active: %s" None), (tx, k))
    else if tx_done tx
    then (Some (ExtError "context"), (setState TransactionFailed tx, k))
    else
      let tx := record stmt tx in
      match kuzu_Query env (ctx tx) stmt k with
      | (Some e, k') =>
          (Some (Errorf "query failed in transaction: %w" (Some e)),
           (setState TransactionFailed tx, k'))
      | (None, k') => (None, (tx, k'))
      end.

Definition Commit (env : Env) : Action (Transaction * Kuzu) :=
  λ '(tx, k),
    if negb (IsActive tx)
    then (Some (Errorf "transaction is not active: %s" None), (tx, k))
    else
      let k' := (kuzu_Query env (ctx tx) CommitStmt k).2 in
      (None, (cancelFunc (setState TransactionCommitted tx), k')).

Definition Rollback (env : Env) : Action (Transaction * Kuzu) :=
  λ '(tx, k),
    match GetState tx with
    | TransactionActive | TransactionFailed =>
        let k' := (kuzu_Query env (ctx tx) RollbackStmt k).2 in
        (None, (cancelFunc (setState TransactionRolledBack tx), k'))
    | _ => (Some (Errorf "transaction cannot be rolled back: %s" None), (tx, k))
    end.

Definition Close (env : Env) : Action (Transaction * Kuzu) :=
  λ '(tx, k),
    match GetState tx with
    | TransactionActive | TransactionFailed => Rollback env (tx, k)
    | TransactionCommitted | TransactionRolledBack => (None, (tx, k))
    | _ => (None, (cancelFunc tx, k))
    end.

Definition GetOperations (tx : Transaction) : list Stmt := operations tx.

End Tx.

Definition defaultConfig : TransactionConfig :=
  {| ReadOnly := false; TxTimeout := 30000; Retries := 0 |}.

(** [BeginTransaction]: the handle starts Active; whether the engine
    accepts the begin statement does not matter. *)
Definition BeginTransaction (env : Env) (ctx : Context)
    (opts : list (TransactionConfig → TransactionConfig)) (k : Kuzu)
    : option Transaction * option error * Kuzu :=
  if negb (IsConnected k) then (None, Some ErrConnectionNotInitialized, k)
  else
    let config := applyOptions opts defaultConfig in
    let tx := {| tx_id := generateTransactionID; state := TransactionActive;
                 tx_done := ctx_done ctx; operations := [];
                 startedAt := getCurrentTimestamp |} in
    (Some tx, None, (Query env (Tx.ctx tx) (BeginStmt (ReadOnly config)) k).2).

(** [RunInTransaction].  Besides the error it returns, the result shows
    the handle as the call leaves it, after the deferred [tx.Close()]. *)
Definition RunInTransaction (env : Env) (ctx : Context)
    (fn : Action (Transaction * Kuzu))
    (opts : list (TransactionConfig → TransactionConfig)) (k : Kuzu)
    : option error * option Transaction * Kuzu :=
  match BeginTransaction env ctx opts k with
  | (None, err, k) => (Some (Errorf "failed to begin transaction: %w" err), None, k)
  | (Some tx, _, k) =>
      let '(result, s) :=
        match fn (tx, k) with
        | (Some err, s) =>
            match Tx.Rollback env s with
            | (Some rollbackErr, s) =>
                (Some (Errorf "function failed: %w, rollback failed: %v" (Some err)), s)
            | (None, s) => (Some err, s)
            end
        | (None, s) => wrapped "failed to commit transaction: %w" (Tx.Commit env) s
        end in
      let '(tx, k) := (Tx.Close env s).2 in
      (result, Some tx, k)
  end.

(** *** The import pipeline under a transaction *)

Definition onStore (a : Action Kuzu) : Action (Transaction * Kuzu) :=
  λ '(tx, k), let '(result, k') := a k in (result, (tx, k')).

Definition for_range_tx {V} (env : Env) (m : gmap string V)
    (body : string → V → Action (Transaction * Kuzu)) : Action (Transaction * Kuzu) :=
  λ '(tx, k), for_each (range_entries env (ranges k) m) (λ kv, body kv.1 kv.2)
                (tx, set_ranges (S (ranges k)) k).

(** [addNodeInTransaction]: the values are printed as they are. *)
Definition addNodeInTransaction (env : Env) (node : Node) : Action (Transaction * Kuzu) :=
  λ '(tx, k),
    if emptyString (ID node) then (Some (Errorf "node ID cannot be empty" None), (tx, k))
    else
      let '(propKeys, propValues) :=
        propertyArrays isReserved (Sprint_v env)
          (range_entries env (ranges k) (Properties node)) [] [] in
      wrapped "failed to add node %s in transaction: %w"
        (Tx.Query env (MergeNodeStmt (Type_ node) (ID node) (Type_ node) propKeys propValues))
        (tx, set_ranges (S (ranges k)) k).

Definition addRelationshipInTransaction (env : Env) (rel : Relationship)
    : Action (Transaction * Kuzu) :=
  λ '(tx, k),
    if emptyString (ID (Source rel)) || emptyString (ID (Target rel))
    then (Some (Errorf "relationship source and target IDs cannot be empty" None), (tx, k))
    else
      let '(propKeys, propValues) :=
        propertyArrays (λ _, false) (Sprint_v env)
          (range_entries env (ranges k) (RelProperties rel)) [] [] in
      wrapped "failed to add relationship %s in transaction: %w"
        (Tx.Query env
           (MergeRelStmt (Type_ (Source rel)) (Type_ (Target rel)) (RelType rel)
              (ID (Source rel)) (ID (Target rel)) propKeys propValues))
        (tx, set_ranges (S (ranges k)) k).

Definition insertNodeBatchInTransaction (env : Env) (nodeType : string) (nodes : list Node)
    : Action (Transaction * Kuzu) :=
  match nodes with
  | [] => ok
  | _ => wrapped "failed to execute batch insert in transaction: %w"
           (Tx.Query env (nodeBatchStmt nodeType nodes))
  end.

Definition batchInsertNodesByTypeInTransaction (env : Env) (nodeType : string)
    (nodes : list Node) : Action (Transaction * Kuzu) :=
  for_each (batches 100 nodes) (λ batch,
    wrapped "failed to insert batch %d-%d: %w"
      (insertNodeBatchInTransaction env nodeType batch)).

Definition insertRelationshipBatchInTransaction (env : Env)
    (relationships : list Relationship) : Action (Transaction * Kuzu) :=
  match relationships with
  | [] => ok
  | _ =>
      for_range_tx env (groupBy relKey id relationships) (λ _ rels,
        match rels with
        | [] => ok
        | firstRel :: _ =>
            wrapped
              "failed to insert relationship batch for pattern %s_%s_%s in transaction: %w"
              (Tx.Query env (relBatchStmt firstRel rels))
        end)
  end.

Definition batchInsertRelationshipsInTransaction (env : Env)
    (relationships : list Relationship) : Action (Transaction * Kuzu) :=
  for_each (batches 100 relationships) (λ batch,
    wrapped "failed to insert relationship batch %d-%d: %w"
      (insertRelationshipBatchInTransaction env batch)).

(** The source links are commented out in the source on both paths. *)
Definition processBatchInTransaction (env : Env) (doc : GraphDocument) (opts : Options)
    : Action (Transaction * Kuzu) :=
  for_range_tx env (groupBy Type_ id (Nodes doc)) (λ nodeType nodes,
    wrapped "failed to batch insert nodes of type %s: %w"
      (batchInsertNodesByTypeInTransaction env nodeType nodes)) ;>
  for_range_tx env (groupBy relKey id (Relationships doc)) (λ _ rels,
    wrapped "failed to batch insert relationships: %w"
      (batchInsertRelationshipsInTransaction env rels)).

Definition processIndividuallyInTransaction (env : Env) (doc : GraphDocument)
    (opts : Options) : Action (Transaction * Kuzu) :=
  for_each (Nodes doc) (addNodeInTransaction env) ;>
  for_each (Relationships doc) (addRelationshipInTransaction env).

Definition processGraphDocumentInTransaction (env : Env) (doc : GraphDocument)
    (opts : Options) : Action (Transaction * Kuzu) :=
  onStore (ensureTablesExist env doc) ;>
  (if isLarge doc then processBatchInTransaction env doc opts
   else processIndividuallyInTransaction env doc opts).

Definition processDocumentBatchInTransaction (env : Env) (docs : list GraphDocument)
    (opts : Options) : Action (Transaction * Kuzu) :=
  lift (validateAll docs) ;>
  wrapped "failed to create tables for batch: %w"
    (onStore (ensureTablesForBatch env (collectDocuments docs).1 (collectDocuments docs).2)) ;>
  for_each docs (λ doc,
    wrapped "failed to process document: %w" (processGraphDocumentInTransaction env doc opts)).

(** [addGraphDocumentsInTransaction]: the documents go through
    [processDocumentBatchInTransaction] ten at a time. *)
Definition addGraphDocumentsInTransaction (env : Env) (docs : list GraphDocument)
    (opts : Options) : Action (Transaction * Kuzu) :=
  for_each (batches 10 docs) (λ batch,
    wrapped "failed to process document batch %d-%d: %w"
      (processDocumentBatchInTransaction env batch opts)).

Definition AddGraphDocumentsWithTransaction (env : Env) (docs : list GraphDocument)
    (options : list (Options → Options)) : Action (Transaction * Kuzu) :=
  match docs with
  | [] => ok
  | _ => addGraphDocumentsInTransaction env docs (applyOptions options NewOptions)
  end.

Definition AddGraphDocuments (env : Env) (ctx : Context) (docs : list GraphDocument)
    (options : list (Options → Options)) (k : Kuzu) : option error * Kuzu :=
  match docs with
  | [] => (None, k)
  | _ =>
      let opts := applyOptions options NewOptions in
      let '(result, _, k') :=
        RunInTransaction env ctx (addGraphDocumentsInTransaction env docs opts)
          [WithReadOnly false] k in
      (result, k')
  end.

(** ** Vocabulary of the properties *)

(** A document that [validateGraphDocument] has to reject. *)
Definition invalidNode (node : Node) : Prop := ID node = "" ∨ Type_ node = "".

Definition invalidRelationship (rel : Relationship) : Prop :=
  RelType rel = "" ∨ ID (Source rel) = "" ∨ ID (Target rel) = "".

Definition invalidDocument (doc : GraphDocument) : Prop :=
  Exists invalidNode (Nodes doc) ∨ Exists invalidRelationship (Relationships doc).


Definition relTuple (rel : Relationship) : string * string * string * string * string :=
  (ID (Source rel), RelType rel, ID (Target rel), Type_ (Source rel), Type_ (Target rel)).


(** The first element of [xs] with key [key], if any. *)
Fixpoint firstWith {A} (keyOf : A → string) (key : string) (xs : list A) : option A :=
  match xs with
  | [] => None
  | x :: rest => if decide (keyOf x = key) then Some x else firstWith keyOf key rest
  end.

(** The elements of [xs] that no earlier element shares its key with. *)
Fixpoint firstOccurrences {A} (keyOf : A → string) (xs : list A) : list A :=
  match xs with
  | [] => []
  | x :: rest => x :: filter (λ y, keyOf y ≠ keyOf x) (firstOccurrences keyOf rest)
  end.

(** To the engine and back: [ConvertKuzuValueToGo] applied to the value
    and under the type tag that [ConvertGoValueToKuzu] returned. *)
Definition roundTrip (env : Env) (tc : TypeConverter) (value : GoValue)
    : GoValue * option error :=
  match ConvertGoValueToKuzu env tc value with
  | (_, _, Some e) => (GoNil, Some e)
  | (converted, dataType, None) => ConvertKuzuValueToGo env tc converted dataType
  end.

(** A string that [convertString] leaves a string: it parses neither as a
    date nor as a timestamp and is not JSON that decodes. *)
Definition isPlainString (env : Env) (tc : TypeConverter) (s : string) : bool :=
  negb (isDateString env tc s) && negb (isTimestampString env tc s)
  && negb (isJSONString s && bool_decide (is_Some (json_Unmarshal env s))).

(** The layout [convertTime] prints a time with. *)
Definition layoutOf (tc : TypeConverter) (t : Time) : string :=
  if (Hour t =? 0) && (Minute t =? 0) && (Second t =? 0) && (Nanosecond t =? 0)
  then DateFormat tc else TimestampFormat tc.

(** The statement by which the individual path writes [node]: its
    property keys are the keys of the node except [id] and [type], each
    with the text of its value. *)
Definition writesWithoutReserved (node : Node) (text : GoValue → string) (stmt : Stmt)
    : Prop :=
  ∃ keys vals,
    stmt = MergeNodeStmt (Type_ node) (ID node) (Type_ node) keys vals ∧
    ("id" ∉ keys) ∧ ("type" ∉ keys) ∧
    length keys = length vals ∧
    zip keys vals
    ≡ₚ (λ kv, (kv.1, text kv.2))
       <$> filter (λ kv, isReserved kv.1 = false) (map_to_list (Properties node)).

(** The text [addNode] stores for a property value: the value is converted
    by [ConvertProperties] first and then once more. *)
Definition storedText (env : Env) (value : GoValue) : string :=
  propertyText env (ConvertGoValueToKuzu env NewTypeConverter value).1.1.

(** The calls that import documents. *)
Inductive ImportCall : Type :=
  | CallAddGraphDocument (ctx : Context) (docs : list GraphDocument)
      (options : list (Options → Options))
  | CallAddGraphDocuments (ctx : Context) (docs : list GraphDocument)
      (options : list (Options → Options))
  | CallAddGraphDocumentsWithTransaction (tx : Transaction) (docs : list GraphDocument)
      (options : list (Options → Options)).

Definition runImport (env : Env) (call : ImportCall) (k : Kuzu) : Kuzu :=
  match call with
  | CallAddGraphDocument ctx docs options => (AddGraphDocument env ctx docs options k).2
  | CallAddGraphDocuments ctx docs options => (AddGraphDocuments env ctx docs options k).2
  | CallAddGraphDocumentsWithTransaction tx docs options =>
      (AddGraphDocumentsWithTransaction env docs options (tx, k)).2.2
  end.

Definition runImports (env : Env) (calls : list ImportCall) (k : Kuzu) : Kuzu :=
  foldl (λ k call, runImport env call k) k calls.

(** One step of a run, seen from node type [T]: either the statements it
    sends are not the table creation for [T] and the cache entry of [T],
    once set, stays set; or [T] is not cached, the step sends the table
    creation for [T], and the cache records [T] exactly when the engine
    accepts it. *)
Inductive tableStep (env : Env) (T : string) : relation Kuzu :=
  | tableStep_other k k' new :
      sent k' = sent k ++ new →
      CreateNodeTableStmt T ∉ new →
      (cached (nodeTables k) T = true → cached (nodeTables k') T = true) →
      tableStep env T k k'
  | tableStep_create k k' :
      cached (nodeTables k) T = false →
      sent k' = sent k ++ [CreateNodeTableStmt T] →
      cached (nodeTables k') T = engine_accepts env (sent k) (CreateNodeTableStmt T) →
      tableStep env T k k'.

Definition tableSteps (env : Env) (T : string) : relation Kuzu := rtc (tableStep env T).

(** Whether a statement is, as the engine receives it, the node-table
    creation for [T]: the text names the table
    [sanitizeIdentifier nodeType], so the creations for two types with the
    same sanitized name are the same text. *)
Definition isCreateNodeTable (T : string) (stmt : Stmt) : bool :=
  match stmt with
  | CreateNodeTableStmt nodeType =>
      String.eqb (sanitizeIdentifier nodeType) (sanitizeIdentifier T)
  | _ => false
  end.

(** How often the engine receives the text of the node-table creation
    for [T] among [stmts]. *)
Definition countCreateNodeTable (T : string) (stmts : list Stmt) : nat :=
  length (filter (λ stmt, isCreateNodeTable T stmt = true) stmts).

(** An action all of whose effects on the store are such steps; [store]
    reads the store off the state the action works on. *)
Definition Steps {S} (env : Env) (T : string) (store : S → Kuzu) (a : Action S) : Prop :=
  ∀ s, tableSteps env T (store s) (store (a s).2).

(** The node types of the documents an import call is given. *)
Definition importedTypes (call : ImportCall) : list string :=
  match call with
  | CallAddGraphDocument _ docs _ | CallAddGraphDocuments _ docs _
  | CallAddGraphDocumentsWithTransaction _ docs _ =>
      docs ≫= (λ doc, Type_ <$> Nodes doc)
  end.

(** A statement that creates no node table but for one of [types]. *)
Definition createsFor (types : list string) (stmt : Stmt) : Prop :=
  ∀ nodeType, stmt = CreateNodeTableStmt nodeType → nodeType ∈ types.

(** An action whose node-table creations are all for [types]. *)
Definition CreatesFor {S} (store : S → Kuzu) (types : list string) (a : Action S) : Prop :=
  ∀ s, ∃ new, sent (store (a s).2) = sent (store s) ++ new ∧ Forall (createsFor types) new.

(** ** What the engine keeps

    The engine is not part of the repository.  Its merge statements are
    read as the specification describes them: a node is created or
    updated under its label and id; [SET] overwrites the field it names
    and leaves every other field as it was. *)
Record Row := {
  row_type : string;
  row_properties : option (gmap string GoValue)
}.

Definition upsert (label id type : string) (properties : option (gmap string GoValue))
    (store : gmap (string * string) Row) : gmap (string * string) Row :=
  <[(label, id) :=
      {| row_type := type;
         row_properties :=
           match properties with
           | Some p => Some p
           | None => store !! (label, id) ≫= row_properties
           end |}]> store.

(** [map($prop_keys, $prop_vals)] *)
Definition mapOf (keys vals : list string) : gmap string GoValue :=
  list_to_map (zip keys (GoString <$> vals)).

Definition applyStmt (store : gmap (string * string) Row) (stmt : Stmt)
    : gmap (string * string) Row :=
  match stmt with
  | MergeNodeStmt label id node_type prop_keys prop_vals =>
      upsert label id node_type (Some (mapOf prop_keys prop_vals)) store
  | MergeNodesStmt label setProperties nodes =>
      foldl (λ store node,
               upsert label (nd_id node) (nd_type node)
                 (if setProperties then Some (nd_properties node) else None) store)
            store nodes
  | _ => store
  end.

(** The nodes an engine that accepted every statement of [log] holds. *)
Definition persistedNodes (log : list Stmt) : gmap (string * string) Row :=
  foldl applyStmt ∅ log.

(** ** Environments and documents for the examples *)

Definition rotate_Permutation {A} (n : nat) (l : list A) : rotate n l ≡ₚ l.
Proof.
  unfold rotate. rewrite Permutation_app_comm. by rewrite take_drop.
Qed.

Definition byteRunes (s : string) : list Z :=
  (λ c, Z.of_nat (Ascii.nat_of_ascii c)) <$> String.list_ascii_of_string s.

Definition ParseBool (s : string) : bool * option error :=
  if one_of s ["1"; "t"; "T"; "TRUE"; "true"; "True"] then (true, None)
  else if one_of s ["0"; "f"; "F"; "FALSE"; "false"; "False"] then (false, None)
  else (false, Some (ExtError "strconv.ParseBool")).

Definition SprintBasic (value : GoValue) : string :=
  match value with
  | GoNil => "<nil>"
  | GoBool true => "true"
  | GoBool false => "false"
  | GoInt z | GoInt8 z | GoInt16 z | GoInt32 z | GoInt64 z
  | GoUint z | GoUint8 z | GoUint16 z | GoUint32 z | GoUint64 z => itoa z
  | _ => ""
  end.

(** An environment for the examples: the iteration order and the engine
    are as given; texts are ASCII; no string parses as a date, a
    timestamp, a number or JSON. *)
Definition exampleEnv (order : nat → list string → list string)
    (order_perm : ∀ n keys, order n keys ≡ₚ keys)
    (accepts : list Stmt → Stmt → bool) : Env :=
  {| time_Parse := λ _ _, None;
     time_Format := λ _ _, "";
     json_Unmarshal := λ _, None;
     json_Unmarshal_slice := λ _, None;
     json_Unmarshal_map := λ _, None;
     strconv_ParseBool := ParseBool;
     strconv_ParseInt := λ _, (0, Some (ExtError "strconv.ParseInt"));
     strconv_ParseUint := λ _, (0, Some (ExtError "strconv.ParseUint"));
     strconv_ParseFloat := λ _ _, (0%float, Some (ExtError "strconv.ParseFloat"));
     fmt_Sprint := SprintBasic;
     float32_of_float64 := λ f, {| f32 := f |};
     float32_of_int64 := λ _, {| f32 := 0%float |};
     float64_of_int64 := λ _, 0%float;
     int64_of_float64 := λ _, 0;
     uint64_of_float64 := λ _, 0;
     utf8_runes := byteRunes;
     range_order := order;
     range_order_perm := order_perm;
     engine_accepts := accepts |}.

(** The engine accepts everything; maps are visited in key order. *)
Definition calmEnv : Env :=
  exampleEnv (λ _ keys, keys) (λ _ keys, reflexivity keys) (λ _ _, true).

(** The engine accepts everything; the [n]-th iteration starts [n] places
    further on. *)
Definition rotatingEnv : Env :=
  exampleEnv (λ n keys, rotate n keys) (λ n keys, rotate_Permutation n keys) (λ _ _, true).

(** The engine rejects the first statement it receives. *)
Definition coldStartEnv : Env :=
  exampleEnv (λ _ keys, keys) (λ _ keys, reflexivity keys)
    (λ history _, match history with [] => false | _ => true end).

Definition emptySource : Document := {| PageContent := ""; Metadata := ∅ |}.

Definition alice : Node := NewNode "alice" "Person".
Definition bob : Node := NewNode "bob" "Person".
Definition nameless : Node := NewNode "" "Person".

Definition aliceDoc : GraphDocument :=
  {| Nodes := [alice]; Relationships := []; DocSource := emptySource |}.

Definition namelessDoc : GraphDocument :=
  {| Nodes := [nameless]; Relationships := []; DocSource := emptySource |}.

(** Two relationships between the same ids under the same label; the
    source of the second is a node of another type. *)
Definition aliceKnowsBob : Relationship := NewRelationship alice bob "KNOWS".
Definition robotKnowsBob : Relationship :=
  NewRelationship (NewNode "alice" "Robot") bob "KNOWS".

(** Two relationships with different tuples whose keys are the same
    text. *)
Definition collidingX : Relationship :=
  NewRelationship (NewNode "a_b" "Person") (NewNode "t" "Person") "c".
Definition collidingY : Relationship :=
  NewRelationship (NewNode "a" "Person") (NewNode "t" "Person") "b_c".

(** Eleven nodes of type Person; the first has no properties, the second
    has a name. *)
Definition namedAlice : Node :=
  {| ID := "p1"; Type_ := "Person"; Properties := {[ "name" := GoString "Alice" ]} |}.

Definition elevenPersons : GraphDocument :=
  {| Nodes := NewNode "p0" "Person" :: namedAlice
              :: ((λ i, NewNode ("p" +:+ itoa i) "Person") <$> seqZ 2 9);
     Relationships := [];
     DocSource := emptySource |}.

(** A node that carries the reserved keys among its properties. *)
Definition taggedNode : Node :=
  {| ID := "n1"; Type_ := "Person";
     Properties := {[ "id" := GoString "other"; "type" := GoString "Robot";
                      "age" := GoInt 30 ]} |}.

(** Twenty-five nodes of type Person. *)
Definition manyPersons : GraphDocument :=
  {| Nodes := (λ i, NewNode ("p" +:+ itoa i) "Person") <$> seqZ 0 25;
     Relationships := [];
     DocSource := emptySource |}.

(** Eleven nodes of type Person, the first of which carries the reserved
    keys among its properties. *)
Definition elevenTagged : GraphDocument :=
  {| Nodes := taggedNode :: ((λ i, NewNode ("p" +:+ itoa i) "Person") <$> seqZ 1 10);
     Relationships := [];
     DocSource := emptySource |}.

(** The statements the two write paths send for a document, after the
    tables have been ensured: the batched path as [processGraphDocument]
    takes it for a large document, the individual path forced. *)
Definition sentBatched (env : Env) (doc : GraphDocument) : list Stmt :=
  sent (processGraphDocument env Background doc NewOptions NewKuzu).2.

Definition sentIndividually (env : Env) (doc : GraphDocument) : list Stmt :=
  sent ((ensureTablesExist env doc ;> processIndividually env Background doc NewOptions)
          NewKuzu).2.

Definition activeTx : Transaction :=
  {| tx_id := generateTransactionID; state := TransactionActive; tx_done := false;
     operations := []; startedAt := getCurrentTimestamp |}.

(** * Further functions of the package *)

(** ** types.go, kuzu.go: the remaining entry points of the converters *)

Definition GetKuzuTypeForGoValue (env : Env) (tc : TypeConverter) (value : GoValue)
    : KuzuDataType :=
  (ConvertGoValueToKuzu env tc value).1.2.

(** [getKuzuDataType] of schema.go. *)
Definition getKuzuDataType (env : Env) (value : GoValue) : string :=
  GetKuzuTypeForGoValue env NewTypeConverter value.

Definition CreateKuzuTypedValue (env : Env) (tc : TypeConverter) (value : GoValue)
    : option (gmap string GoValue) * option error :=
  match ConvertGoValueToKuzu env tc value with
  | (_, _, Some err) => (None, Some err)
  | (converted, dataType, None) =>
      (Some {[ "value" := converted; "type" := GoString dataType ]}, None)
  end.

(** [Kuzu.ValidatePropertyTypes]: the error of [ConvertProperties]. *)
Definition ValidatePropertyTypes (env : Env) (properties : gmap string GoValue)
    : option error :=
  (ConvertProperties env properties).2.

(** The type tags [ConvertGoValueToKuzu] gives to the values it accepts. *)
Definition convertedTypes : list KuzuDataType :=
  [KuzuSTRING; KuzuBOOL; KuzuINT64; KuzuINT32; KuzuINT16; KuzuINT8;
   KuzuUINT64; KuzuUINT32; KuzuUINT16; KuzuUINT8; KuzuDOUBLE; KuzuFLOAT;
   KuzuDATE; KuzuTIMESTAMP; KuzuLIST; KuzuSTRUCT].

(** A result of [ConvertGoValueToKuzu] that is either an error with the
    empty tag or a value with one of the tags above. *)
Definition wellTagged (c : Converted) : Prop :=
  match c.2 with
  | Some _ => c.1.2 = ""
  | None => c.1.2 ∈ convertedTypes
  end.

(** ** transaction.go: the remaining options and accessors *)

Definition WithTransactionTimeout (timeout : Z) (config : TransactionConfig)
    : TransactionConfig :=
  {| ReadOnly := ReadOnly config; TxTimeout := timeout; Retries := Retries config |}.

Definition WithRetries (retries : Z) (config : TransactionConfig) : TransactionConfig :=
  {| ReadOnly := ReadOnly config; TxTimeout := TxTimeout config; Retries := retries |}.

(** [Transaction.GetDuration] *)
Definition GetDuration (tx : Transaction) : Z := getCurrentTimestamp - startedAt tx.

(** The methods of a handle a caller can invoke, and a run of such calls
    on the handle and its store. *)
Inductive TxCall : Type :=
  | CallQuery (stmt : Stmt)
  | CallCommit
  | CallRollback
  | CallClose.

Definition runTxCall (env : Env) (call : TxCall) : Action (Transaction * Kuzu) :=
  match call with
  | CallQuery stmt => Tx.Query env stmt
  | CallCommit => Tx.Commit env
  | CallRollback => Tx.Rollback env
  | CallClose => Tx.Close env
  end.

Definition runTxCalls (env : Env) (calls : list TxCall) (s : Transaction * Kuzu)
    : Transaction * Kuzu :=
  foldl (λ s call, (runTxCall env call s).2) s calls.

(** A handle on which nothing more can be done: Committed or RolledBack. *)
Definition isFinal (tx : Transaction) : bool :=
  match state tx with
  | TransactionCommitted | TransactionRolledBack => true
  | _ => false
  end.

(** ** kuzu.go: queries with their results

    A row of a result is the map [tuple.GetAsMap] returns.  [Reader] is
    the engine's side of reading a result: for a statement it executed
    after the statements [h], the rows, the error met while they are read
    ([result.Next], [tuple.GetAsMap]), if any, and the number of rows the
    result reports. *)
Definition QueryRecord : Type := gmap string GoValue.

Record Answer := {
  answer_rows : list QueryRecord;
  answer_error : option error;
  answer_number_of_rows : Z
}.

Definition Reader : Type := list Stmt → Stmt → Answer.

(** The map [Query] returns: its [records] and, of its [summary], the
    [number_of_rows]. *)
Record QueryResult := {
  records : list QueryRecord;
  number_of_rows : Z
}.

Module Rows.

(** [Kuzu.Query] with what it returns. *)
Definition Query (env : Env) (read : Reader) (ctx : Context) (stmt : Stmt)
    : Kuzu → option QueryResult * option error * Kuzu :=
  λ k, match kuzu_Query env ctx stmt k with
       | (Some err, k') => (None, Some err, k')
       | (None, k') =>
           let answer := read (sent k) stmt in
           match answer_error answer with
           | Some err => (None, Some err, k')
           | None =>
               (Some {| records := answer_rows answer;
                        number_of_rows := answer_number_of_rows answer |}, None, k')
           end
       end.

Definition QuerySingle (env : Env) (read : Reader) (ctx : Context) (stmt : Stmt)
    : Kuzu → option QueryRecord * option error * Kuzu :=
  λ k, match Query env read ctx stmt k with
       | (_, Some err, k') => (None, Some err, k')
       | (None, None, k') => (None, Some (Errorf "unexpected result format" None), k')
       | (Some result, None, k') =>
           match records result with
           | [] => (None, Some (Errorf "query returned no results" None), k')
           | [record] => (Some record, None, k')
           | _ =>
               (None,
                Some (Errorf "query returned multiple results, expected single result" None),
                k')
           end
       end.

Definition QueryCount (env : Env) (read : Reader) (ctx : Context) (stmt : Stmt)
    : Kuzu → Z * option error * Kuzu :=
  λ k, match Query env read ctx stmt k with
       | (_, Some err, k') => (0, Some err, k')
       | (None, None, k') => (0, Some (Errorf "unexpected result format" None), k')
       | (Some result, None, k') => (number_of_rows result, None, k')
       end.

(** The conversion [QueryWithTypes] applies to each value of a row. *)
Definition convertedValue (env : Env) (value : GoValue) : GoValue :=
  match ConvertKuzuValueToGo env NewTypeConverter value KuzuSTRING with
  | (convertedValue, None) => convertedValue
  | (_, Some _) => value
  end.

Definition QueryWithTypes (env : Env) (read : Reader) (ctx : Context) (stmt : Stmt)
    : Kuzu → option QueryResult * option error * Kuzu :=
  λ k, match Query env read ctx stmt k with
       | (_, Some err, k') => (None, Some err, k')
       | (None, None, k') => (None, None, k')
       | (Some result, None, k') =>
           (Some {| records := (λ record : gmap string GoValue, convertedValue env <$> record)
                               <$> records result;
                    number_of_rows := number_of_rows result |}, None, k')
       end.

End Rows.

(** [Kuzu.HealthCheck] *)
Definition HealthCheck (env : Env) (read : Reader) (ctx : Context) : Action Kuzu :=
  λ k, if negb (IsConnected k) then (Some ErrConnectionNotInitialized, k)
       else match Rows.Query env read ctx (QueryStmt "RETURN 1 as health_check" ∅) k with
            | (_, Some err, k') => (Some (Errorf "health check failed: %w" (Some err)), k')
            | (_, None, k') => (None, k')
            end.

(** ** schema.go: introspection *)

Record TableInfo := {
  tableName : string;
  isNodeTable : bool;
  tableSourceType : string;
  tableTargetType : string
}.

Definition getTablesInfoAlternative (env : Env) (k : Kuzu) : list TableInfo * option error * Kuzu :=
  let nodes :=
    (λ entry : string * bool,
       {| tableName := entry.1; isNodeTable := true;
          tableSourceType := ""; tableTargetType := "" |})
    <$> range_entries env (ranges k) (nodeTables k) in
  let rels :=
    (λ entry : string * bool,
       {| tableName := entry.1; isNodeTable := false;
          tableSourceType := ""; tableTargetType := "" |})
    <$> range_entries env (S (ranges k)) (relTables k) in
  (nodes ++ rels, None, set_ranges (S (S (ranges k))) k).

(** The loop of [getAllTablesInfo] over the rows of [SHOW TABLES]. *)
Definition tablesOf (rows : list QueryRecord) : list TableInfo :=
  omap (λ record : QueryRecord,
          match record !! "table_name" with
          | Some (GoString name) =>
              Some {| tableName := name; isNodeTable := true;
                      tableSourceType := ""; tableTargetType := "" |}
          | _ => None
          end) rows.

Definition getAllTablesInfo (env : Env) (read : Reader) (ctx : Context)
    : Kuzu → list TableInfo * option error * Kuzu :=
  λ k, match Rows.Query env read ctx (QueryStmt "SHOW TABLES;" ∅) k with
       | (_, Some _, k') => getTablesInfoAlternative env k'
       | (None, None, k') => ([], None, k')
       | (Some result, None, k') => (tablesOf (records result), None, k')
       end.

(** The loop of [getTableProperties] over the rows of [table_info]. *)
Definition propertiesOf (rows : list QueryRecord) : list PropertyInfo :=
  omap (λ record : QueryRecord,
          match record !! "property_name" with
          | Some (GoString name) =>
              Some {| propName := name;
                      propType := match record !! "property_type" with
                                  | Some (GoString pType) => pType
                                  | _ => "UNKNOWN"
                                  end |}
          | _ => None
          end) rows.

Definition getTableProperties (env : Env) (read : Reader) (ctx : Context) (name : string)
    : Kuzu → list PropertyInfo * option error * Kuzu :=
  λ k, match Rows.Query env read ctx
               (QueryStmt ("CALL table_info('" +:+ name +:+ "') RETURN *;") ∅) k with
       | (_, Some err, k') =>
           ([], Some (Errorf "failed to get properties for table %s: %w" (Some err)), k')
       | (None, None, k') => ([], None, k')
       | (Some result, None, k') => (propertiesOf (records result), None, k')
       end.

Definition GetNodeTableProperties := getTableProperties.

(** The loop of [introspectSchema] over the tables found. *)
Fixpoint introspect_loop (env : Env) (read : Reader) (tables : list TableInfo)
    (nodeTables : gmap string (list PropertyInfo)) (relTables : gmap string RelationshipInfo)
    (k : Kuzu) : gmap string (list PropertyInfo) * gmap string RelationshipInfo * Kuzu :=
  match tables with
  | [] => (nodeTables, relTables, k)
  | table :: rest =>
      if isNodeTable table then
        match getTableProperties env read Background (tableName table) k with
        | (_, Some _, k') => introspect_loop env read rest nodeTables relTables k'
        | (props, None, k') =>
            introspect_loop env read rest (<[tableName table := props]> nodeTables) relTables k'
        end
      else
        introspect_loop env read rest nodeTables
          (<[tableName table :=
               {| relName := tableName table; relSource := tableSourceType table;
                  relTarget := tableTargetType table |}]> relTables) k
  end.

Definition introspectSchema (env : Env) (read : Reader) : Action Kuzu :=
  λ k, match getAllTablesInfo env read Background k with
       | (_, Some err, k') => (Some (Errorf "failed to get tables info: %w" (Some err)), k')
       | (tablesInfo, None, k') =>
           let '(nodeTables, relTables, k'') := introspect_loop env read tablesInfo ∅ ∅ k' in
           (None, updateStructuredSchema env nodeTables relTables k'')
       end.

Definition GetTableList (env : Env) (read : Reader) (ctx : Context)
    : Kuzu → list string * option error * Kuzu :=
  λ k, match getAllTablesInfo env read ctx k with
       | (_, Some err, k') => ([], Some err, k')
       | (tables, None, k') => (tableName <$> tables, None, k')
       end.

Definition TableExists (env : Env) (read : Reader) (ctx : Context) (name : string)
    : Kuzu → bool * option error * Kuzu :=
  λ k, match getAllTablesInfo env read ctx k with
       | (_, Some err, k') => (false, Some err, k')
       | (tables, None, k') => (existsb (λ table, String.eqb (tableName table) name) tables, None, k')
       end.

Definition CompareSchemas (env : Env) (read : Reader) (ctx : Context)
    : Kuzu → bool * option error * Kuzu :=
  λ k, let currentSchema := structuredSchema k in
       match introspectSchema env read k with
       | (Some err, k') => (false, Some err, k')
       | (None, k') =>
           if negb (size currentSchema =? size (structuredSchema k'))%nat then (false, None, k')
           else (true, None, set_structuredSchema currentSchema k')
       end.

Definition ValidateSchema (env : Env) (read : Reader) (ctx : Context) : Action Kuzu :=
  λ k, match getAllTablesInfo env read ctx k with
       | (_, Some err, k') => (Some (Errorf "failed to get table list: %w" (Some err)), k')
       | (tables, None, k') =>
           match tables with
           | [] => (Some (Errorf "no tables found in database" None), k')
           | _ =>
               for_each tables (λ table k,
                 match Rows.Query env read ctx
                         (QueryStmt ("MATCH (n:" +:+ sanitizeIdentifier (tableName table)
                                       +:+ ") RETURN count(n) LIMIT 1;") ∅) k with
                 | (_, Some err, k') =>
                     (Some (Errorf "failed to validate table %s: %w" (Some err)), k')
                 | (_, None, k') => (None, k')
                 end) k'
           end
       end.

(** A reader under which every result is empty and read without error,
    and a closed store that had created the table of one node type. *)
Definition quietReader : Reader :=
  λ _ _, {| answer_rows := []; answer_error := None; answer_number_of_rows := 0 |}.

Definition closedStore : Kuzu := Close (set_nodeTables <["Person" := true]> NewKuzu).

(** The text [QueryWithTypes] puts in place of a value. *)
Definition valueText (env : Env) (value : GoValue) : GoValue :=
  match value with
  | GoNil => GoNil
  | _ => GoString (Sprint_v env value)
  end.

(** ** graphstore.go: the options of an import *)

Definition WithIncludeSource (include : bool) (opts : Options) : Options :=
  {| IncludeSource := include; BatchSize := BatchSize opts; Timeout := Timeout opts |}.

Definition WithBatchSize (size : Z) (opts : Options) : Options :=
  {| IncludeSource := IncludeSource opts; BatchSize := size; Timeout := Timeout opts |}.

Definition WithTimeout (timeout : Z) (opts : Options) : Options :=
  {| IncludeSource := IncludeSource opts; BatchSize := BatchSize opts; Timeout := timeout |}.

(** ** options.go: the configuration of a store

    A [time.Duration] is a number of nanoseconds. *)
Module Config.

Record options := {
  databasePath : string;
  inMemory : bool;
  allowDangerousRequests : bool;
  timeout : Z;
  bufferPoolSize : Z;
  maxNumThreads : Z;
  enableLogging : bool;
  logLevel : string
}.

(** [&options{}] *)
Definition zero : options :=
  {| databasePath := ""; inMemory := false; allowDangerousRequests := false; timeout := 0;
     bufferPoolSize := 0; maxNumThreads := 0; enableLogging := false; logLevel := "" |}.

Definition Second : Z := 1000000000.

Definition applyDefaults (opts : options) : options :=
  {| databasePath :=
       if emptyString (databasePath opts) && negb (inMemory opts) then "./kuzu_db"
       else databasePath opts;
     inMemory := inMemory opts;
     allowDangerousRequests := allowDangerousRequests opts;
     timeout := if timeout opts =? 0 then 30 * Second else timeout opts;
     bufferPoolSize :=
       if bufferPoolSize opts =? 0 then 1024 * 1024 * 1024 else bufferPoolSize opts;
     maxNumThreads := if maxNumThreads opts =? 0 then 4 else maxNumThreads opts;
     enableLogging := enableLogging opts;
     logLevel := if emptyString (logLevel opts) then "info" else logLevel opts |}.

Definition WithDatabasePath (path : string) (opts : options) : options :=
  {| databasePath := path; inMemory := false;
     allowDangerousRequests := allowDangerousRequests opts; timeout := timeout opts;
     bufferPoolSize := bufferPoolSize opts; maxNumThreads := maxNumThreads opts;
     enableLogging := enableLogging opts; logLevel := logLevel opts |}.

Definition WithInMemory (inMemory' : bool) (opts : options) : options :=
  {| databasePath := if inMemory' then "" else databasePath opts; inMemory := inMemory';
     allowDangerousRequests := allowDangerousRequests opts; timeout := timeout opts;
     bufferPoolSize := bufferPoolSize opts; maxNumThreads := maxNumThreads opts;
     enableLogging := enableLogging opts; logLevel := logLevel opts |}.

Definition WithAllowDangerousRequests (allow : bool) (opts : options) : options :=
  {| databasePath := databasePath opts; inMemory := inMemory opts;
     allowDangerousRequests := allow; timeout := timeout opts;
     bufferPoolSize := bufferPoolSize opts; maxNumThreads := maxNumThreads opts;
     enableLogging := enableLogging opts; logLevel := logLevel opts |}.

Definition WithTimeout (timeout' : Z) (opts : options) : options :=
  {| databasePath := databasePath opts; inMemory := inMemory opts;
     allowDangerousRequests := allowDangerousRequests opts; timeout := timeout';
     bufferPoolSize := bufferPoolSize opts; maxNumThreads := maxNumThreads opts;
     enableLogging := enableLogging opts; logLevel := logLevel opts |}.

Definition WithBufferPoolSize (size : Z) (opts : options) : options :=
  {| databasePath := databasePath opts; inMemory := inMemory opts;
     allowDangerousRequests := allowDangerousRequests opts; timeout := timeout opts;
     bufferPoolSize := size; maxNumThreads := maxNumThreads opts;
     enableLogging := enableLogging opts; logLevel := logLevel opts |}.

Definition WithMaxNumThreads (threads : Z) (opts : options) : options :=
  {| databasePath := databasePath opts; inMemory := inMemory opts;
     allowDangerousRequests := allowDangerousRequests opts; timeout := timeout opts;
     bufferPoolSize := bufferPoolSize opts; maxNumThreads := threads;
     enableLogging := enableLogging opts; logLevel := logLevel opts |}.

Definition WithEnableLogging (enable : bool) (opts : options) : options :=
  {| databasePath := databasePath opts; inMemory := inMemory opts;
     allowDangerousRequests := allowDangerousRequests opts; timeout := timeout opts;
     bufferPoolSize := bufferPoolSize opts; maxNumThreads := maxNumThreads opts;
     enableLogging := enable; logLevel := logLevel opts |}.

Definition WithLogLevel (level : string) (opts : options) : options :=
  {| databasePath := databasePath opts; inMemory := inMemory opts;
     allowDangerousRequests := allowDangerousRequests opts; timeout := timeout opts;
     bufferPoolSize := bufferPoolSize opts; maxNumThreads := maxNumThreads opts;
     enableLogging := enableLogging opts; logLevel := level |}.

Definition ErrDangerousRequestsDisabled : error :=
  Errorf "dangerous requests are disabled - enable with WithAllowDangerousRequests(true)" None.

(** [NewKuzu(opts...)].  [connect] stands for [Kuzu.connect], which opens
    the database and the connection through the engine's library: its
    error, if any, for the configuration it is given.  A store that is
    returned is connected and its caches are empty. *)
Definition NewKuzu (connect : options → option error) (opts : list (options → options))
    : option Kuzu * option error :=
  let options := applyDefaults (applyOptions opts zero) in
  if negb (allowDangerousRequests options) then (None, Some ErrDangerousRequestsDisabled)
  else
    match connect options with
    | Some err => (None, Some (Errorf "failed to connect to kuzu: %w" (Some err)))
    | None => (Some NewKuzu, None)
    end.

(** The options the package offers, by name. *)
Inductive Setting : Type :=
  | SetDatabasePath (path : string)
  | SetInMemory (inMemory : bool)
  | SetAllowDangerousRequests (allow : bool)
  | SetTimeout (timeout : Z)
  | SetBufferPoolSize (size : Z)
  | SetMaxNumThreads (threads : Z)
  | SetEnableLogging (enable : bool)
  | SetLogLevel (level : string).

Definition option_of (setting : Setting) : options → options :=
  match setting with
  | SetDatabasePath path => WithDatabasePath path
  | SetInMemory inMemory => WithInMemory inMemory
  | SetAllowDangerousRequests allow => WithAllowDangerousRequests allow
  | SetTimeout timeout => WithTimeout timeout
  | SetBufferPoolSize size => WithBufferPoolSize size
  | SetMaxNumThreads threads => WithMaxNumThreads threads
  | SetEnableLogging enable => WithEnableLogging enable
  | SetLogLevel level => WithLogLevel level
  end.

(** The configuration [NewKuzu] works with when it is given [settings]. *)
Definition configured (settings : list Setting) : options :=
  applyDefaults (applyOptions (option_of <$> settings) zero).

End Config.

(** ** schema.go, kuzu.go: the description of the schema

    [buildSchemaDescription] reads the snapshot through type assertions.
    The snapshot is written by [updateStructuredSchema] alone, so an
    assertion holds exactly when the value has the shape that function
    gives it; the model reads the assertions off that shape. *)

(** The newline. *)
Definition nl : string := String "010" EmptyString.

(** [m[key]] of a [map[string]string]: an absent key reads as the empty
    string. *)
Definition stringField (m : gmap string GoValue) (key : string) : string :=
  match m !! key with
  | Some (GoString s) => s
  | _ => ""
  end.

(** [fmt.Sprintf("    - %s: %s\n", prop["name"], prop["type"])] for each
    property. *)
Definition describeProperties (props : list GoValue) : string :=
  foldr (λ prop rest,
           match prop with
           | GoMap p =>
               "    - " +:+ stringField p "name" +:+ ": " +:+ stringField p "type" +:+ nl
                 +:+ rest
           | _ => rest
           end) "" props.

Definition describeNodeTypes (nodeTypes : list GoValue) : string :=
  foldr (λ nodeType rest,
           match nodeType with
           | GoMap m =>
               match m !! "label" with
               | Some (GoString label) =>
                   "  " +:+ label +:+ ":" +:+ nl
                     +:+ match m !! "properties" with
                         | Some (GoArray props) => describeProperties props
                         | _ => ""
                         end
                     +:+ rest
               | _ => rest
               end
           | _ => rest
           end) "" nodeTypes.

(** The source and target of a relationship type, [Unknown] when the
    entry is no string. *)
Definition typeOrUnknown (m : gmap string GoValue) (key : string) : string :=
  match m !! key with
  | Some (GoString s) => s
  | _ => "Unknown"
  end.

(** The two relationship sections; [line name sourceType targetType] is
    the line of a relationship type. *)
Definition describeRelationshipTypes (line : string → string → string → string)
    (relTypes : list GoValue) : string :=
  foldr (λ relType rest,
           match relType with
           | GoMap m =>
               match m !! "name" with
               | Some (GoString name) =>
                   line name (typeOrUnknown m "source_type") (typeOrUnknown m "target_type")
                     +:+ rest
               | _ => rest
               end
           | _ => rest
           end) "" relTypes.

Definition buildSchemaDescription (schema : gmap string GoValue) : string :=
  let relTypes :=
    match schema !! "relationship_types" with
    | Some (GoArray relTypes) => relTypes
    | _ => []
    end in
  "Node properties:" +:+ nl
    +:+ match schema !! "node_types" with
        | Some (GoArray nodeTypes) => describeNodeTypes nodeTypes
        | _ => ""
        end
    +:+ nl +:+ "Relationship properties:" +:+ nl
    +:+ describeRelationshipTypes
          (λ name sourceType targetType,
             "  " +:+ name +:+ ": " +:+ sourceType +:+ " -> " +:+ targetType +:+ nl) relTypes
    +:+ nl +:+ "Relationships:" +:+ nl
    +:+ describeRelationshipTypes
          (λ name sourceType targetType,
             "  (:" +:+ sourceType +:+ ")-[:" +:+ name +:+ "]->(:" +:+ targetType +:+ ")" +:+ nl)
          relTypes.

(** [Kuzu.RefreshSchema] and [Kuzu.GetSchema]; the store goes together
    with its field [schemaCache]. *)
Definition RefreshSchema (env : Env) (read : Reader) (ctx : Context)
    : Action (Kuzu * string) :=
  λ '(k, schemaCache),
    if negb (connected k) then (Some ErrConnectionNotInitialized, (k, schemaCache))
    else
      match introspectSchema env read k with
      | (Some err, k') =>
          (Some (Errorf "failed to introspect schema: %w" (Some err)), (k', schemaCache))
      | (None, k') => (None, (k', buildSchemaDescription (structuredSchema k')))
      end.

Definition GetSchema (s : Kuzu * string) : string := s.2.

(** ** Vocabulary of the further properties *)

(** An action that sends [stmt] to the engine or nothing at all, and
    that has sent it whenever it returns without error; [store] reads the
    store off the state the action works on. *)
Definition SendsOne {S} (store : S → Kuzu) (a : Action S) (stmt : Stmt) : Prop :=
  ∀ s, ∃ new,
    sent (store (a s).2) = sent (store s) ++ new ∧
    (new = [] ∨ new = [stmt]) ∧
    ((a s).1 = None → new = [stmt]).

(** An action that sends a prefix of [stmts], and all of them whenever it
    returns without error. *)
Definition SendsPrefix {S} (store : S → Kuzu) (a : Action S) (stmts : list Stmt) : Prop :=
  ∀ s, ∃ n,
    sent (store (a s).2) = sent (store s) ++ take n stmts ∧
    ((a s).1 = None → take n stmts = stmts).

(** An action that leaves every entry of the table cache [tables] set,
    and one that has set the entry [key] whenever it returns without
    error. *)
Definition Keeps (tables : Kuzu → gmap string bool) (a : Action Kuzu) : Prop :=
  ∀ k key, cached (tables k) key = true → cached (tables (a k).2) key = true.

Definition Ensures (tables : Kuzu → gmap string bool) (a : Action Kuzu) (key : string)
    : Prop :=
  ∀ k, (a k).1 = None → cached (tables (a k).2) key = true.

(** The statement by which the individual path writes a node or a
    relationship, whatever its property arrays. *)
Definition writesNode (node : Node) (stmt : Stmt) : Prop :=
  ∃ keys vals, stmt = MergeNodeStmt (Type_ node) (ID node) (Type_ node) keys vals.

Definition writesRelationship (rel : Relationship) (stmt : Stmt) : Prop :=
  ∃ keys vals,
    stmt = MergeRelStmt (Type_ (Source rel)) (Type_ (Target rel)) (RelType rel)
             (ID (Source rel)) (ID (Target rel)) keys vals.

(** An action that sends nothing or one statement that satisfies [P], and
    that has sent one whenever it returns without error. *)
Definition SendsOneOf {S} (store : S → Kuzu) (a : Action S) (P : Stmt → Prop) : Prop :=
  ∀ s, ∃ new,
    sent (store (a s).2) = sent (store s) ++ new ∧
    (new = [] ∨ ∃ stmt, new = [stmt] ∧ P stmt) ∧
    ((a s).1 = None → new ≠ []).

(** An action whose statements satisfy the first predicates of [Ps], one
    each and in order, and all of them whenever it returns without
    error. *)
Definition SendsInOrder {S} (store : S → Kuzu) (a : Action S) (Ps : list (Stmt → Prop))
    : Prop :=
  ∀ s, ∃ new,
    sent (store (a s).2) = sent (store s) ++ new ∧
    Forall2 (λ (P : Stmt → Prop) stmt, P stmt) (take (length new) Ps) new ∧
    ((a s).1 = None → length new = length Ps).

(** Ten copies of a valid document. *)
Definition tenDocuments : list GraphDocument := replicate 10 aliceDoc.

(** The nodes a batched statement carries, each with the label it is
    merged under, and the relationships, each with the key of the pattern
    it is merged under. *)
Definition batchedNodes (stmt : Stmt) : list (string * NodeData) :=
  match stmt with
  | MergeNodesStmt label _ nodes => (λ node, (label, node)) <$> nodes
  | _ => []
  end.

Definition batchedRelationships (stmt : Stmt) : list (string * RelData) :=
  match stmt with
  | MergeRelsStmt source target rel _ relationships =>
      (λ r, (patternKey source rel target, r)) <$> relationships
  | _ => []
  end.

(** An action that, when it returns without error, has sent statements
    from which [observe] reads the items [items], in some order. *)
Definition Yields {B} (observe : Stmt → list B) (a : Action Kuzu) (items : list B) : Prop :=
  ∀ k, (a k).1 = None →
       ∃ new, sent (a k).2 = sent k ++ new ∧ new ≫= observe ≡ₚ items.

(** Whether a statement creates a table. *)
Definition isTableCreation (stmt : Stmt) : bool :=
  match stmt with
  | CreateNodeTableStmt _ | CreateChunkTableStmt | CreateRelTableStmt _ _ _
  | CreateMentionsTableStmt => true
  | _ => false
  end.

(** The statements of [stmts] that create no table. *)
Definition writesOf (stmts : list Stmt) : list Stmt :=
  filter (λ stmt, isTableCreation stmt = false) stmts.

(** An action on a connected store that sends table creations only and
    leaves the store connected. *)
Definition SendsTables (a : Action Kuzu) : Prop :=
  ∀ k, ∃ new,
    sent (a k).2 = sent k ++ new ∧ writesOf new = [] ∧ connected (a k).2 = connected k.

(** An action on a handle and its connected store under which the handle
    logs exactly the statements sent that create no table, and under which
    a handle that is not active stays as it is. *)
Definition Logs (a : Action (Transaction * Kuzu)) : Prop :=
  ∀ tx k, connected k = true →
    ∃ new,
      sent (a (tx, k)).2.2 = sent k ++ new ∧
      operations (a (tx, k)).2.1 = operations tx ++ writesOf new ∧
      connected (a (tx, k)).2.2 = true ∧
      (Tx.IsActive tx = false → (a (tx, k)).2.1 = tx).

(** The statement by which the individual path writes [rel]: its property
    keys are all the keys of the relationship, each with the text of its
    value. *)
Definition writesAllProperties (rel : Relationship) (text : GoValue → string) (stmt : Stmt)
    : Prop :=
  ∃ keys vals,
    stmt = MergeRelStmt (Type_ (Source rel)) (Type_ (Target rel)) (RelType rel)
             (ID (Source rel)) (ID (Target rel)) keys vals ∧
    length keys = length vals ∧
    zip keys vals ≡ₚ (λ kv, (kv.1, text kv.2)) <$> map_to_list (RelProperties rel).

(** * Properties *)

(** ** Lists *)

Lemma filter_all {A} (P : A → Prop) `{∀ x, Decision (P x)} (l : list A) :
  (∀ x, x ∈ l → P x) → filter P l = l.
Proof.
  induction l as [|x l IH]; intros HP; [done|].
  rewrite filter_cons_True by (apply HP; left). f_equal. apply IH.
  intros y Hy. apply HP. by right.
Qed.

Lemma filter_none {A} (P : A → Prop) `{∀ x, Decision (P x)} (l : list A) :
  (∀ x, x ∈ l → ¬ P x) → filter P l = [].
Proof.
  induction l as [|x l IH]; intros HP; [done|].
  rewrite filter_cons_False by (apply HP; left). apply IH.
  intros y Hy. apply HP. by right.
Qed.

Lemma omap_lookup_keys {V} (m : gmap string V) (l : list (string * V)) :
  (∀ key v, (key, v) ∈ l → m !! key = Some v) →
  omap (λ key, (λ v, (key, v)) <$> m !! key) l.*1 = l.
Proof.
  induction l as [|[key v] l IH]; intros Hl; simpl; [done|].
  rewrite (Hl key v) by left. simpl. f_equal. apply IH.
  intros key' v' Hin. apply Hl. by right.
Qed.

(** An iteration visits every entry of the map once. *)
Lemma range_entries_Permutation {V} (env : Env) (n : nat) (m : gmap string V) :
  range_entries env n m ≡ₚ map_to_list m.
Proof.
  unfold range_entries. rewrite range_order_perm.
  rewrite omap_lookup_keys; [done|].
  intros key v. apply elem_of_map_to_list.
Qed.

(** ** Deduplication *)

Section seen_loop.
Context {A : Type} (keyOf : A → string).

Lemma seen_loop_app seen result xs :
  seen_loop keyOf seen result xs = result ++ seen_loop keyOf seen [] xs.
Proof.
  revert seen result. induction xs as [|x rest IH]; intros seen result; simpl.
  - by rewrite app_nil_r.
  - destruct (negb _).
    + rewrite IH, (IH _ [x]). by rewrite app_assoc.
    + apply IH.
Qed.

(** The loop keeps the first occurrences whose key was not seen before. *)
Lemma seen_loop_firstOccurrences seen xs :
  seen_loop keyOf seen [] xs
  = filter (λ y, default false (seen !! keyOf y) = false) (firstOccurrences keyOf xs).
Proof.
  revert seen. induction xs as [|x rest IH]; intros seen; simpl; [done|].
  destruct (default false (seen !! keyOf x)) eqn:Hx; simpl.
  - rewrite IH, filter_cons_False by (rewrite Hx; done).
    rewrite list_filter_filter. apply list_filter_iff. intros y. split; [|tauto].
    intros Hy. split; [done|]. intros Heq. rewrite Heq, Hx in Hy. done.
  - rewrite seen_loop_app, IH, filter_cons_True by done. simpl. f_equal.
    rewrite list_filter_filter. apply list_filter_iff. intros y.
    destruct (decide (keyOf x = keyOf y)) as [Heq|Hne].
    + rewrite Heq, lookup_insert_eq. simpl. split; [done|]. intros [_ ?]. congruence.
    + rewrite lookup_insert_ne by done. split; [|tauto]. intros ?. split; [done|congruence].
Qed.

Lemma seen_loop_empty xs : seen_loop keyOf ∅ [] xs = firstOccurrences keyOf xs.
Proof.
  rewrite seen_loop_firstOccurrences. apply filter_all. intros y _. by rewrite lookup_empty.
Qed.

Lemma firstOccurrences_sublist xs : sublist (firstOccurrences keyOf xs) xs.
Proof.
  induction xs as [|x rest IH]; simpl; [done|].
  apply sublist_skip. etrans; [apply sublist_filter|done].
Qed.

Lemma firstOccurrences_NoDup xs : NoDup (keyOf <$> firstOccurrences keyOf xs).
Proof.
  induction xs as [|x rest IH]; simpl; [constructor|].
  apply NoDup_cons. split.
  - intros (y & Hy & Hin)%list_elem_of_fmap. apply list_elem_of_filter in Hin as [Hne _].
    congruence.
  - eapply sublist_NoDup; [exact IH|]. apply fmap_sublist, sublist_filter.
Qed.

Lemma firstWith_filter_ne key key' xs :
  key ≠ key' →
  firstWith keyOf key (filter (λ y, keyOf y ≠ key') xs) = firstWith keyOf key xs.
Proof.
  intros Hne. induction xs as [|x rest IH]; simpl; [done|].
  destruct (decide (keyOf x ≠ key')) as [Hx|Hx].
  - rewrite filter_cons_True by done. simpl. by rewrite IH.
  - rewrite filter_cons_False by done. rewrite IH.
    destruct (decide (keyOf x = key)) as [Heq|]; [|done].
    destruct Hx. congruence.
Qed.

Lemma firstWith_firstOccurrences key xs :
  firstWith keyOf key (firstOccurrences keyOf xs) = firstWith keyOf key xs.
Proof.
  induction xs as [|x rest IH]; simpl; [done|].
  destruct (decide (keyOf x = key)) as [Heq|Hne]; [done|].
  rewrite firstWith_filter_ne by done. exact IH.
Qed.

Lemma firstOccurrences_id xs : NoDup (keyOf <$> xs) → firstOccurrences keyOf xs = xs.
Proof.
  induction xs as [|x rest IH]; simpl; [done|].
  intros [Hx Hrest]%NoDup_cons. rewrite IH by done. f_equal.
  apply filter_all. intros y Hy Heq. apply Hx. rewrite <- Heq.
  apply list_elem_of_fmap. eauto.
Qed.

Lemma firstOccurrences_idemp xs :
  firstOccurrences keyOf (firstOccurrences keyOf xs) = firstOccurrences keyOf xs.
Proof. apply firstOccurrences_id, firstOccurrences_NoDup. Qed.


(** The loop appends an element exactly when no earlier element has its
    key. *)
Lemma firstOccurrences_snoc xs x :
  firstOccurrences keyOf (xs ++ [x])
  = firstOccurrences keyOf xs ++ (if decide (keyOf x ∈ keyOf <$> xs) then [] else [x]).
Proof.
  induction xs as [|a xs IH].
  - cbn [app firstOccurrences]. rewrite filter_nil.
    destruct (decide (keyOf x ∈ keyOf <$> [])) as [H|_]; [|done].
    by apply elem_of_nil in H.
  - cbn [app firstOccurrences]. rewrite IH, filter_app, app_comm_cons. f_equal.
    rewrite fmap_cons.
    destruct (decide (keyOf x ∈ keyOf <$> xs)) as [Hin|Hin].
    + rewrite filter_nil. destruct (decide (keyOf x ∈ keyOf a :: (keyOf <$> xs))) as [_|H];
        [done|]. destruct H. by right.
    + destruct (decide (keyOf x = keyOf a)) as [Heq|Hne].
      * rewrite filter_cons_False by (by intros ?). rewrite filter_nil.
        destruct (decide (keyOf x ∈ keyOf a :: (keyOf <$> xs))) as [_|H]; [done|].
        destruct H. rewrite Heq. left.
      * rewrite filter_cons_True by done. rewrite filter_nil.
        destruct (decide (keyOf x ∈ keyOf a :: (keyOf <$> xs))) as [[?|?]%elem_of_cons|_];
          done.
Qed.

End seen_loop.

(** C9.  [DeduplicateNodes] keeps, for every id, exactly the first node
    that carries it, in the order of the input: the result is the list of
    the nodes that no earlier node shares the id with; going through the
    input, a node is appended exactly when its id has not occurred
    before.  So the result is a sublist of the input, no id occurs twice
    in it, and the first node of any id is the same in the result as in
    the input.  Applying it twice equals applying it once. *)
Theorem DeduplicateNodes_first_occurrence (nodes : list Node) :
  DeduplicateNodes nodes = firstOccurrences ID nodes ∧
  (∀ node, DeduplicateNodes (nodes ++ [node])
           = DeduplicateNodes nodes
             ++ (if decide (ID node ∈ ID <$> nodes) then [] else [node])) ∧
  sublist (DeduplicateNodes nodes) nodes ∧
  NoDup (ID <$> DeduplicateNodes nodes) ∧
  (∀ id, firstWith ID id (DeduplicateNodes nodes) = firstWith ID id nodes) ∧
  DeduplicateNodes (DeduplicateNodes nodes) = DeduplicateNodes nodes.
Proof.
  unfold DeduplicateNodes. rewrite !seen_loop_empty. split_and!.
  - done.
  - intros node. rewrite seen_loop_empty. apply firstOccurrences_snoc.
  - apply firstOccurrences_sublist.
  - apply firstOccurrences_NoDup.
  - intros id. apply firstWith_firstOccurrences.
  - apply firstOccurrences_idemp.
Qed.

Example DeduplicateNodes_test :
  length (DeduplicateNodes [NewNode "1" "Person"; NewNode "1" "Person"; NewNode "2" "Person"])
  = 2%nat.
Proof. reflexivity. Qed.

(** A node that repeats an earlier one is dropped where it stands again:
    the survivors stand in the order in which their ids were first
    seen. *)
Example DeduplicateNodes_first_seen_order :
  DeduplicateNodes [alice; bob; alice] = [alice; bob].
Proof. reflexivity. Qed.






(** Three relationships without underscores: the repeated one survives
    once, as the first of its tuple. *)
Example DeduplicateRelationships_first_of_each_tuple :
  filter (λ rel, relTuple rel = relTuple aliceKnowsBob)
    (DeduplicateRelationships [aliceKnowsBob; robotKnowsBob; aliceKnowsBob])
  = [aliceKnowsBob].
Proof. reflexivity. Qed.

Example DeduplicateRelationships_test :
  length (DeduplicateRelationships
            [NewRelationship alice bob "KNOWS"; NewRelationship alice bob "KNOWS";
             NewRelationship bob alice "KNOWS"]) = 2%nat.
Proof. reflexivity. Qed.

(** Two relationships with different tuples and one key text: the
    second is dropped as a duplicate of the first, and no relationship
    with its tuple survives. *)
Example DeduplicateRelationships_colliding_keys :
  relTuple collidingX ≠ relTuple collidingY ∧
  dedupKey collidingX = dedupKey collidingY ∧
  DeduplicateRelationships [collidingX; collidingY; collidingY] = [collidingX].
Proof. split_and!; [discriminate|reflexivity|reflexivity]. Qed.

(** ** The transaction state machine *)

Lemma Commit_not_Active (env : Env) (tx : Transaction) (k : Kuzu) :
  state tx ≠ TransactionActive →
  Tx.Commit env (tx, k) = (Some (Errorf "transaction is not active: %s" None), (tx, k)).
Proof. intros H. unfold Tx.Commit, Tx.IsActive, Tx.GetState. by destruct (state tx). Qed.

Lemma Commit_Active (env : Env) (tx : Transaction) (k : Kuzu) :
  state tx = TransactionActive →
  Tx.Commit env (tx, k)
  = (None, (Tx.cancelFunc (Tx.setState TransactionCommitted tx),
            (Query env (Tx.ctx tx) CommitStmt k).2)).
Proof. intros H. unfold Tx.Commit, Tx.IsActive, Tx.GetState. by rewrite H. Qed.

Lemma Rollback_terminal (env : Env) (tx : Transaction) (k : Kuzu) :
  state tx ≠ TransactionActive → state tx ≠ TransactionFailed →
  Tx.Rollback env (tx, k)
  = (Some (Errorf "transaction cannot be rolled back: %s" None), (tx, k)).
Proof. intros H1 H2. unfold Tx.Rollback, Tx.GetState. by destruct (state tx). Qed.

Lemma Rollback_open (env : Env) (tx : Transaction) (k : Kuzu) :
  state tx = TransactionActive ∨ state tx = TransactionFailed →
  Tx.Rollback env (tx, k)
  = (None, (Tx.cancelFunc (Tx.setState TransactionRolledBack tx),
            (Query env (Tx.ctx tx) RollbackStmt k).2)).
Proof. intros [H|H]; unfold Tx.Rollback, Tx.GetState; by rewrite H. Qed.

(** C5.  On a handle that is Committed or RolledBack both [Commit] and
    [Rollback] return an error and change nothing; on a Failed handle
    [Commit] returns an error and changes nothing; and after a [Commit]
    that succeeded (the handle went from Active to Committed) a second
    [Commit] returns an error and changes nothing. *)
Theorem Commit_Rollback_rejected_when_closed (env : Env) :
  (∀ tx k, state tx = TransactionCommitted ∨ state tx = TransactionRolledBack →
     (∃ e, Tx.Commit env (tx, k) = (Some e, (tx, k))) ∧
     (∃ e, Tx.Rollback env (tx, k) = (Some e, (tx, k)))) ∧
  (∀ tx k, state tx = TransactionFailed →
     ∃ e, Tx.Commit env (tx, k) = (Some e, (tx, k))) ∧
  (∀ tx k, state tx = TransactionActive →
     ∃ tx' k', Tx.Commit env (tx, k) = (None, (tx', k')) ∧
               state tx' = TransactionCommitted ∧
               ∃ e, Tx.Commit env (tx', k') = (Some e, (tx', k'))).
Proof.
  split_and!.
  - intros tx k H. split; eexists.
    + apply Commit_not_Active. destruct H as [-> | ->]; done.
    + apply Rollback_terminal; destruct H as [-> | ->]; done.
  - intros tx k H. eexists. apply Commit_not_Active. by rewrite H.
  - intros tx k H. do 2 eexists. split; [by apply Commit_Active|]. split; [done|].
    eexists. by apply Commit_not_Active.
Qed.

Lemma Commit_Rollback_rejected_when_closed_witness :
  (∃ e, Tx.Rollback calmEnv (Tx.setState TransactionCommitted activeTx, NewKuzu)
        = (Some e, (Tx.setState TransactionCommitted activeTx, NewKuzu))) ∧
  (∃ e, Tx.Commit calmEnv (Tx.setState TransactionFailed activeTx, NewKuzu)
        = (Some e, (Tx.setState TransactionFailed activeTx, NewKuzu))) ∧
  (∃ tx' k', Tx.Commit calmEnv (activeTx, NewKuzu) = (None, (tx', k')) ∧
             state tx' = TransactionCommitted ∧
             ∃ e, Tx.Commit calmEnv (tx', k') = (Some e, (tx', k'))).
Proof.
  destruct (Commit_Rollback_rejected_when_closed calmEnv) as (Hclosed & Hfailed & Hagain).
  split_and!.
  - apply Hclosed. left. reflexivity.
  - apply Hfailed. reflexivity.
  - apply Hagain. reflexivity.
Defined.

Lemma BeginTransaction_Active (env : Env) (ctx : Context) opts (k : Kuzu) tx err k' :
  BeginTransaction env ctx opts k = (Some tx, err, k') →
  state tx = TransactionActive ∧ err = None.
Proof.
  unfold BeginTransaction. destruct (negb (IsConnected k)); [done|].
  intros [= <- <- <-]. done.
Qed.

Lemma RunInTransaction_failing_fn (env : Env) (ctx : Context)
    (fn : Action (Transaction * Kuzu)) opts (k : Kuzu) tx0 k0 err tx1 k1 :
  BeginTransaction env ctx opts k = (Some tx0, None, k0) →
  fn (tx0, k0) = (Some err, (tx1, k1)) →
  state tx1 = TransactionActive ∨ state tx1 = TransactionFailed →
  RunInTransaction env ctx fn opts k
  = (Some err, Some (Tx.cancelFunc (Tx.setState TransactionRolledBack tx1)),
     (Query env (Tx.ctx tx1) RollbackStmt k1).2).
Proof.
  intros Hbegin Hfn Hstate. unfold RunInTransaction. rewrite Hbegin, Hfn.
  by rewrite Rollback_open by done.
Qed.

(** C4.  When the inner function returns an error and leaves the handle
    Active or Failed, [RunInTransaction] returns that very error (the
    rollback cannot fail then) and leaves the handle RolledBack. *)
Theorem RunInTransaction_failing_fn_rolls_back (env : Env) (ctx : Context)
    (fn : Action (Transaction * Kuzu)) opts (k : Kuzu) tx0 k0 err tx1 k1 :
  BeginTransaction env ctx opts k = (Some tx0, None, k0) →
  fn (tx0, k0) = (Some err, (tx1, k1)) →
  state tx1 = TransactionActive ∨ state tx1 = TransactionFailed →
  ∃ tx' k', RunInTransaction env ctx fn opts k = (Some err, Some tx', k') ∧
            state tx' = TransactionRolledBack.
Proof.
  intros Hbegin Hfn Hstate.
  rewrite (RunInTransaction_failing_fn _ _ _ _ _ _ _ _ _ _ Hbegin Hfn Hstate). eauto.
Qed.

Lemma RunInTransaction_failing_fn_rolls_back_witness :
  ∃ tx' k',
    RunInTransaction calmEnv Background
      (addGraphDocumentsInTransaction calmEnv [namelessDoc] NewOptions) [] NewKuzu
    = (Some (Errorf "failed to process document batch %d-%d: %w"
               (Some (Errorf "document %d validation failed: %w"
                        (Some (Errorf "node at index %d has empty ID" None))))),
       Some tx', k') ∧
    state tx' = TransactionRolledBack.
Proof.
  eapply RunInTransaction_failing_fn_rolls_back.
  - reflexivity.
  - reflexivity.
  - left. reflexivity.
Defined.

(** When the inner function fails after closing the handle itself, the
    rollback is refused and its error is combined with the function's. *)
Lemma RunInTransaction_failing_fn_closed_handle (env : Env) (ctx : Context)
    (fn : Action (Transaction * Kuzu)) opts (k : Kuzu) tx0 k0 err tx1 k1 :
  BeginTransaction env ctx opts k = (Some tx0, None, k0) →
  fn (tx0, k0) = (Some err, (tx1, k1)) →
  state tx1 = TransactionCommitted ∨ state tx1 = TransactionRolledBack →
  RunInTransaction env ctx fn opts k
  = (Some (Errorf "function failed: %w, rollback failed: %v" (Some err)), Some tx1, k1).
Proof.
  intros Hbegin Hfn Hstate. unfold RunInTransaction. rewrite Hbegin, Hfn.
  rewrite Rollback_terminal by (destruct Hstate as [-> | ->]; done).
  unfold Tx.Close, Tx.GetState. by destruct Hstate as [-> | ->].
Qed.

(** ** The schema fingerprint *)

(** C6 fails on the code.  The store holds the snapshot written by
    [updateStructuredSchema]; two calls of [GetSchemaVersion] in a row
    read the same snapshot and return different fingerprints, because the
    loop visits the three keys in a different order each time. *)
Theorem GetSchemaVersion_depends_on_iteration_order :
  let k0 := updateStructuredSchema rotatingEnv ∅ ∅ NewKuzu in
  let first := GetSchemaVersion rotatingEnv k0 in
  let second := GetSchemaVersion rotatingEnv first.2 in
  structuredSchema first.2 = structuredSchema k0 ∧
  first.1 = "v11860" ∧ second.1 = "v10180".
Proof. vm_compute. done. Qed.

(** The fingerprint is a function of the order of the visit alone: the
    values of the snapshot written by [updateStructuredSchema] are no
    strings, so only the lengths of the keys enter the hash. *)
Lemma schemaVersion_of_snapshot (env : Env) (nodeTypes relTypes : list GoValue) (total : Z) :
  schemaVersion_of env [("node_types", GoArray nodeTypes);
                        ("relationship_types", GoArray relTypes);
                        ("total_tables", GoInt total)] = "v10180" ∧
  schemaVersion_of env [("total_tables", GoInt total);
                        ("node_types", GoArray nodeTypes);
                        ("relationship_types", GoArray relTypes)] = "v11860".
Proof. split; reflexivity. Qed.

(** ** Table creation *)

Lemma app_eq_middle {A} (x : A) (l1 l2 pre post : list A) :
  l1 ++ l2 = pre ++ x :: post →
  (∃ post', l1 = pre ++ x :: post' ∧ post = post' ++ l2) ∨
  (∃ pre', pre = l1 ++ pre' ∧ l2 = pre' ++ x :: post).
Proof.
  revert pre. induction l1 as [|a l1 IH]; intros pre H; simpl in *.
  - right. by exists pre.
  - destruct pre as [|b pre]; simpl in H; injection H as -> H.
    + left. by exists l1.
    + destruct (IH _ H) as [(post' & -> & ->)|(pre' & -> & ->)].
      * left. by exists post'.
      * right. by exists pre'.
Qed.

Section table_steps.
Context (env : Env) (T : string).

Lemma tableSteps_same (k k' : Kuzu) :
  sent k' = sent k → nodeTables k' = nodeTables k → tableSteps env T k k'.
Proof.
  intros Hsent Htables. apply rtc_once, (tableStep_other env T k k' []).
  - by rewrite app_nil_r.
  - apply not_elem_of_nil.
  - by rewrite Htables.
Qed.

Lemma Steps_ok {S} (store : S → Kuzu) : Steps env T store ok.
Proof. intros s. apply rtc_refl. Qed.

Lemma Steps_fail {S} (store : S → Kuzu) e : Steps env T store (fail e).
Proof. intros s. apply rtc_refl. Qed.

Lemma Steps_lift {S} (store : S → Kuzu) r : Steps env T store (lift r).
Proof. intros s. apply rtc_refl. Qed.

Lemma Steps_and_then {S} (store : S → Kuzu) (a b : Action S) :
  Steps env T store a → Steps env T store b → Steps env T store (a ;> b).
Proof.
  intros Ha Hb s. unfold and_then. specialize (Ha s).
  destruct (a s) as [[e|] s']; simpl in *; [done|].
  etrans; [exact Ha|apply Hb].
Qed.

Lemma Steps_wrapped {S} (store : S → Kuzu) format (a : Action S) :
  Steps env T store a → Steps env T store (wrapped format a).
Proof.
  intros Ha s. unfold wrapped. specialize (Ha s). by destruct (a s) as [[e|] s'].
Qed.

Lemma Steps_failing_with {S} (store : S → Kuzu) e (a : Action S) :
  Steps env T store a → Steps env T store (failing_with e a).
Proof.
  intros Ha s. unfold failing_with. specialize (Ha s). by destruct (a s) as [[e'|] s'].
Qed.

Lemma Steps_for_each {S A} (store : S → Kuzu) (xs : list A) (body : A → Action S) :
  (∀ x, Steps env T store (body x)) → Steps env T store (for_each xs body).
Proof.
  intros Hbody. induction xs as [|x xs IH]; simpl.
  - apply Steps_ok.
  - by apply Steps_and_then.
Qed.

Lemma Steps_if {S} (store : S → Kuzu) (b : bool) (a1 a2 : Action S) :
  Steps env T store a1 → Steps env T store a2 →
  Steps env T store (if b then a1 else a2).
Proof. by destruct b. Qed.

Lemma Steps_for_range {V} (m : gmap string V) (body : string → V → Action Kuzu) :
  (∀ key v, Steps env T id (body key v)) → Steps env T id (for_range env m body).
Proof.
  intros Hbody k. unfold for_range. etrans.
  - by apply (tableSteps_same k (set_ranges (S (ranges k)) k)).
  - apply (Steps_for_each id). intros kv. apply Hbody.
Qed.

Lemma Steps_for_range_tx {V} (m : gmap string V)
    (body : string → V → Action (Transaction * Kuzu)) :
  (∀ key v, Steps env T snd (body key v)) → Steps env T snd (for_range_tx env m body).
Proof.
  intros Hbody [tx k]. unfold for_range_tx. etrans.
  - by apply (tableSteps_same k (set_ranges (S (ranges k)) k)).
  - apply (Steps_for_each snd _ _ (λ kv, Hbody kv.1 kv.2) (tx, set_ranges (S (ranges k)) k)).
Qed.

Lemma Steps_onStore (a : Action Kuzu) :
  Steps env T id a → Steps env T snd (onStore a).
Proof.
  intros Ha [tx k]. unfold onStore. specialize (Ha k). by destruct (a k).
Qed.

Lemma Steps_execute (stmt : Stmt) :
  stmt ≠ CreateNodeTableStmt T → Steps env T id (execute env stmt).
Proof.
  intros Hne k. apply rtc_once, (tableStep_other env T _ _ [stmt]); simpl; [done| |done].
  intros H%list_elem_of_singleton. by apply Hne.
Qed.

Lemma Steps_Query (ctx : Context) (stmt : Stmt) :
  stmt ≠ CreateNodeTableStmt T → Steps env T id (Query env ctx stmt).
Proof.
  intros Hne k. unfold Query.
  destruct (negb (IsConnected k)); [apply rtc_refl|].
  destruct (ctx_done ctx); [apply rtc_refl|].
  by apply Steps_failing_with, Steps_execute.
Qed.
End table_steps.

Create HintDb steps.

Section pipeline_steps.
Context (env : Env) (T : string).

Lemma cached_insert_true (tables : gmap string bool) (key : string) :
  cached tables T = true → cached (<[key := true]> tables) T = true.
Proof.
  unfold cached. destruct (decide (key = T)) as [->|Hne].
  - by rewrite lookup_insert_eq.
  - by rewrite lookup_insert_ne.
Qed.

Lemma Steps_createNodeTable (nodeType : string) :
  Steps env T id (createNodeTable env nodeType).
Proof.
  intros k. unfold id, createNodeTable.
  destruct (cached (nodeTables k) nodeType) eqn:Hcached; [apply rtc_refl|].
  unfold and_then, wrapped, execute.
  destruct (decide (nodeType = T)) as [->|Hne].
  - apply rtc_once, tableStep_create; [done| |].
    + by destruct (engine_accepts env (sent k) (CreateNodeTableStmt T)).
    + destruct (engine_accepts env (sent k) (CreateNodeTableStmt T)); simpl; [|done].
      unfold cached. by rewrite lookup_insert_eq.
  - apply rtc_once, (tableStep_other env T _ _ [CreateNodeTableStmt nodeType]).
    + by destruct (engine_accepts env (sent k) (CreateNodeTableStmt nodeType)).
    + intros H%list_elem_of_singleton. congruence.
    + destruct (engine_accepts env (sent k) (CreateNodeTableStmt nodeType)); simpl; [|done].
      apply cached_insert_true.
Qed.

Lemma Steps_createChunkNodeTable : Steps env T id (createChunkNodeTable env).
Proof.
  intros k. unfold id, createChunkNodeTable.
  destruct (cached (nodeTables k) "Chunk"); [apply rtc_refl|].
  unfold and_then, wrapped, execute.
  apply rtc_once, (tableStep_other env T _ _ [CreateChunkTableStmt]).
  - by destruct (engine_accepts env (sent k) CreateChunkTableStmt).
  - by intros H%list_elem_of_singleton.
  - destruct (engine_accepts env (sent k) CreateChunkTableStmt); simpl; [|done].
    apply cached_insert_true.
Qed.

Lemma Steps_createRelationshipTable (rel source target : string) :
  Steps env T id (createRelationshipTable env rel source target).
Proof.
  intros k. unfold id, createRelationshipTable.
  destruct (cached (relTables k) _); [apply rtc_refl|].
  unfold and_then, wrapped, execute.
  apply rtc_once, (tableStep_other env T _ _ [CreateRelTableStmt rel source target]).
  - by destruct (engine_accepts env (sent k) _).
  - by intros H%list_elem_of_singleton.
  - by destruct (engine_accepts env (sent k) _).
Qed.

Lemma Steps_createMentionsRelationshipTable :
  Steps env T id (createMentionsRelationshipTable env).
Proof.
  intros k. unfold id, createMentionsRelationshipTable.
  destruct (cached (relTables k) _); [apply rtc_refl|].
  unfold execute.
  apply rtc_once, (tableStep_other env T _ _ [CreateMentionsTableStmt]).
  - by destruct (engine_accepts env (sent k) _).
  - by intros H%list_elem_of_singleton.
  - by destruct (engine_accepts env (sent k) _).
Qed.

(** Goals [Steps env T store a] by the structure of [a]; the lemmas
    proved so far are tried first. *)
Ltac steps :=
  repeat first
    [ solve [auto 1 with steps]
    | apply Steps_ok | apply Steps_fail | apply Steps_lift
    | apply Steps_and_then | apply Steps_wrapped | apply Steps_if
    | apply Steps_for_each; intros ?
    | apply Steps_for_range; intros ? ?
    | apply Steps_for_range_tx; intros ? ?
    | apply Steps_onStore
    | apply Steps_Query; discriminate ].

Local Hint Resolve Steps_createNodeTable Steps_createChunkNodeTable
  Steps_createRelationshipTable Steps_createMentionsRelationshipTable : steps.

Lemma Steps_ensureTablesExist (doc : GraphDocument) :
  Steps env T id (ensureTablesExist env doc).
Proof. unfold ensureTablesExist. steps. Qed.

Lemma Steps_ensureTablesForBatch nodeTypes relPatterns :
  Steps env T id (ensureTablesForBatch env nodeTypes relPatterns).
Proof. unfold ensureTablesForBatch. steps. Qed.

Lemma Steps_addNode (node : Node) : Steps env T id (addNode env node).
Proof.
  intros k. unfold addNode.
  destruct (emptyString (ID node)); [apply rtc_refl|].
  destruct (ConvertProperties env (Properties node)) as [converted [e|]]; [apply rtc_refl|].
  destruct (propertyArrays _ _ _ _ _) as [propKeys propValues].
  etrans; [by apply (tableSteps_same env T k (set_ranges (S (ranges k)) k))|].
  apply (Steps_wrapped env T id), Steps_Query. discriminate.
Qed.

Lemma Steps_addRelationship (rel : Relationship) : Steps env T id (addRelationship env rel).
Proof.
  intros k. unfold addRelationship.
  destruct (_ || _); [apply rtc_refl|].
  destruct (ConvertProperties env (RelProperties rel)) as [converted [e|]]; [apply rtc_refl|].
  destruct (propertyArrays _ _ _ _ _) as [propKeys propValues].
  etrans; [by apply (tableSteps_same env T k (set_ranges (S (ranges k)) k))|].
  apply (Steps_wrapped env T id), Steps_Query. discriminate.
Qed.

Lemma Steps_insertNodeBatch ctx nodeType nodes :
  Steps env T id (insertNodeBatch env ctx nodeType nodes).
Proof. unfold insertNodeBatch, nodeBatchStmt. destruct nodes; steps. Qed.

Lemma Steps_batchCreateMentionsRelationships ctx docID nodeType nodeIDs :
  Steps env T id (batchCreateMentionsRelationships env ctx docID nodeType nodeIDs).
Proof. unfold batchCreateMentionsRelationships. destruct nodeIDs; steps. Qed.

Lemma Steps_insertRelationshipBatch_group ctx (rels : list Relationship) :
  Steps env T id
    match rels with
    | [] => ok
    | firstRel :: _ =>
        wrapped "failed to insert relationship batch for pattern %s_%s_%s: %w"
          (Query env ctx (relBatchStmt firstRel rels))
    end.
Proof. unfold relBatchStmt. destruct rels; steps. Qed.

Local Hint Resolve Steps_ensureTablesExist Steps_ensureTablesForBatch Steps_addNode
  Steps_addRelationship Steps_insertNodeBatch Steps_batchCreateMentionsRelationships
  Steps_insertRelationshipBatch_group : steps.

Lemma Steps_batchInsertNodesByType ctx nodeType nodes :
  Steps env T id (batchInsertNodesByType env ctx nodeType nodes).
Proof. unfold batchInsertNodesByType. steps. Qed.

Lemma Steps_batchLinkNodesToSource ctx nodes doc :
  Steps env T id (batchLinkNodesToSource env ctx nodes doc).
Proof. unfold batchLinkNodesToSource. steps. Qed.

Lemma Steps_insertRelationshipBatch ctx rels :
  Steps env T id (insertRelationshipBatch env ctx rels).
Proof. unfold insertRelationshipBatch. destruct rels; steps. Qed.

Local Hint Resolve Steps_batchInsertNodesByType Steps_batchLinkNodesToSource
  Steps_insertRelationshipBatch : steps.

Lemma Steps_batchInsertRelationships ctx rels :
  Steps env T id (batchInsertRelationships env ctx rels).
Proof. unfold batchInsertRelationships. steps. Qed.

Local Hint Resolve Steps_batchInsertRelationships : steps.

Lemma Steps_processBatch ctx doc opts : Steps env T id (processBatch env ctx doc opts).
Proof. unfold processBatch. steps. Qed.

Lemma Steps_processIndividually ctx doc opts :
  Steps env T id (processIndividually env ctx doc opts).
Proof. unfold processIndividually. steps. Qed.

Local Hint Resolve Steps_processBatch Steps_processIndividually : steps.

Lemma Steps_processGraphDocument ctx doc opts :
  Steps env T id (processGraphDocument env ctx doc opts).
Proof. unfold processGraphDocument. steps. Qed.

Local Hint Resolve Steps_processGraphDocument : steps.

Lemma Steps_AddGraphDocument ctx docs options :
  Steps env T id (AddGraphDocument env ctx docs options).
Proof.
  intros k. unfold AddGraphDocument. destruct (negb (connected k)); [apply rtc_refl|].
  revert k. fold (Steps env T id (for_each docs (λ doc,
    processGraphDocument env ctx doc (applyOptions options NewOptions)))). steps.
Qed.
Lemma Steps_TxQuery (stmt : Stmt) :
  stmt ≠ CreateNodeTableStmt T → Steps env T snd (Tx.Query env stmt).
Proof.
  intros Hne [tx k]. unfold Tx.Query.
  destruct (negb (Tx.IsActive tx)); [apply rtc_refl|].
  destruct (tx_done tx); [apply rtc_refl|].
  pose proof (Steps_Query env T (Tx.ctx (Tx.record stmt tx)) stmt Hne k) as H.
  by destruct (Query env _ stmt k) as [[e|] k'].
Qed.

Lemma Steps_Commit : Steps env T snd (Tx.Commit env).
Proof.
  intros [tx k]. unfold Tx.Commit. destruct (negb (Tx.IsActive tx)); [apply rtc_refl|].
  simpl. by apply (Steps_Query env T (Tx.ctx tx) CommitStmt).
Qed.

Lemma Steps_Rollback : Steps env T snd (Tx.Rollback env).
Proof.
  intros [tx k]. unfold Tx.Rollback.
  destruct (Tx.GetState tx); try apply rtc_refl;
    simpl; by apply (Steps_Query env T (Tx.ctx tx) RollbackStmt).
Qed.

Lemma Steps_Close : Steps env T snd (Tx.Close env).
Proof.
  intros [tx k]. unfold Tx.Close.
  destruct (Tx.GetState tx) eqn:Hstate; try apply rtc_refl;
    apply (Steps_Rollback (tx, k)).
Qed.

Lemma Steps_addNodeInTransaction (node : Node) :
  Steps env T snd (addNodeInTransaction env node).
Proof.
  intros [tx k]. unfold addNodeInTransaction.
  destruct (emptyString (ID node)); [apply rtc_refl|].
  destruct (propertyArrays _ _ _ _ _) as [propKeys propValues].
  etrans; [by apply (tableSteps_same env T k (set_ranges (S (ranges k)) k))|].
  refine (Steps_wrapped env T snd _ _ _ (tx, set_ranges (S (ranges k)) k)).
  apply Steps_TxQuery. discriminate.
Qed.

Lemma Steps_addRelationshipInTransaction (rel : Relationship) :
  Steps env T snd (addRelationshipInTransaction env rel).
Proof.
  intros [tx k]. unfold addRelationshipInTransaction.
  destruct (_ || _); [apply rtc_refl|].
  destruct (propertyArrays _ _ _ _ _) as [propKeys propValues].
  etrans; [by apply (tableSteps_same env T k (set_ranges (S (ranges k)) k))|].
  refine (Steps_wrapped env T snd _ _ _ (tx, set_ranges (S (ranges k)) k)).
  apply Steps_TxQuery. discriminate.
Qed.

Lemma Steps_insertNodeBatchInTransaction nodeType nodes :
  Steps env T snd (insertNodeBatchInTransaction env nodeType nodes).
Proof.
  unfold insertNodeBatchInTransaction, nodeBatchStmt.
  destruct nodes; steps. apply Steps_TxQuery. discriminate.
Qed.

Lemma Steps_insertRelationshipBatchInTransaction_group (rels : list Relationship) :
  Steps env T snd
    match rels with
    | [] => ok
    | firstRel :: _ =>
        wrapped
          "failed to insert relationship batch for pattern %s_%s_%s in transaction: %w"
          (Tx.Query env (relBatchStmt firstRel rels))
    end.
Proof. unfold relBatchStmt. destruct rels; steps. apply Steps_TxQuery. discriminate. Qed.

Local Hint Resolve Steps_Commit Steps_Rollback Steps_Close Steps_addNodeInTransaction
  Steps_addRelationshipInTransaction Steps_insertNodeBatchInTransaction
  Steps_insertRelationshipBatchInTransaction_group : steps.

Lemma Steps_batchInsertNodesByTypeInTransaction nodeType nodes :
  Steps env T snd (batchInsertNodesByTypeInTransaction env nodeType nodes).
Proof. unfold batchInsertNodesByTypeInTransaction. steps. Qed.

Lemma Steps_insertRelationshipBatchInTransaction rels :
  Steps env T snd (insertRelationshipBatchInTransaction env rels).
Proof. unfold insertRelationshipBatchInTransaction. destruct rels; steps. Qed.

Local Hint Resolve Steps_batchInsertNodesByTypeInTransaction
  Steps_insertRelationshipBatchInTransaction : steps.

Lemma Steps_batchInsertRelationshipsInTransaction rels :
  Steps env T snd (batchInsertRelationshipsInTransaction env rels).
Proof. unfold batchInsertRelationshipsInTransaction. steps. Qed.

Local Hint Resolve Steps_batchInsertRelationshipsInTransaction : steps.

Lemma Steps_processGraphDocumentInTransaction doc opts :
  Steps env T snd (processGraphDocumentInTransaction env doc opts).
Proof.
  unfold processGraphDocumentInTransaction, processBatchInTransaction,
    processIndividuallyInTransaction. steps.
Qed.

Local Hint Resolve Steps_processGraphDocumentInTransaction : steps.

Lemma Steps_processDocumentBatchInTransaction docs opts :
  Steps env T snd (processDocumentBatchInTransaction env docs opts).
Proof. unfold processDocumentBatchInTransaction. steps. Qed.

Local Hint Resolve Steps_processDocumentBatchInTransaction : steps.

Lemma Steps_addGraphDocumentsInTransaction docs opts :
  Steps env T snd (addGraphDocumentsInTransaction env docs opts).
Proof. unfold addGraphDocumentsInTransaction. steps. Qed.

Lemma Steps_AddGraphDocumentsWithTransaction docs options :
  Steps env T snd (AddGraphDocumentsWithTransaction env docs options).
Proof.
  unfold AddGraphDocumentsWithTransaction. destruct docs; [apply Steps_ok|].
  apply Steps_addGraphDocumentsInTransaction.
Qed.

Lemma tableSteps_RunInTransaction ctx (fn : Action (Transaction * Kuzu)) opts (k : Kuzu) :
  Steps env T snd fn →
  tableSteps env T k (RunInTransaction env ctx fn opts k).2.
Proof.
  intros Hfn. unfold RunInTransaction, BeginTransaction.
  destruct (negb (IsConnected k)); [apply rtc_refl|].
  set (tx := {| tx_id := _ |}).
  set (k0 := (Query env (Tx.ctx tx) _ k).2).
  assert (tableSteps env T k k0) as Hbegin
    by (by apply (Steps_Query env T (Tx.ctx tx) (BeginStmt _))).
  pose proof (Hfn (tx, k0)) as H1.
  destruct (fn (tx, k0)) as [[err|] s1]; simpl in H1.
  - pose proof (Steps_Rollback s1) as H2.
    destruct (Tx.Rollback env s1) as [[rollbackErr|] s2]; simpl in H2;
      pose proof (Steps_Close s2) as H3;
      destruct (Tx.Close env s2) as [r [tx3 k3]]; simpl in *;
      (etrans; [exact Hbegin|]); (etrans; [exact H1|]); (etrans; [exact H2|exact H3]).
  - pose proof (Steps_wrapped env T snd "failed to commit transaction: %w" _ Steps_Commit s1)
      as H2.
    destruct (wrapped _ (Tx.Commit env) s1) as [r2 s2]; simpl in H2.
    pose proof (Steps_Close s2) as H3.
    destruct (Tx.Close env s2) as [r [tx3 k3]]; simpl in *.
    (etrans; [exact Hbegin|]); (etrans; [exact H1|]); (etrans; [exact H2|exact H3]).
Qed.

Lemma tableSteps_runImport (call : ImportCall) (k : Kuzu) :
  tableSteps env T k (runImport env call k).
Proof.
  destruct call as [ctx docs options|ctx docs options|tx docs options]; simpl.
  - apply Steps_AddGraphDocument.
  - unfold AddGraphDocuments. destruct docs as [|doc docs]; [apply rtc_refl|].
    pose proof (tableSteps_RunInTransaction ctx
      (addGraphDocumentsInTransaction env (doc :: docs) (applyOptions options NewOptions))
      [WithReadOnly false] k (Steps_addGraphDocumentsInTransaction _ _)) as H.
    by destruct (RunInTransaction _ _ _ _ _) as [[r tx] k'].
  - apply (Steps_AddGraphDocumentsWithTransaction docs options (tx, k)).
Qed.

Lemma tableSteps_runImports (calls : list ImportCall) (k : Kuzu) :
  tableSteps env T k (runImports env calls k).
Proof.
  unfold runImports. revert k. induction calls as [|call calls IH]; intros k; simpl.
  - apply rtc_refl.
  - etrans; [apply tableSteps_runImport|apply IH].
Qed.

(** What a run made of such steps leaves in the engine's history. *)
Lemma tableSteps_history (k k' : Kuzu) :
  tableSteps env T k k' →
  ∃ new, sent k' = sent k ++ new ∧
    (cached (nodeTables k) T = true →
       cached (nodeTables k') T = true ∧ CreateNodeTableStmt T ∉ new) ∧
    (∀ pre post, new = pre ++ CreateNodeTableStmt T :: post →
       engine_accepts env (sent k ++ pre) (CreateNodeTableStmt T) = true →
       cached (nodeTables k') T = true ∧ CreateNodeTableStmt T ∉ post).
Proof.
  revert k'. apply rtc_ind_r; [|intros y z Hkz Hstep (new & Hsent & Hcached & Honce)].
  - exists []. rewrite app_nil_r. split_and!; [done| |].
    + intros ?. split; [done|apply not_elem_of_nil].
    + intros pre post H. by destruct pre.
  - destruct Hstep as [y z more Hmore Hnone Hmono|y z Hcold Hmore Haccepted].
    + exists (new ++ more). rewrite Hmore, Hsent, app_assoc. split_and!; [done| |].
      * intros Hk. destruct (Hcached Hk) as [Hy Hnew]. split; [by apply Hmono|].
        rewrite elem_of_app. tauto.
      * intros pre post Hsplit Hacc.
        destruct (app_eq_middle _ _ _ _ _ Hsplit) as [(post' & -> & ->)|(pre' & -> & ->)].
        -- destruct (Honce pre post' eq_refl Hacc) as [Hy Hpost]. split; [by apply Hmono|].
           rewrite elem_of_app. tauto.
        -- destruct Hnone. rewrite elem_of_app. right. left.
    + exists (new ++ [CreateNodeTableStmt T]). rewrite Hmore, Hsent, app_assoc.
      split_and!; [done| |].
      * intros Hk. destruct (Hcached Hk) as [Hy _]. congruence.
      * intros pre post Hsplit Hacc.
        destruct (app_eq_middle _ _ _ _ _ Hsplit) as [(post' & -> & ->)|(pre' & -> & Hlast)].
        -- destruct (Honce pre post' eq_refl Hacc) as [Hy _]. congruence.
        -- destruct pre' as [|a pre']; simpl in Hlast.
           ++ injection Hlast as <-. rewrite app_nil_r in Hacc.
              rewrite Haccepted, Hsent, Hacc. split; [done|apply not_elem_of_nil].
           ++ injection Hlast as _ Hlast. by destruct pre'.
Qed.
End pipeline_steps.

(** *** Whose table a creation is for *)

Create HintDb creates.

Section creates_for.
Context (env : Env).

Lemma createsFor_mono (types types' : list string) (stmt : Stmt) :
  types ⊆ types' → createsFor types stmt → createsFor types' stmt.
Proof. intros Hsub H nodeType Hstmt. by apply Hsub, H. Qed.

Lemma CreatesFor_mono {S} (store : S → Kuzu) (types types' : list string) (a : Action S) :
  types ⊆ types' → CreatesFor store types a → CreatesFor store types' a.
Proof.
  intros Hsub Ha s. destruct (Ha s) as (new & Hsent & Hnew). exists new. split; [done|].
  eapply Forall_impl; [exact Hnew|]. intros stmt. by apply createsFor_mono.
Qed.

Lemma CreatesFor_none {S} (store : S → Kuzu) (types : list string) (a : Action S) :
  CreatesFor store [] a → CreatesFor store types a.
Proof. apply CreatesFor_mono. intros x Hx. by apply elem_of_nil in Hx. Qed.

Lemma CreatesFor_same {S} (store : S → Kuzu) (types : list string) (a : Action S) :
  (∀ s, sent (store (a s).2) = sent (store s)) → CreatesFor store types a.
Proof. intros H s. exists []. by rewrite app_nil_r, H. Qed.

Lemma CreatesFor_ok {S} (store : S → Kuzu) types : CreatesFor store types ok.
Proof. by apply CreatesFor_same. Qed.

Lemma CreatesFor_fail {S} (store : S → Kuzu) types e : CreatesFor store types (fail e).
Proof. by apply CreatesFor_same. Qed.

Lemma CreatesFor_lift {S} (store : S → Kuzu) types r : CreatesFor store types (lift r).
Proof. by apply CreatesFor_same. Qed.

Lemma CreatesFor_and_then {S} (store : S → Kuzu) types (a b : Action S) :
  CreatesFor store types a → CreatesFor store types b → CreatesFor store types (a ;> b).
Proof.
  intros Ha Hb s. unfold and_then. destruct (Ha s) as (new & Hsent & Hnew).
  destruct (a s) as [[e|] s']; simpl in *; [by exists new|].
  destruct (Hb s') as (more & Hmore & Hall). exists (new ++ more).
  rewrite Hmore, Hsent, app_assoc. split; [done|]. by apply Forall_app.
Qed.

Lemma CreatesFor_wrapped {S} (store : S → Kuzu) types format (a : Action S) :
  CreatesFor store types a → CreatesFor store types (wrapped format a).
Proof.
  intros Ha s. unfold wrapped. specialize (Ha s). by destruct (a s) as [[e|] s'].
Qed.

Lemma CreatesFor_failing_with {S} (store : S → Kuzu) types e (a : Action S) :
  CreatesFor store types a → CreatesFor store types (failing_with e a).
Proof.
  intros Ha s. unfold failing_with. specialize (Ha s). by destruct (a s) as [[e'|] s'].
Qed.

Lemma CreatesFor_for_each_in {S A} (store : S → Kuzu) types (xs : list A)
    (body : A → Action S) :
  (∀ x, x ∈ xs → CreatesFor store types (body x)) →
  CreatesFor store types (for_each xs body).
Proof.
  induction xs as [|x xs IH]; intros Hbody; simpl.
  - apply CreatesFor_ok.
  - apply CreatesFor_and_then; [apply Hbody; left|].
    apply IH. intros y Hy. apply Hbody. by right.
Qed.

Lemma CreatesFor_for_each {S A} (store : S → Kuzu) types (xs : list A)
    (body : A → Action S) :
  (∀ x, CreatesFor store types (body x)) → CreatesFor store types (for_each xs body).
Proof. intros Hbody. apply CreatesFor_for_each_in. intros x _. apply Hbody. Qed.

Lemma CreatesFor_if {S} (store : S → Kuzu) types (b : bool) (a1 a2 : Action S) :
  CreatesFor store types a1 → CreatesFor store types a2 →
  CreatesFor store types (if b then a1 else a2).
Proof. by destruct b. Qed.

Lemma CreatesFor_for_range_in {V} types (m : gmap string V)
    (body : string → V → Action Kuzu) :
  (∀ key v, m !! key = Some v → CreatesFor id types (body key v)) →
  CreatesFor id types (for_range env m body).
Proof.
  intros Hbody k. unfold for_range.
  destruct (CreatesFor_for_each_in id types (range_entries env (ranges k) m)
              (λ kv, body kv.1 kv.2)) with (s := set_ranges (S (ranges k)) k)
    as (new & Hsent & Hnew); [|by exists new].
  intros [key v] Hin. apply Hbody.
  rewrite range_entries_Permutation in Hin. by apply elem_of_map_to_list in Hin.
Qed.

Lemma CreatesFor_for_range {V} types (m : gmap string V)
    (body : string → V → Action Kuzu) :
  (∀ key v, CreatesFor id types (body key v)) → CreatesFor id types (for_range env m body).
Proof. intros Hbody. apply CreatesFor_for_range_in. intros key v _. apply Hbody. Qed.

Lemma CreatesFor_for_range_tx {V} types (m : gmap string V)
    (body : string → V → Action (Transaction * Kuzu)) :
  (∀ key v, CreatesFor snd types (body key v)) →
  CreatesFor snd types (for_range_tx env m body).
Proof.
  intros Hbody [tx k]. unfold for_range_tx.
  destruct (CreatesFor_for_each snd types (range_entries env (ranges k) m)
              (λ kv, body kv.1 kv.2) (λ kv, Hbody kv.1 kv.2)
              (tx, set_ranges (S (ranges k)) k))
    as (new & Hsent & Hnew).
  by exists new.
Qed.

Lemma CreatesFor_onStore types (a : Action Kuzu) :
  CreatesFor id types a → CreatesFor snd types (onStore a).
Proof.
  intros Ha [tx k]. unfold onStore. specialize (Ha k). by destruct (a k).
Qed.

Lemma CreatesFor_execute types (stmt : Stmt) :
  createsFor types stmt → CreatesFor id types (execute env stmt).
Proof. intros Hstmt k. exists [stmt]. split; [done|]. by apply Forall_singleton. Qed.

Lemma CreatesFor_Query types (ctx : Context) (stmt : Stmt) :
  createsFor types stmt → CreatesFor id types (Query env ctx stmt).
Proof.
  intros Hstmt k. unfold Query.
  destruct (negb (IsConnected k)); [by apply (CreatesFor_ok id)|].
  destruct (ctx_done ctx); [by apply (CreatesFor_ok id)|].
  by apply CreatesFor_failing_with, CreatesFor_execute.
Qed.

Lemma CreatesFor_TxQuery types (stmt : Stmt) :
  createsFor types stmt → CreatesFor snd types (Tx.Query env stmt).
Proof.
  intros Hstmt [tx k]. unfold Tx.Query.
  destruct (negb (Tx.IsActive tx)); [by exists []; rewrite app_nil_r|].
  destruct (tx_done tx); [by exists []; rewrite app_nil_r|].
  pose proof (CreatesFor_Query types (Tx.ctx (Tx.record stmt tx)) stmt Hstmt k) as H.
  by destruct (Query env _ stmt k) as [[e|] k'].
Qed.

(** Goals [CreatesFor store types a] by the structure of [a]. *)
Ltac creates :=
  repeat first
    [ solve [auto 1 with creates]
    | solve [apply CreatesFor_none; auto 1 with creates]
    | apply CreatesFor_ok | apply CreatesFor_fail | apply CreatesFor_lift
    | apply CreatesFor_and_then | apply CreatesFor_wrapped | apply CreatesFor_if
    | apply CreatesFor_for_each; intros ?
    | apply CreatesFor_for_range; intros ? ?
    | apply CreatesFor_for_range_tx; intros ? ?
    | apply CreatesFor_onStore
    | apply CreatesFor_Query; intros ? [=]
    | apply CreatesFor_TxQuery; intros ? [=]
    | apply CreatesFor_execute; intros ? [=] ].

Lemma CreatesFor_createNodeTable (nodeType : string) :
  CreatesFor id [nodeType] (createNodeTable env nodeType).
Proof.
  intros k. unfold id, createNodeTable.
  destruct (cached (nodeTables k) nodeType); [by apply (CreatesFor_ok id)|].
  exists [CreateNodeTableStmt nodeType]. unfold and_then, wrapped, execute.
  split; [by destruct (engine_accepts env (sent k) _)|].
  apply Forall_singleton. intros T' [= <-]. by left.
Qed.

Lemma CreatesFor_createChunkNodeTable : CreatesFor id [] (createChunkNodeTable env).
Proof.
  intros k. unfold id, createChunkNodeTable.
  destruct (cached (nodeTables k) "Chunk"); [by apply (CreatesFor_ok id)|].
  exists [CreateChunkTableStmt]. unfold and_then, wrapped, execute.
  split; [by destruct (engine_accepts env (sent k) _)|].
  by apply Forall_singleton.
Qed.

Lemma CreatesFor_createRelationshipTable (rel source target : string) :
  CreatesFor id [] (createRelationshipTable env rel source target).
Proof.
  intros k. unfold id, createRelationshipTable.
  destruct (cached (relTables k) _); [by apply (CreatesFor_ok id)|].
  exists [CreateRelTableStmt rel source target]. unfold and_then, wrapped, execute.
  split; [by destruct (engine_accepts env (sent k) _)|].
  by apply Forall_singleton.
Qed.

Lemma CreatesFor_createMentionsRelationshipTable :
  CreatesFor id [] (createMentionsRelationshipTable env).
Proof.
  intros k. unfold id, createMentionsRelationshipTable.
  destruct (cached (relTables k) _); [by apply (CreatesFor_ok id)|].
  exists [CreateMentionsTableStmt]. unfold execute.
  split; [by destruct (engine_accepts env (sent k) _)|].
  by apply Forall_singleton.
Qed.

Local Hint Resolve CreatesFor_createChunkNodeTable CreatesFor_createRelationshipTable
  CreatesFor_createMentionsRelationshipTable : creates.

(** The keys [collectNodeTypes] adds are the types of the nodes. *)
Lemma collectNodeTypes_keys (nodes : list Node) (nodeTypes : gmap string bool) (key : string) :
  is_Some (collectNodeTypes nodes nodeTypes !! key) →
  is_Some (nodeTypes !! key) ∨ key ∈ Type_ <$> nodes.
Proof.
  unfold collectNodeTypes. revert nodeTypes.
  induction nodes as [|node nodes IH]; intros nodeTypes; simpl; [by left|].
  intros [H|H]%IH.
  - destruct (decide (Type_ node = key)) as [<-|Hne]; [right; left|].
    left. by rewrite lookup_insert_ne in H.
  - right. by right.
Qed.

Lemma collectDocuments_keys (docs : list GraphDocument) (key : string) :
  is_Some ((collectDocuments docs).1 !! key) → key ∈ docs ≫= (λ doc, Type_ <$> Nodes doc).
Proof.
  unfold collectDocuments.
  assert (∀ acc : gmap string bool * gmap string RelPattern,
    is_Some ((foldl (λ acc doc, (collectNodeTypes (Nodes doc) acc.1,
                                 collectRelPatterns (Relationships doc) acc.2)) acc docs).1
             !! key) →
    is_Some (acc.1 !! key) ∨ key ∈ docs ≫= (λ doc, Type_ <$> Nodes doc)) as H.
  { induction docs as [|doc docs IH]; intros acc; simpl; [by left|].
    intros [H|H]%IH; simpl in H.
    - apply collectNodeTypes_keys in H as [H|H]; [by left|].
      right. rewrite elem_of_app. by left.
    - right. rewrite elem_of_app. by right. }
  intros [Hkey|Hkey]%H; [|done]. simpl in Hkey. rewrite lookup_empty in Hkey.
  by destruct Hkey.
Qed.

Lemma CreatesFor_ensureTablesExist (doc : GraphDocument) :
  CreatesFor id (Type_ <$> Nodes doc) (ensureTablesExist env doc).
Proof.
  unfold ensureTablesExist. apply CreatesFor_and_then; [|creates].
  apply CreatesFor_for_range_in. intros key v Hkey. apply CreatesFor_wrapped.
  apply (CreatesFor_mono id [key]); [|apply CreatesFor_createNodeTable].
  intros T' ->%list_elem_of_singleton.
  destruct (collectNodeTypes_keys (Nodes doc) ∅ key) as [H|H]; [by eexists| |done].
  rewrite lookup_empty in H. by destruct H.
Qed.

Lemma CreatesFor_ensureTablesForBatch (docs : list GraphDocument) :
  CreatesFor id (docs ≫= (λ doc, Type_ <$> Nodes doc))
    (ensureTablesForBatch env (collectDocuments docs).1 (collectDocuments docs).2).
Proof.
  unfold ensureTablesForBatch. apply CreatesFor_and_then; [|creates].
  apply CreatesFor_for_range_in. intros key v Hkey. apply CreatesFor_wrapped.
  apply (CreatesFor_mono id [key]); [|apply CreatesFor_createNodeTable].
  intros T' ->%list_elem_of_singleton. apply collectDocuments_keys. by eexists.
Qed.

Lemma CreatesFor_addNode (node : Node) : CreatesFor id [] (addNode env node).
Proof.
  intros k. unfold addNode.
  destruct (emptyString (ID node)); [by apply (CreatesFor_ok id)|].
  destruct (ConvertProperties env (Properties node)) as [converted [e|]];
    [by apply (CreatesFor_ok id)|].
  destruct (propertyArrays _ _ _ _ _) as [propKeys propValues].
  refine (CreatesFor_wrapped id _ _ _ _ (set_ranges (S (ranges k)) k)).
  apply CreatesFor_Query. intros ? [=].
Qed.

Lemma CreatesFor_addRelationship (rel : Relationship) :
  CreatesFor id [] (addRelationship env rel).
Proof.
  intros k. unfold addRelationship.
  destruct (_ || _); [by apply (CreatesFor_ok id)|].
  destruct (ConvertProperties env (RelProperties rel)) as [converted [e|]];
    [by apply (CreatesFor_ok id)|].
  destruct (propertyArrays _ _ _ _ _) as [propKeys propValues].
  refine (CreatesFor_wrapped id _ _ _ _ (set_ranges (S (ranges k)) k)).
  apply CreatesFor_Query. intros ? [=].
Qed.

Lemma CreatesFor_insertNodeBatch ctx nodeType nodes :
  CreatesFor id [] (insertNodeBatch env ctx nodeType nodes).
Proof. unfold insertNodeBatch, nodeBatchStmt. destruct nodes; creates. Qed.

Lemma CreatesFor_batchCreateMentionsRelationships ctx docID nodeType nodeIDs :
  CreatesFor id [] (batchCreateMentionsRelationships env ctx docID nodeType nodeIDs).
Proof. unfold batchCreateMentionsRelationships. destruct nodeIDs; creates. Qed.

Lemma CreatesFor_insertRelationshipBatch_group ctx (rels : list Relationship) :
  CreatesFor id []
    match rels with
    | [] => ok
    | firstRel :: _ =>
        wrapped "failed to insert relationship batch for pattern %s_%s_%s: %w"
          (Query env ctx (relBatchStmt firstRel rels))
    end.
Proof. unfold relBatchStmt. destruct rels; creates. Qed.

Local Hint Resolve CreatesFor_addNode CreatesFor_addRelationship CreatesFor_insertNodeBatch
  CreatesFor_batchCreateMentionsRelationships CreatesFor_insertRelationshipBatch_group
  : creates.

Lemma CreatesFor_batchInsertNodesByType ctx nodeType nodes :
  CreatesFor id [] (batchInsertNodesByType env ctx nodeType nodes).
Proof. unfold batchInsertNodesByType. creates. Qed.

Lemma CreatesFor_batchLinkNodesToSource ctx nodes doc :
  CreatesFor id [] (batchLinkNodesToSource env ctx nodes doc).
Proof. unfold batchLinkNodesToSource. creates. Qed.

Lemma CreatesFor_insertRelationshipBatch ctx rels :
  CreatesFor id [] (insertRelationshipBatch env ctx rels).
Proof. unfold insertRelationshipBatch. destruct rels; creates. Qed.

Local Hint Resolve CreatesFor_batchInsertNodesByType CreatesFor_batchLinkNodesToSource
  CreatesFor_insertRelationshipBatch : creates.

Lemma CreatesFor_batchInsertRelationships ctx rels :
  CreatesFor id [] (batchInsertRelationships env ctx rels).
Proof. unfold batchInsertRelationships. creates. Qed.

Local Hint Resolve CreatesFor_batchInsertRelationships : creates.

Lemma CreatesFor_processBatch ctx doc opts :
  CreatesFor id [] (processBatch env ctx doc opts).
Proof. unfold processBatch. creates. Qed.

Lemma CreatesFor_processIndividually ctx doc opts :
  CreatesFor id [] (processIndividually env ctx doc opts).
Proof. unfold processIndividually. creates. Qed.

Local Hint Resolve CreatesFor_processBatch CreatesFor_processIndividually : creates.

Lemma CreatesFor_processGraphDocument ctx doc opts :
  CreatesFor id (Type_ <$> Nodes doc) (processGraphDocument env ctx doc opts).
Proof.
  unfold processGraphDocument.
  apply CreatesFor_and_then; [creates|].
  apply CreatesFor_and_then; [apply CreatesFor_ensureTablesExist|creates].
Qed.

Lemma CreatesFor_AddGraphDocument ctx docs options :
  CreatesFor id (docs ≫= (λ doc, Type_ <$> Nodes doc))
    (AddGraphDocument env ctx docs options).
Proof.
  intros k. unfold AddGraphDocument.
  destruct (negb (connected k)); [by apply (CreatesFor_ok id)|].
  apply (CreatesFor_for_each_in id). intros doc Hdoc.
  apply (CreatesFor_mono id (Type_ <$> Nodes doc));
    [|apply CreatesFor_processGraphDocument].
  intros T' HT'. apply list_elem_of_bind. by exists doc.
Qed.

Lemma CreatesFor_Commit : CreatesFor snd [] (Tx.Commit env).
Proof.
  intros [tx k]. unfold Tx.Commit.
  destruct (negb (Tx.IsActive tx)); [by apply (CreatesFor_ok snd)|].
  simpl. apply (CreatesFor_Query [] (Tx.ctx tx) CommitStmt). intros ? [=].
Qed.

Lemma CreatesFor_Rollback : CreatesFor snd [] (Tx.Rollback env).
Proof.
  intros [tx k]. unfold Tx.Rollback.
  destruct (Tx.GetState tx);
    first [ by exists []; rewrite app_nil_r
          | simpl; apply (CreatesFor_Query [] (Tx.ctx tx) RollbackStmt); intros ? [=] ].
Qed.

Lemma CreatesFor_Close : CreatesFor snd [] (Tx.Close env).
Proof.
  intros [tx k]. unfold Tx.Close.
  destruct (Tx.GetState tx) eqn:Hstate;
    first [apply (CreatesFor_Rollback (tx, k)) | by exists []; rewrite app_nil_r].
Qed.

Lemma CreatesFor_addNodeInTransaction (node : Node) :
  CreatesFor snd [] (addNodeInTransaction env node).
Proof.
  intros [tx k]. unfold addNodeInTransaction.
  destruct (emptyString (ID node)); [by apply (CreatesFor_ok snd)|].
  destruct (propertyArrays _ _ _ _ _) as [propKeys propValues].
  refine (CreatesFor_wrapped snd _ _ _ _ (tx, set_ranges (S (ranges k)) k)).
  apply CreatesFor_TxQuery. intros ? [=].
Qed.

Lemma CreatesFor_addRelationshipInTransaction (rel : Relationship) :
  CreatesFor snd [] (addRelationshipInTransaction env rel).
Proof.
  intros [tx k]. unfold addRelationshipInTransaction.
  destruct (_ || _); [by apply (CreatesFor_ok snd)|].
  destruct (propertyArrays _ _ _ _ _) as [propKeys propValues].
  refine (CreatesFor_wrapped snd _ _ _ _ (tx, set_ranges (S (ranges k)) k)).
  apply CreatesFor_TxQuery. intros ? [=].
Qed.

Lemma CreatesFor_insertNodeBatchInTransaction nodeType nodes :
  CreatesFor snd [] (insertNodeBatchInTransaction env nodeType nodes).
Proof. unfold insertNodeBatchInTransaction, nodeBatchStmt. destruct nodes; creates. Qed.

Lemma CreatesFor_insertRelationshipBatchInTransaction_group (rels : list Relationship) :
  CreatesFor snd []
    match rels with
    | [] => ok
    | firstRel :: _ =>
        wrapped
          "failed to insert relationship batch for pattern %s_%s_%s in transaction: %w"
          (Tx.Query env (relBatchStmt firstRel rels))
    end.
Proof. unfold relBatchStmt. destruct rels; creates. Qed.

Local Hint Resolve CreatesFor_Commit CreatesFor_Rollback CreatesFor_Close
  CreatesFor_addNodeInTransaction CreatesFor_addRelationshipInTransaction
  CreatesFor_insertNodeBatchInTransaction
  CreatesFor_insertRelationshipBatchInTransaction_group : creates.

Lemma CreatesFor_batchInsertNodesByTypeInTransaction nodeType nodes :
  CreatesFor snd [] (batchInsertNodesByTypeInTransaction env nodeType nodes).
Proof. unfold batchInsertNodesByTypeInTransaction. creates. Qed.

Lemma CreatesFor_insertRelationshipBatchInTransaction rels :
  CreatesFor snd [] (insertRelationshipBatchInTransaction env rels).
Proof. unfold insertRelationshipBatchInTransaction. destruct rels; creates. Qed.

Local Hint Resolve CreatesFor_batchInsertNodesByTypeInTransaction
  CreatesFor_insertRelationshipBatchInTransaction : creates.

Lemma CreatesFor_batchInsertRelationshipsInTransaction rels :
  CreatesFor snd [] (batchInsertRelationshipsInTransaction env rels).
Proof. unfold batchInsertRelationshipsInTransaction. creates. Qed.

Local Hint Resolve CreatesFor_batchInsertRelationshipsInTransaction : creates.

Lemma CreatesFor_processGraphDocumentInTransaction doc opts :
  CreatesFor snd (Type_ <$> Nodes doc) (processGraphDocumentInTransaction env doc opts).
Proof.
  unfold processGraphDocumentInTransaction, processBatchInTransaction,
    processIndividuallyInTransaction.
  apply CreatesFor_and_then; [apply CreatesFor_onStore, CreatesFor_ensureTablesExist|].
  creates.
Qed.

Lemma CreatesFor_processDocumentBatchInTransaction docs opts :
  CreatesFor snd (docs ≫= (λ doc, Type_ <$> Nodes doc))
    (processDocumentBatchInTransaction env docs opts).
Proof.
  unfold processDocumentBatchInTransaction.
  apply CreatesFor_and_then; [creates|].
  apply CreatesFor_and_then.
  - apply CreatesFor_wrapped, CreatesFor_onStore, CreatesFor_ensureTablesForBatch.
  - apply CreatesFor_for_each_in. intros doc Hdoc. apply CreatesFor_wrapped.
    apply (CreatesFor_mono snd (Type_ <$> Nodes doc));
      [|apply CreatesFor_processGraphDocumentInTransaction].
    intros T' HT'. apply list_elem_of_bind. by exists doc.
Qed.

(** A batch of the loop holds documents of the list. *)
Lemma batches_upto_elem {A} (rounds size : nat) (xs batch : list A) (x : A) :
  batch ∈ batches_upto rounds size xs → x ∈ batch → x ∈ xs.
Proof.
  revert xs. induction rounds as [|rounds IH]; intros xs; simpl.
  - by intros ?%elem_of_nil.
  - destruct xs as [|y ys]; [by intros ?%elem_of_nil|].
    intros [->|Hin]%elem_of_cons Hx.
    + eapply elem_of_sublist; [exact Hx|apply sublist_take].
    + eapply elem_of_sublist; [by eapply IH|apply sublist_drop].
Qed.

Lemma CreatesFor_addGraphDocumentsInTransaction docs opts :
  CreatesFor snd (docs ≫= (λ doc, Type_ <$> Nodes doc))
    (addGraphDocumentsInTransaction env docs opts).
Proof.
  unfold addGraphDocumentsInTransaction.
  apply CreatesFor_for_each_in. intros batch Hbatch. apply CreatesFor_wrapped.
  eapply CreatesFor_mono; [|apply CreatesFor_processDocumentBatchInTransaction].
  intros T' (doc & HT' & Hdoc)%list_elem_of_bind. apply list_elem_of_bind.
  exists doc. split; [done|]. by eapply batches_upto_elem.
Qed.

Lemma CreatesFor_AddGraphDocumentsWithTransaction docs options :
  CreatesFor snd (docs ≫= (λ doc, Type_ <$> Nodes doc))
    (AddGraphDocumentsWithTransaction env docs options).
Proof.
  unfold AddGraphDocumentsWithTransaction. destruct docs; [apply CreatesFor_ok|].
  apply CreatesFor_addGraphDocumentsInTransaction.
Qed.

Lemma CreatesFor_RunInTransaction types ctx (fn : Action (Transaction * Kuzu)) opts
    (k : Kuzu) :
  CreatesFor snd types fn →
  ∃ new, sent (RunInTransaction env ctx fn opts k).2 = sent k ++ new ∧
         Forall (createsFor types) new.
Proof.
  intros Hfn. unfold RunInTransaction, BeginTransaction.
  destruct (negb (IsConnected k)).
  { exists []. by rewrite app_nil_r. }
  set (tx := {| tx_id := _ |}).
  destruct (CreatesFor_Query types (Tx.ctx tx)
              (BeginStmt (ReadOnly (applyOptions opts defaultConfig))) (λ _, ltac:(intros [=])) k)
    as (new0 & Hsent0 & Hnew0).
  set (k0 := (Query env (Tx.ctx tx) _ k).2) in *.
  destruct (Hfn (tx, k0)) as (new1 & Hsent1 & Hnew1).
  assert (CreatesFor snd types (Tx.Rollback env)) as HRollback
    by apply CreatesFor_none, CreatesFor_Rollback.
  assert (CreatesFor snd types (Tx.Close env)) as HClose
    by apply CreatesFor_none, CreatesFor_Close.
  assert (CreatesFor snd types (wrapped "failed to commit transaction: %w" (Tx.Commit env)))
    as HCommit by apply CreatesFor_wrapped, CreatesFor_none, CreatesFor_Commit.
  destruct (fn (tx, k0)) as [[err|] s1]; simpl in Hsent1.
  - destruct (HRollback s1) as (new2 & Hsent2 & Hnew2).
    destruct (Tx.Rollback env s1) as [[rollbackErr|] s2]; simpl in Hsent2;
      destruct (HClose s2) as (new3 & Hsent3 & Hnew3);
      destruct (Tx.Close env s2) as [r [tx3 k3]]; simpl in *;
      exists (new0 ++ new1 ++ new2 ++ new3);
      (split; [rewrite Hsent3, Hsent2, Hsent1, Hsent0, <-!app_assoc; done|]);
      by repeat apply Forall_app_2.
  - destruct (HCommit s1) as (new2 & Hsent2 & Hnew2).
    destruct (wrapped _ (Tx.Commit env) s1) as [r2 s2]; simpl in Hsent2.
    destruct (HClose s2) as (new3 & Hsent3 & Hnew3).
    destruct (Tx.Close env s2) as [r [tx3 k3]]; simpl in *.
    exists (new0 ++ new1 ++ new2 ++ new3).
    split; [rewrite Hsent3, Hsent2, Hsent1, Hsent0, <-!app_assoc; done|].
    by repeat apply Forall_app_2.
Qed.

Lemma createsFor_runImport (call : ImportCall) (k : Kuzu) :
  ∃ new, sent (runImport env call k) = sent k ++ new ∧
         Forall (createsFor (importedTypes call)) new.
Proof.
  destruct call as [ctx docs options|ctx docs options|tx docs options]; simpl.
  - apply (CreatesFor_AddGraphDocument ctx docs options k).
  - unfold AddGraphDocuments. destruct docs as [|doc docs].
    { exists []. by rewrite app_nil_r. }
    pose proof (CreatesFor_RunInTransaction _ ctx
      (addGraphDocumentsInTransaction env (doc :: docs) (applyOptions options NewOptions))
      [WithReadOnly false] k (CreatesFor_addGraphDocumentsInTransaction _ _)) as H.
    by destruct (RunInTransaction _ _ _ _ _) as [[r tx] k'].
  - apply (CreatesFor_AddGraphDocumentsWithTransaction docs options (tx, k)).
Qed.

Lemma createsFor_runImports (calls : list ImportCall) (k : Kuzu) :
  ∃ new, sent (runImports env calls k) = sent k ++ new ∧
         Forall (createsFor (calls ≫= importedTypes)) new.
Proof.
  unfold runImports. revert k. induction calls as [|call calls IH]; intros k; simpl.
  - exists []. by rewrite app_nil_r.
  - destruct (createsFor_runImport call k) as (new1 & Hsent1 & Hnew1).
    destruct (IH (runImport env call k)) as (new2 & Hsent2 & Hnew2).
    exists (new1 ++ new2). rewrite Hsent2, Hsent1, app_assoc. split; [done|].
    apply Forall_app. split.
    + eapply Forall_impl; [exact Hnew1|]. intros stmt. apply createsFor_mono.
      intros T' HT'. rewrite elem_of_app. by left.
    + eapply Forall_impl; [exact Hnew2|]. intros stmt. apply createsFor_mono.
      intros T' HT'. rewrite elem_of_app. by right.
Qed.
End creates_for.

Lemma isCreateNodeTable_spec (T : string) (stmt : Stmt) :
  isCreateNodeTable T stmt = true ↔
  ∃ nodeType, stmt = CreateNodeTableStmt nodeType ∧
              sanitizeIdentifier nodeType = sanitizeIdentifier T.
Proof.
  destruct stmt; simpl; try (split; [done|by intros (? & [=] & _)]).
  rewrite String.eqb_eq. split; [by eexists|by intros (? & [= ->] & ?)].
Qed.

(** When [T] is the only one of [types] with its sanitized name, the
    creations for [types] that have the text of the creation for [T] are
    creations for [T]. *)
Lemma isCreateNodeTable_only (T : string) (types : list string) (stmts : list Stmt) :
  Forall (createsFor types) stmts →
  Forall (λ T', sanitizeIdentifier T' = sanitizeIdentifier T → T' = T) types →
  ∀ stmt, stmt ∈ stmts → isCreateNodeTable T stmt = true → stmt = CreateNodeTableStmt T.
Proof.
  intros Hstmts Htypes stmt Hin (nodeType & -> & Hname)%isCreateNodeTable_spec.
  f_equal. apply (proj1 (Forall_forall _ _) Htypes); [|done].
  by apply (proj1 (Forall_forall _ _) Hstmts _ Hin).
Qed.

Lemma countCreateNodeTable_absent (T : string) (stmts : list Stmt) :
  (∀ stmt, stmt ∈ stmts → isCreateNodeTable T stmt = true → stmt = CreateNodeTableStmt T) →
  CreateNodeTableStmt T ∉ stmts → countCreateNodeTable T stmts = O.
Proof.
  intros Honly Hnone. unfold countCreateNodeTable. rewrite filter_none; [done|].
  intros stmt Hin Hstmt. by rewrite (Honly stmt Hin Hstmt) in Hin.
Qed.

Lemma first_CreateNodeTable (T : string) (stmts : list Stmt) :
  CreateNodeTableStmt T ∈ stmts →
  ∃ pre post, stmts = pre ++ CreateNodeTableStmt T :: post ∧ CreateNodeTableStmt T ∉ pre.
Proof.
  induction stmts as [|stmt stmts IH]; [by intros ?%elem_of_nil|].
  intros Hin.
  assert (stmt = CreateNodeTableStmt T ∨ stmt ≠ CreateNodeTableStmt T) as [->|Hne].
  { destruct stmt; try (by right).
    destruct (decide (nodeType = T)) as [->|Hne]; [by left|right; congruence]. }
  - exists [], stmts. split; [done|]. apply not_elem_of_nil.
  - apply elem_of_cons in Hin as [?|Hin]; [done|].
    destruct (IH Hin) as (pre & post & -> & Hpre). exists (stmt :: pre), post.
    split; [done|]. by intros [?|?]%elem_of_cons.
Qed.

Lemma createNodeTable_cached (env : Env) (T : string) (k : Kuzu) :
  cached (nodeTables k) T = true → createNodeTable env T k = (None, k).
Proof. intros H. unfold createNodeTable. by rewrite H. Qed.

(** C7, amended.  Over any sequence of import calls, from any state of
    the store and whatever the engine answers: once the cache records
    [T], [createNodeTable] is a no-op and the run sends no table creation
    on behalf of [T]; a table creation for [T] that the engine accepted is
    never followed by another one on behalf of [T], so with an engine
    that accepts it the creation is sent on behalf of [T] at most once.
    The statement names the table by the sanitized type, so the engine
    may receive the same text on behalf of another type.  When no other
    node type of the imported documents has the sanitized name of [T],
    the engine receives the text of the creation for [T] not at all once
    the cache records [T], and at most once when it accepts it. *)
Theorem createNodeTable_issued_once (env : Env) (T : string) (calls : list ImportCall)
    (k : Kuzu) :
  (cached (nodeTables k) T = true → createNodeTable env T k = (None, k)) ∧
  ∃ new, sent (runImports env calls k) = sent k ++ new ∧
    (cached (nodeTables k) T = true → CreateNodeTableStmt T ∉ new) ∧
    (∀ pre post, new = pre ++ CreateNodeTableStmt T :: post →
       engine_accepts env (sent k ++ pre) (CreateNodeTableStmt T) = true →
       CreateNodeTableStmt T ∉ post) ∧
    ((∀ history, engine_accepts env history (CreateNodeTableStmt T) = true) →
     ∀ pre post, new = pre ++ CreateNodeTableStmt T :: post →
       (CreateNodeTableStmt T ∉ pre) ∧ (CreateNodeTableStmt T ∉ post)) ∧
    (Forall (λ T', sanitizeIdentifier T' = sanitizeIdentifier T → T' = T)
       (calls ≫= importedTypes) →
     (cached (nodeTables k) T = true → countCreateNodeTable T new = O) ∧
     ((∀ history, engine_accepts env history (CreateNodeTableStmt T) = true) →
      (countCreateNodeTable T new ≤ 1)%nat)).
Proof.
  split; [apply createNodeTable_cached|].
  destruct (tableSteps_history env T k _ (tableSteps_runImports env T calls k))
    as (new & Hsent & Hcached & Honce).
  exists new. split_and!; [done| | | |].
  - intros Hk. by apply Hcached.
  - intros pre post Hsplit Hacc. by apply (Honce pre post).
  - intros Haccepts pre post Hsplit. split; [|by apply (Honce pre post Hsplit)].
    intros (before & between & -> & _)%first_CreateNodeTable.
    destruct (Honce before (between ++ CreateNodeTableStmt T :: post)) as [_ Hnone].
    { by rewrite Hsplit, <-app_assoc. }
    { apply Haccepts. }
    apply Hnone. rewrite elem_of_app. right. left.
  - intros Htypes.
    destruct (createsFor_runImports env calls k) as (new' & Hsent' & Hnew).
    assert (new' = new) as -> by (apply (app_inv_head (sent k)); congruence).
    pose proof (isCreateNodeTable_only T _ new Hnew Htypes) as Honly.
    split.
    { intros Hk. apply countCreateNodeTable_absent; [done|]. by apply Hcached. }
    intros Haccepts.
    destruct (decide (countCreateNodeTable T new = O)) as [->|Hsome]; [lia|].
    assert (CreateNodeTableStmt T ∈ new) as Hin.
    { destruct (filter (λ stmt, isCreateNodeTable T stmt = true) new) as [|stmt rest] eqn:Hf.
      - unfold countCreateNodeTable in Hsome. by rewrite Hf in Hsome.
      - assert (stmt ∈ filter (λ stmt, isCreateNodeTable T stmt = true) new) as Hstmt
          by (rewrite Hf; left).
        apply list_elem_of_filter in Hstmt as [Hstmt Hin].
        by rewrite <-(Honly stmt Hin Hstmt). }
    apply first_CreateNodeTable in Hin as (pre & post & -> & Hpre).
    destruct (Honce pre post eq_refl (Haccepts _)) as [_ Hpost].
    unfold countCreateNodeTable in *. rewrite filter_app, filter_cons_True
      by (apply isCreateNodeTable_spec; by eexists).
    rewrite length_app. simpl.
    fold (countCreateNodeTable T pre). fold (countCreateNodeTable T post).
    rewrite !countCreateNodeTable_absent; [lia| | | |]; try done.
    + intros stmt Hin. apply Honly. rewrite elem_of_app. right. by right.
    + intros stmt Hin. apply Honly. rewrite elem_of_app. by left.
Qed.

Lemma createNodeTable_issued_once_witness :
  (countCreateNodeTable "Person"
     (sent (runImports calmEnv
              [CallAddGraphDocument Background [manyPersons; aliceDoc] [];
               CallAddGraphDocuments Background [manyPersons] []] NewKuzu)) ≤ 1)%nat.
Proof.
  destruct (createNodeTable_issued_once calmEnv "Person"
              [CallAddGraphDocument Background [manyPersons; aliceDoc] [];
               CallAddGraphDocuments Background [manyPersons] []] NewKuzu)
    as (_ & new & Hsent & _ & _ & _ & Hcount).
  rewrite Hsent. apply Hcount; [|reflexivity].
  refine (bool_decide_unpack _ _). vm_compute. exact I.
Defined.

(** Twenty-five Person nodes imported through both entry points: the
    engine receives the table creation for Person once. *)
Example createNodeTable_once_for_25_nodes :
  countCreateNodeTable "Person"
    (sent (runImports calmEnv
             [CallAddGraphDocument Background [manyPersons; aliceDoc] [];
              CallAddGraphDocuments Background [manyPersons] []] NewKuzu)) = 1%nat.
Proof. vm_compute. reflexivity. Qed.

(** C7, as stated, fails.  A rejected table creation leaves the cache as
    it was, so the next import sends it again: the engine has then
    received the table creation for Person twice. *)
Lemma createNodeTable_retried_after_rejection :
  let history :=
    sent (runImports coldStartEnv
            [CallAddGraphDocument Background [aliceDoc] [];
             CallAddGraphDocument Background [aliceDoc] []] NewKuzu) in
  history
  = [CreateNodeTableStmt "Person"; CreateNodeTableStmt "Person"; CreateChunkTableStmt;
     CreateMentionsTableStmt; MergeNodeStmt "Person" "alice" "Person" [] []] ∧
  countCreateNodeTable "Person" history = 2%nat.
Proof. vm_compute. done. Qed.

(** Two node types with the same sanitized name: each is created once,
    and the engine, which accepts everything here, receives the same
    text twice. *)
Example createNodeTable_same_text_for_two_types :
  let doc := {| Nodes := [NewNode "a" "My Type"; NewNode "b" "My-Type"];
                Relationships := []; DocSource := emptySource |} in
  let history :=
    sent (runImports calmEnv [CallAddGraphDocument Background [doc] []] NewKuzu) in
  sanitizeIdentifier "My Type" = "My_Type" ∧ sanitizeIdentifier "My-Type" = "My_Type" ∧
  filter (λ stmt, isTableCreation stmt = true) history
  = [CreateNodeTableStmt "My-Type"; CreateNodeTableStmt "My Type"; CreateChunkTableStmt;
     CreateMentionsTableStmt] ∧
  countCreateNodeTable "My Type" history = 2%nat.
Proof. vm_compute. done. Qed.

(** ** Validation *)

Lemma emptyString_spec (s : string) : emptyString s = true ↔ s = "".
Proof. unfold emptyString. apply String.eqb_eq. Qed.

Lemma emptyString_false (s : string) : emptyString s = false ↔ s ≠ "".
Proof. unfold emptyString. apply String.eqb_neq. Qed.

Lemma validateNodes_spec (nodes : list Node) :
  is_Some (validateNodes nodes) ↔ Exists invalidNode nodes.
Proof.
  induction nodes as [|node nodes IH]; simpl.
  - split; [by intros [? ?]|by intros ?%Exists_nil].
  - rewrite Exists_cons, <- IH. unfold invalidNode.
    destruct (emptyString (ID node)) eqn:Hid.
    { apply emptyString_spec in Hid. split; [tauto|eauto]. }
    destruct (emptyString (Type_ node)) eqn:Htype.
    { apply emptyString_spec in Htype. split; [tauto|eauto]. }
    apply emptyString_false in Hid, Htype. tauto.
Qed.

Lemma validateRelationships_spec (rels : list Relationship) :
  is_Some (validateRelationships rels) ↔ Exists invalidRelationship rels.
Proof.
  induction rels as [|rel rels IH]; simpl.
  - split; [by intros [? ?]|by intros ?%Exists_nil].
  - rewrite Exists_cons, <- IH. unfold invalidRelationship.
    destruct (emptyString (RelType rel)) eqn:Htype.
    { apply emptyString_spec in Htype. split; [tauto|eauto]. }
    destruct (emptyString (ID (Source rel))) eqn:Hsource.
    { apply emptyString_spec in Hsource. split; [tauto|eauto]. }
    destruct (emptyString (ID (Target rel))) eqn:Htarget.
    { apply emptyString_spec in Htarget. split; [tauto|eauto]. }
    apply emptyString_false in Htype, Hsource, Htarget. tauto.
Qed.

(** [validateGraphDocument] rejects exactly the documents with a node
    without id or type or a relationship without type, source id or
    target id. *)
Lemma validateGraphDocument_spec (doc : GraphDocument) :
  is_Some (validateGraphDocument doc) ↔ invalidDocument doc.
Proof.
  unfold validateGraphDocument, invalidDocument.
  rewrite <- validateNodes_spec, <- validateRelationships_spec.
  destruct (validateNodes (Nodes doc)) as [e|].
  - split; eauto.
  - split; [tauto|]. intros [[? [=]]|?]. done.
Qed.

Lemma validateAll_spec (docs : list GraphDocument) :
  is_Some (validateAll docs) ↔ Exists invalidDocument docs.
Proof.
  induction docs as [|doc docs IH]; simpl.
  - split; [by intros [? ?]|by intros ?%Exists_nil].
  - rewrite Exists_cons, <- IH, <- validateGraphDocument_spec.
    destruct (validateGraphDocument doc) as [e|].
    + split; eauto.
    + split; [tauto|]. intros [[? [=]]|?]. done.
Qed.

Lemma for_each_app {S A} (xs ys : list A) (body : A → Action S) (s : S) :
  for_each (xs ++ ys) body s = (for_each xs body ;> for_each ys body) s.
Proof.
  revert s. induction xs as [|x xs IH]; intros s; simpl; [done|].
  unfold and_then in *. destruct (body x s) as [[e|] s']; [done|]. apply IH.
Qed.

Lemma batches_single {A} (size : nat) (xs : list A) :
  xs ≠ [] → (length xs ≤ size)%nat → batches size xs = [xs].
Proof.
  intros Hne Hlen. unfold batches. destruct xs as [|x xs]; [done|]. simpl.
  destruct size as [|size]; [simpl in Hlen; lia|]. simpl in *.
  rewrite take_ge, drop_ge by lia. by destruct (length xs).
Qed.

Lemma processDocumentBatchInTransaction_invalid (env : Env) docs opts s :
  Exists invalidDocument docs →
  ∃ e, processDocumentBatchInTransaction env docs opts s = (Some e, s).
Proof.
  intros [e He]%validateAll_spec. exists e.
  unfold processDocumentBatchInTransaction, and_then, lift. by rewrite He.
Qed.

Lemma processDocumentBatch_invalid (env : Env) ctx docs opts k :
  Exists invalidDocument docs →
  ∃ e, processDocumentBatch env ctx docs opts k = (Some e, k).
Proof.
  intros [e He]%validateAll_spec. exists e.
  unfold processDocumentBatch, and_then, lift. by rewrite He.
Qed.

Lemma processGraphDocument_invalid (env : Env) ctx doc opts k :
  invalidDocument doc →
  ∃ e, processGraphDocument env ctx doc opts k = (Some e, k).
Proof.
  intros [e He]%validateGraphDocument_spec. eexists.
  unfold processGraphDocument, and_then, wrapped, lift. by rewrite He.
Qed.

(** [AddGraphDocument] stops at the first invalid document: the call
    fails, and the store and the engine are as the documents before it
    left them. *)
Lemma AddGraphDocument_invalid (env : Env) ctx pre bad post options k :
  invalidDocument bad →
  ∃ e, (AddGraphDocument env ctx (pre ++ bad :: post) options k).1 = Some e ∧
       (AddGraphDocument env ctx (pre ++ bad :: post) options k).2
       = (AddGraphDocument env ctx pre options k).2.
Proof.
  intros Hbad. unfold AddGraphDocument.
  destruct (negb (connected k)); [eexists; split; reflexivity|].
  rewrite for_each_app. unfold and_then.
  destruct (for_each pre _ k) as [[e|] k']; [eexists; split; reflexivity|]. simpl.
  destruct (processGraphDocument_invalid env ctx bad (applyOptions options NewOptions) k' Hbad)
    as [e He].
  unfold and_then. rewrite He. eexists; split; reflexivity.
Qed.

(** [Query] sends the statement or nothing, and touches nothing else. *)
Lemma Query_effect (env : Env) (ctx : Context) (stmt : Stmt) (k : Kuzu) :
  ∃ new, (new = [] ∨ new = [stmt]) ∧
    sent (Query env ctx stmt k).2 = sent k ++ new ∧
    nodeTables (Query env ctx stmt k).2 = nodeTables k ∧
    relTables (Query env ctx stmt k).2 = relTables k.
Proof.
  unfold Query. destruct (negb (IsConnected k)).
  { exists []. rewrite app_nil_r. by split_and!; [left|..]. }
  destruct (ctx_done ctx).
  { exists []. rewrite app_nil_r. by split_and!; [left|..]. }
  exists [stmt]. unfold failing_with, execute.
  destruct (engine_accepts env (sent k) stmt); simpl; by split_and!; [right|..].
Qed.

(** Up to ten documents make one batch: with an invalid document among
    them [AddGraphDocuments] fails, no table is created, and the engine
    receives at most the begin and rollback markers of the transaction. *)
Lemma AddGraphDocuments_invalid (env : Env) ctx docs options k :
  Exists invalidDocument docs → (length docs ≤ 10)%nat →
  ∃ e new, (AddGraphDocuments env ctx docs options k).1 = Some e ∧
    sent (AddGraphDocuments env ctx docs options k).2 = sent k ++ new ∧
    Forall (λ stmt, stmt = BeginStmt false ∨ stmt = RollbackStmt) new ∧
    nodeTables (AddGraphDocuments env ctx docs options k).2 = nodeTables k ∧
    relTables (AddGraphDocuments env ctx docs options k).2 = relTables k.
Proof.
  intros Hbad Hlen. unfold AddGraphDocuments.
  destruct docs as [|doc docs]; [by apply Exists_nil in Hbad|].
  set (opts := applyOptions options NewOptions).
  destruct (connected k) eqn:Hconn; cycle 1.
  { unfold RunInTransaction, BeginTransaction, IsConnected. rewrite Hconn. simpl.
    eexists _, []. rewrite app_nil_r. by split_and!. }
  set (tx0 := {| tx_id := generateTransactionID; state := TransactionActive;
                 tx_done := ctx_done ctx; operations := [];
                 startedAt := getCurrentTimestamp |}).
  set (k0 := (Query env (Tx.ctx tx0) (BeginStmt false) k).2).
  assert (BeginTransaction env ctx [WithReadOnly false] k = (Some tx0, None, k0)) as Hbegin.
  { unfold BeginTransaction, IsConnected. by rewrite Hconn. }
  destruct (processDocumentBatchInTransaction_invalid env (doc :: docs) opts (tx0, k0) Hbad)
    as [e He].
  assert (addGraphDocumentsInTransaction env (doc :: docs) opts (tx0, k0)
          = (Some (Errorf "failed to process document batch %d-%d: %w" (Some e)), (tx0, k0)))
    as Hfn.
  { unfold addGraphDocumentsInTransaction. rewrite batches_single by done. simpl.
    unfold and_then, wrapped. by rewrite He. }
  rewrite (RunInTransaction_failing_fn _ _ _ _ _ _ _ _ _ _ Hbegin Hfn (or_introl eq_refl)).
  simpl.
  destruct (Query_effect env (Tx.ctx tx0) RollbackStmt k0)
    as (new2 & Hnew2 & -> & -> & ->).
  subst k0.
  destruct (Query_effect env (Tx.ctx tx0) (BeginStmt false) k)
    as (new1 & Hnew1 & -> & -> & ->).
  eexists _, (new1 ++ new2). rewrite app_assoc. split_and!; [done|done| |done|done].
  apply Forall_app. split.
  - destruct Hnew1 as [-> | ->]; [constructor|apply Forall_singleton; by left].
  - destruct Hnew2 as [-> | ->]; [constructor|apply Forall_singleton; by right].
Qed.

(** C2 fails on the code.  [AddGraphDocument] validates a document only
    when it comes to it: given a valid document followed by one whose
    node has no id, the call fails, and yet the tables of the first
    document have been created and its node written.  The batch functions
    of the same package validate every document before anything is sent:
    on the same two documents [processDocumentBatch] sends nothing and
    [AddGraphDocuments] nothing but the markers of its transaction.
    [AddGraphDocuments] in turn validates ten documents at a time: with
    ten valid documents in front of the invalid one it fails after the
    ten have been written; the rollback marker that follows is a
    comment. *)
Theorem AddGraphDocument_writes_before_invalid_document :
  let invalid :=
    Some (Errorf "document %d validation failed: %w"
            (Some (Errorf "node at index %d has empty ID" None))) in
  invalidDocument namelessDoc ∧
  AddGraphDocument calmEnv Background [aliceDoc; namelessDoc] [] NewKuzu
  = (Some (Errorf "document validation failed: %w"
             (Some (Errorf "node at index %d has empty ID" None))),
     {| connected := true;
        nodeTables := {[ "Person" := true; "Chunk" := true ]};
        relTables := {[ "MENTIONS" := true ]};
        structuredSchema := ∅;
        sent := [CreateNodeTableStmt "Person"; CreateChunkTableStmt; CreateMentionsTableStmt;
                 MergeNodeStmt "Person" "alice" "Person" [] []];
        ranges := 3 |}) ∧
  processDocumentBatch calmEnv Background [aliceDoc; namelessDoc] NewOptions NewKuzu
  = (invalid, NewKuzu) ∧
  (AddGraphDocuments calmEnv Background [aliceDoc; namelessDoc] [] NewKuzu).1
  = Some (Errorf "failed to process document batch %d-%d: %w" invalid) ∧
  sent (AddGraphDocuments calmEnv Background [aliceDoc; namelessDoc] [] NewKuzu).2
  = [BeginStmt false; RollbackStmt] ∧
  (AddGraphDocuments calmEnv Background (tenDocuments ++ [namelessDoc]) [] NewKuzu).1
  = Some (Errorf "failed to process document batch %d-%d: %w" invalid) ∧
  sent (AddGraphDocuments calmEnv Background (tenDocuments ++ [namelessDoc]) [] NewKuzu).2
  = [BeginStmt false; CreateNodeTableStmt "Person"; CreateChunkTableStmt;
     CreateMentionsTableStmt]
    ++ replicate 10 (MergeNodeStmt "Person" "alice" "Person" [] []) ++ [RollbackStmt].
Proof.
  intros invalid. split_and!.
  - left. constructor. by left.
  - vm_compute. reflexivity.
  - vm_compute. reflexivity.
  - vm_compute. reflexivity.
  - vm_compute. reflexivity.
  - vm_compute. reflexivity.
  - vm_compute. reflexivity.
Qed.

(** What each function does with an invalid document, whatever the
    engine and the store: [processDocumentBatchInTransaction] and
    [processDocumentBatch] fail and leave the handle, the store and the
    engine untouched; [AddGraphDocuments] with at most ten documents
    fails with nothing but the transaction markers sent;
    [AddGraphDocument] fails with the store and the engine as the
    documents before the invalid one left them. *)
Theorem invalid_document_stops_the_batch (env : Env) (pre post : list GraphDocument)
    (bad : GraphDocument) :
  invalidDocument bad →
  (∀ opts s, ∃ e,
     processDocumentBatchInTransaction env (pre ++ bad :: post) opts s = (Some e, s)) ∧
  (∀ ctx opts k, ∃ e, processDocumentBatch env ctx (pre ++ bad :: post) opts k = (Some e, k)) ∧
  (∀ ctx options k, (length (pre ++ bad :: post) ≤ 10)%nat →
     ∃ e new,
       (AddGraphDocuments env ctx (pre ++ bad :: post) options k).1 = Some e ∧
       sent (AddGraphDocuments env ctx (pre ++ bad :: post) options k).2 = sent k ++ new ∧
       Forall (λ stmt, stmt = BeginStmt false ∨ stmt = RollbackStmt) new ∧
       nodeTables (AddGraphDocuments env ctx (pre ++ bad :: post) options k).2
       = nodeTables k ∧
       relTables (AddGraphDocuments env ctx (pre ++ bad :: post) options k).2 = relTables k) ∧
  (∀ ctx options k, ∃ e,
     (AddGraphDocument env ctx (pre ++ bad :: post) options k).1 = Some e ∧
     (AddGraphDocument env ctx (pre ++ bad :: post) options k).2
     = (AddGraphDocument env ctx pre options k).2).
Proof.
  intros Hbad.
  assert (Exists invalidDocument (pre ++ bad :: post)) as Hexists
    by (apply Exists_app; right; by left).
  split_and!.
  - intros opts s. by apply processDocumentBatchInTransaction_invalid.
  - intros ctx opts k. by apply processDocumentBatch_invalid.
  - intros ctx options k Hlen. by apply AddGraphDocuments_invalid.
  - intros ctx options k. by apply AddGraphDocument_invalid.
Qed.

Lemma invalid_document_stops_the_batch_witness :
  ∃ e, processDocumentBatchInTransaction calmEnv [aliceDoc; namelessDoc] NewOptions
         (activeTx, NewKuzu) = (Some e, (activeTx, NewKuzu)).
Proof.
  eapply (invalid_document_stops_the_batch calmEnv [aliceDoc] [] namelessDoc).
  left. constructor. by left.
Defined.

(** ** Conversion in permissive mode never fails *)

Lemma valueSize_elem (x : GoValue) (l : list GoValue) :
  x ∈ l → (valueSize x ≤ foldr (λ v n, valueSize v + n) O l)%nat.
Proof.
  induction l as [|y l IH]; [by intros ?%elem_of_nil|].
  intros [->|Hin]%elem_of_cons; simpl; [lia|]. specialize (IH Hin). lia.
Qed.

Lemma valueSize_field (field : FieldInfo GoValue) (fields : list (FieldInfo GoValue)) :
  field ∈ fields →
  (valueSize (fieldValue field)
   ≤ foldr (λ field n, valueSize (fieldValue field) + n) O fields)%nat.
Proof.
  induction fields as [|y l IH]; [by intros ?%elem_of_nil|].
  intros [->|Hin]%elem_of_cons; simpl; [lia|]. specialize (IH Hin). lia.
Qed.

Lemma valueSize_lookup (key : string) (x : GoValue) (m : gmap string GoValue) :
  m !! key = Some x → (valueSize x ≤ map_fold (λ _ v n, valueSize v + n) O m)%nat.
Proof.
  intros Hx. rewrite (map_fold_delete_L _ _ key x m); [lia| |done].
  intros. lia.
Qed.

Lemma convertString_no_error (env : Env) (tc : TypeConverter)
    (convert : option (GoValue → Converted)) (s : string) :
  (∀ c obj, convert = Some c → (c obj).2 = None) →
  (convertString env tc convert s).2 = None.
Proof.
  intros Hconvert. unfold convertString.
  repeat match goal with
         | |- context [if ?b then _ else _] => destruct b
         | |- context [match time_Parse ?e ?l ?s with _ => _ end] =>
             destruct (time_Parse e l s)
         | |- context [match json_Unmarshal ?e ?s with _ => _ end] =>
             destruct (json_Unmarshal e s)
         | |- context [match convert with _ => _ end] => destruct convert eqn:?
         end; simpl; try done; by eapply Hconvert.
Qed.

Lemma convertSlice_loop_no_error (tc : TypeConverter) (i : nat) elementType
    (items : list Converted) (acc : list GoValue) :
  StrictMode tc = false → Forall (λ c : Converted, c.2 = None) items →
  (convertSlice_loop tc i elementType items acc).2 = None.
Proof.
  intros Hmode Hitems. revert i elementType acc.
  induction Hitems as [|[[converted itemType] err] items Herr _ IH]; intros i elementType acc;
    simpl; [done|].
  simpl in Herr. subst err. destruct i; [apply IH|].
  rewrite Hmode, andb_false_r. apply IH.
Qed.

Lemma convertSlice_no_error (tc : TypeConverter) (slice : list GoValue)
    (items : list Converted) :
  StrictMode tc = false → Forall (λ c : Converted, c.2 = None) items →
  (convertSlice tc slice items).2 = None.
Proof.
  intros Hmode Hitems. unfold convertSlice. destruct slice; [done|].
  by apply convertSlice_loop_no_error.
Qed.

Lemma first_error_None {K} (entries : list (K * Converted)) :
  Forall (λ kc, kc.2.2 = None) entries → first_error entries = None.
Proof.
  induction 1 as [|[key [[converted itemType] err]] entries Herr _ IH]; simpl; [done|].
  simpl in Herr. by subst err.
Qed.

Lemma first_error_fmap (f : GoValue → Converted) (m : gmap string GoValue) :
  (∀ key v, m !! key = Some v → (f v).2 = None) →
  first_error (map_to_list (f <$> m)) = None.
Proof.
  intros Hf. apply first_error_None. rewrite map_to_list_fmap.
  apply Forall_fmap, Forall_forall. intros [key v] Hin%elem_of_map_to_list. simpl.
  by eapply Hf.
Qed.

Lemma convertStruct_loop_no_error (fields : list (FieldInfo Converted)) structMap :
  Forall (λ field, (fieldValue field).2 = None) fields →
  (convertStruct_loop fields structMap).2 = None.
Proof.
  intros Hfields. revert structMap.
  induction Hfields as [|field fields Herr _ IH]; intros structMap; simpl; [done|].
  destruct (negb _); [apply IH|].
  match goal with
  | |- context [let (_, _) := ?x in _] =>
      change x with (fieldValue field); destruct (fieldValue field) as [[converted itemType] err]
  end.
  simpl in Herr. subst err. apply IH.
Qed.

Lemma ConvertGoValueToKuzu_at_no_error (env : Env) (tc : TypeConverter) (depth : nat)
    (value : GoValue) :
  StrictMode tc = false → (ConvertGoValueToKuzu_at env tc depth value).2 = None.
Proof.
  intros Hmode. revert value. induction depth as [|depth IHdepth].
  all: intros value; remember (valueSize value) as n eqn:Hn; revert value Hn.
  all: induction (lt_wf n) as [n _ IH]; intros value ->.
  all: destruct value as [ |s| | | | | | | | | | | | | |t|l|m|[elem|]|fields|l| ];
    try reflexivity; simpl.
  all: try (apply convertString_no_error; intros c obj [= <-]; apply IHdepth).
  all: try (apply convertString_no_error; intros c obj [=]).
  all: try (unfold convertTime; by destruct (_ && _)).
  all: try (apply convertSlice_no_error; [done|]; apply Forall_fmap, Forall_forall;
            intros x Hx; apply valueSize_elem in Hx;
            eapply (IH (valueSize x)); [simpl; lia|done]).
  all: try (unfold convertMap; rewrite first_error_fmap; [done|];
            intros key v Hv; apply valueSize_lookup in Hv;
            eapply (IH (valueSize v)); [simpl; lia|done]).
  all: try (eapply (IH (valueSize elem)); [simpl; lia|done]).
  all: try (apply convertStruct_loop_no_error, Forall_fmap, Forall_forall;
            intros field Hfield; apply valueSize_field in Hfield;
            eapply (IH (valueSize (fieldValue field))); [simpl; lia|done]).
Qed.

(** With the converter the import uses, [ConvertProperties] succeeds. *)
Lemma ConvertProperties_no_error (env : Env) (properties : gmap string GoValue) :
  (ConvertProperties env properties).2 = None.
Proof.
  unfold ConvertProperties. rewrite first_error_fmap; [done|].
  intros key v _. by apply ConvertGoValueToKuzu_at_no_error.
Qed.

(** ** The bound on re-entries is enough

    For a JSON decoder whose results hold only strings shorter than the
    text they were decoded from, the conversion does not depend on the
    bound once the bound exceeds the longest string of the value: the
    bound chosen by [ConvertGoValueToKuzu] is never used up. *)

Lemma longestString_elem (x : GoValue) (l : list GoValue) :
  x ∈ l → (longestString x ≤ foldr (λ v n, Nat.max (longestString v) n) O l)%nat.
Proof.
  induction l as [|y l IH]; [by intros ?%elem_of_nil|].
  intros [->|Hin]%elem_of_cons; simpl; [lia|]. specialize (IH Hin). lia.
Qed.

Lemma longestString_field (field : FieldInfo GoValue) (fields : list (FieldInfo GoValue)) :
  field ∈ fields →
  (longestString (fieldValue field)
   ≤ foldr (λ field n, Nat.max (longestString (fieldValue field)) n) O fields)%nat.
Proof.
  induction fields as [|y l IH]; [by intros ?%elem_of_nil|].
  intros [->|Hin]%elem_of_cons; simpl; [lia|]. specialize (IH Hin). lia.
Qed.

Lemma longestString_lookup (key : string) (x : GoValue) (m : gmap string GoValue) :
  m !! key = Some x →
  (longestString x ≤ map_fold (λ _ v n, Nat.max (longestString v) n) O m)%nat.
Proof.
  intros Hx. rewrite (map_fold_delete_L _ _ key x m); [lia| |done].
  intros. lia.
Qed.

Lemma convertString_ext (env : Env) (tc : TypeConverter) (c1 c2 : GoValue → Converted)
    (s : string) :
  (∀ obj, json_Unmarshal env s = Some obj → c1 obj = c2 obj) →
  convertString env tc (Some c1) s = convertString env tc (Some c2) s.
Proof.
  intros Hc. unfold convertString.
  destruct (json_Unmarshal env s) as [obj|]; [|done]. by rewrite (Hc obj).
Qed.

Lemma ConvertGoValueToKuzu_at_stable (env : Env) (tc : TypeConverter) :
  (∀ s obj, json_Unmarshal env s = Some obj → (longestString obj < String.length s)%nat) →
  ∀ d1 d2 value,
    (longestString value < d1)%nat → (longestString value < d2)%nat →
    ConvertGoValueToKuzu_at env tc d1 value = ConvertGoValueToKuzu_at env tc d2 value.
Proof.
  intros Hjson. induction d1 as [|d1 IHd]; intros d2 value H1 H2; [lia|].
  destruct d2 as [|d2]; [lia|].
  remember (valueSize value) as n eqn:Hn. revert value Hn H1 H2.
  induction (lt_wf n) as [n _ IH]; intros value -> H1 H2.
  destruct value as [ |s| | | | | | | | | | | | | |t|l|m|[elem|]|fields|l| ];
    try reflexivity; simpl in *.
  - apply convertString_ext. intros obj Hobj. apply Hjson in Hobj. apply IHd; lia.
  - f_equal. apply list_fmap_ext. intros i x Hx%list_elem_of_lookup_2.
    pose proof (valueSize_elem x l Hx). pose proof (longestString_elem x l Hx).
    eapply (IH (valueSize x)); [lia|done|lia|lia].
  - f_equal. apply map_fmap_ext. intros key x Hx.
    pose proof (valueSize_lookup key x m Hx). pose proof (longestString_lookup key x m Hx).
    eapply (IH (valueSize x)); [lia|done|lia|lia].
  - eapply (IH (valueSize elem)); [lia|done|lia|lia].
  - f_equal. apply list_fmap_ext. intros i field Hfield%list_elem_of_lookup_2.
    pose proof (valueSize_field field fields Hfield).
    pose proof (longestString_field field fields Hfield).
    unfold mapField. f_equal.
    eapply (IH (valueSize (fieldValue field))); [lia|done|lia|lia].
  - f_equal. apply list_fmap_ext. intros i x Hx%list_elem_of_lookup_2.
    pose proof (valueSize_elem x l Hx). pose proof (longestString_elem x l Hx).
    eapply (IH (valueSize x)); [lia|done|lia|lia].
Qed.

(** ** The individual write path and the reserved keys *)

Lemma propertyArrays_spec (skip : string → bool) (text : GoValue → string)
    (entries : list (string * GoValue)) (keys vals : list string) :
  propertyArrays skip text entries keys vals
  = (keys ++ (filter (λ kv, skip kv.1 = false) entries).*1,
     vals ++ (text <$> (filter (λ kv, skip kv.1 = false) entries).*2)).
Proof.
  revert keys vals. induction entries as [|[key value] entries IH]; intros keys vals; simpl.
  - by rewrite !app_nil_r.
  - destruct (skip key) eqn:Hskip.
    + rewrite IH, filter_cons_False by (simpl; congruence). done.
    + rewrite IH, filter_cons_True by done. simpl. by rewrite <- !app_assoc.
Qed.

Lemma filter_prod_map {V W} (skip : string → bool) (f : V → W) (l : list (string * V)) :
  filter (λ kv, skip kv.1 = false) (prod_map id f <$> l)
  = prod_map id f <$> filter (λ kv, skip kv.1 = false) l.
Proof.
  induction l as [|[key v] l IH]; [done|]. rewrite fmap_cons.
  destruct (skip key) eqn:Hskip.
  - by rewrite !filter_cons_False by (simpl; congruence).
  - rewrite !filter_cons_True by done. rewrite fmap_cons. by f_equal.
Qed.

Lemma zip_keys_texts {V} (text : V → string) (l : list (string * V)) :
  zip l.*1 (text <$> l.*2) = (λ kv, (kv.1, text kv.2)) <$> l.
Proof. induction l as [|[key v] l IH]; simpl; [done|]. by f_equal. Qed.

Lemma isReserved_id : isReserved "id" = true.
Proof. reflexivity. Qed.

Lemma isReserved_type : isReserved "type" = true.
Proof. reflexivity. Qed.

(** The arrays built from any visit of a map whose entries are [f] of the
    node's properties. *)
Lemma propertyArrays_writesWithoutReserved (node : Node) (text : GoValue → string)
    (f : GoValue → GoValue) (entries : list (string * GoValue)) :
  entries ≡ₚ map_to_list (f <$> Properties node) →
  writesWithoutReserved node (text ∘ f)
    (MergeNodeStmt (Type_ node) (ID node) (Type_ node)
       (propertyArrays isReserved text entries [] []).1
       (propertyArrays isReserved text entries [] []).2).
Proof.
  intros Hperm. rewrite propertyArrays_spec. simpl.
  set (kept := filter (λ kv, isReserved kv.1 = false) entries).
  exists kept.*1, (text <$> kept.*2). split_and!.
  - done.
  - intros ([key v] & Hkey & Hin%list_elem_of_filter)%list_elem_of_fmap. simpl in *.
    destruct Hin as [Hin _]. rewrite <- Hkey in Hin. by rewrite isReserved_id in Hin.
  - intros ([key v] & Hkey & Hin%list_elem_of_filter)%list_elem_of_fmap. simpl in *.
    destruct Hin as [Hin _]. rewrite <- Hkey in Hin. by rewrite isReserved_type in Hin.
  - by rewrite !length_fmap.
  - rewrite zip_keys_texts. subst kept. rewrite Hperm, map_to_list_fmap.
    rewrite filter_prod_map.
    rewrite <- list_fmap_compose. apply reflexive_eq, list_fmap_ext.
    intros i [key v] _. done.
Qed.

Lemma addNode_sent (env : Env) (node : Node) (k : Kuzu) :
  ∃ new, sent (addNode env node k).2 = sent k ++ new ∧
    Forall (writesWithoutReserved node (storedText env)) new ∧
    (connected k = true → ID node ≠ "" → length new = 1%nat).
Proof.
  unfold addNode. destruct (emptyString (ID node)) eqn:Hid.
  { exists []. rewrite app_nil_r. split_and!; [done|constructor|].
    intros _ Hne. by apply emptyString_spec in Hid. }
  pose proof (ConvertProperties_no_error env (Properties node)) as Hconverted.
  unfold ConvertProperties in *.
  destruct (first_error _) as [[key e]|] eqn:Herr; [done|]. clear Hconverted.
  rewrite <- map_fmap_compose.
  set (f := (λ c : Converted, c.1.1) ∘ ConvertGoValueToKuzu env NewTypeConverter).
  set (entries := range_entries env (ranges k) (f <$> Properties node)).
  pose proof (propertyArrays_writesWithoutReserved node (propertyText env) f entries
                (range_entries_Permutation env _ _)) as Hstmt.
  destruct (propertyArrays isReserved (propertyText env) entries [] [])
    as [propKeys propValues]. simpl in Hstmt.
  unfold wrapped, Query, IsConnected. simpl.
  destruct (connected k); simpl.
  - exists [MergeNodeStmt (Type_ node) (ID node) (Type_ node) propKeys propValues].
    unfold failing_with, execute. simpl.
    destruct (engine_accepts env (sent k) _); simpl;
      (split_and!; [done|by apply Forall_singleton|done]).
  - exists []. rewrite app_nil_r. split_and!; [done|constructor|done].
Qed.

Lemma addNodeInTransaction_sent (env : Env) (node : Node) (tx : Transaction) (k : Kuzu) :
  ∃ new, sent (addNodeInTransaction env node (tx, k)).2.2 = sent k ++ new ∧
    Forall (writesWithoutReserved node (Sprint_v env)) new ∧
    (connected k = true → ID node ≠ "" → state tx = TransactionActive →
     tx_done tx = false → length new = 1%nat).
Proof.
  unfold addNodeInTransaction. destruct (emptyString (ID node)) eqn:Hid.
  { exists []. rewrite app_nil_r. split_and!; [done|constructor|].
    intros _ Hne. by apply emptyString_spec in Hid. }
  set (entries := range_entries env (ranges k) (Properties node)).
  assert (entries ≡ₚ map_to_list (id <$> Properties node)) as Hperm.
  { rewrite map_fmap_id. apply range_entries_Permutation. }
  pose proof (propertyArrays_writesWithoutReserved node (Sprint_v env) id entries Hperm)
    as Hstmt.
  destruct (propertyArrays isReserved (Sprint_v env) entries [] [])
    as [propKeys propValues]. simpl in Hstmt.
  unfold wrapped, Tx.Query, Tx.IsActive, Tx.GetState.
  destruct (state tx) eqn:Hstate; simpl;
    try (exists []; rewrite app_nil_r; split_and!; [done|constructor|by intros _ _ [=]]).
  destruct (tx_done tx) eqn:Hdone; simpl.
  { exists []. rewrite app_nil_r. split_and!; [done|constructor|by intros _ _ _ [=]]. }
  unfold Query, IsConnected. simpl. destruct (connected k); simpl.
  - exists [MergeNodeStmt (Type_ node) (ID node) (Type_ node) propKeys propValues].
    rewrite Hdone. unfold failing_with, execute. simpl.
    destruct (engine_accepts env (sent k) _); simpl;
      (split_and!; [done|by apply Forall_singleton|done]).
  - exists []. rewrite app_nil_r. split_and!; [done|constructor|done].
Qed.

(** C10.  Whatever [addNode] and [addNodeInTransaction] send for a node is
    one merge statement whose property keys are the keys of the node
    without [id] and [type], each paired with the text of its value; the
    reserved entries are left out without an error.  The statement is
    sent whenever the call gets as far as the engine. *)
Theorem individual_path_omits_reserved_keys (env : Env) (node : Node) :
  (∀ k, ∃ new, sent (addNode env node k).2 = sent k ++ new ∧
     Forall (writesWithoutReserved node (storedText env)) new ∧
     (connected k = true → ID node ≠ "" → length new = 1%nat)) ∧
  (∀ tx k, ∃ new, sent (addNodeInTransaction env node (tx, k)).2.2 = sent k ++ new ∧
     Forall (writesWithoutReserved node (Sprint_v env)) new ∧
     (connected k = true → ID node ≠ "" → state tx = TransactionActive →
      tx_done tx = false → length new = 1%nat)).
Proof.
  split.
  - intros k. apply addNode_sent.
  - intros tx k. apply addNodeInTransaction_sent.
Qed.

Lemma individual_path_omits_reserved_keys_witness :
  ∃ new, sent (addNode calmEnv taggedNode NewKuzu).2 = sent NewKuzu ++ new ∧
    Forall (writesWithoutReserved taggedNode (storedText calmEnv)) new ∧
    length new = 1%nat.
Proof.
  destruct (individual_path_omits_reserved_keys calmEnv taggedNode) as [Hnode _].
  destruct (Hnode NewKuzu) as (new & Hsent & Hnew & Hone).
  exists new. split_and!; [done|done|]. apply Hone; [reflexivity|discriminate].
Defined.

(** The node with properties [id], [type] and [age], written on both
    variants of the individual path: only [age] reaches the engine. *)
Example reserved_keys_omitted_example :
  sent (addNode calmEnv taggedNode NewKuzu).2
  = [MergeNodeStmt "Person" "n1" "Person" ["age"] ["30"]] ∧
  sent (addNodeInTransaction calmEnv taggedNode (activeTx, NewKuzu)).2.2
  = [MergeNodeStmt "Person" "n1" "Person" ["age"] ["30"]].
Proof. split; vm_compute; reflexivity. Qed.

(** ** The two write paths *)

(** C1 fails on the code.  Eleven Person nodes, of which the first has no
    properties and the second has a name: [processGraphDocument] takes the
    batched path, whose statement sets no properties because it looks at
    the first node only, so the name is not persisted; the individual
    path persists it. *)
Theorem batched_path_drops_properties :
  isLarge elevenPersons = true ∧
  sentBatched calmEnv elevenPersons
  = [CreateNodeTableStmt "Person"; CreateChunkTableStmt; CreateMentionsTableStmt;
     MergeNodesStmt "Person" false (nodeData <$> Nodes elevenPersons)] ∧
  row_properties <$> persistedNodes (sentBatched calmEnv elevenPersons) !! ("Person", "p1")
  = Some None ∧
  row_properties <$> persistedNodes (sentIndividually calmEnv elevenPersons) !! ("Person", "p1")
  = Some (Some {[ "name" := GoString "Alice" ]}).
Proof. split_and!; vm_compute; reflexivity. Qed.

(** The same divergence on the reserved keys and on the form of the
    values: the batched path hands the property map over as it is, the
    individual path drops [id] and [type] and stores the text of each
    value. *)
Example batched_path_keeps_reserved_keys :
  row_properties <$> persistedNodes (sentBatched calmEnv elevenTagged) !! ("Person", "n1")
  = Some (Some {[ "id" := GoString "other"; "type" := GoString "Robot"; "age" := GoInt 30 ]}) ∧
  row_properties <$> persistedNodes (sentIndividually calmEnv elevenTagged) !! ("Person", "n1")
  = Some (Some {[ "age" := GoString "30" ]}).
Proof. split; vm_compute; reflexivity. Qed.

(** ** To the engine and back *)

Lemma wrap_signed_small (z : Z) : -2 ^ 63 ≤ z < 2 ^ 63 → wrap_signed 64 z = z.
Proof. intros H. unfold wrap_signed. rewrite Z.mod_small; lia. Qed.

Lemma wrap_unsigned_small (z : Z) : 0 ≤ z < 2 ^ 64 → wrap_unsigned 64 z = z.
Proof. intros H. unfold wrap_unsigned. by rewrite Z.mod_small. Qed.

Lemma convertString_plain (env : Env) (tc : TypeConverter) convert (s : string) :
  isPlainString env tc s = true →
  convertString env tc convert s = (GoString s, KuzuSTRING, None).
Proof.
  unfold isPlainString, convertString.
  intros [[Hdate Htimestamp]%andb_prop Hjson]%andb_prop.
  apply negb_true_iff in Hdate, Htimestamp, Hjson. rewrite Hdate, Htimestamp.
  destruct (isJSONString s); [|done]. simpl in Hjson.
  apply bool_decide_eq_false in Hjson.
  destruct (json_Unmarshal env s) as [obj|]; [|done].
  destruct Hjson. by eexists.
Qed.

Lemma roundTrip_String (env : Env) (tc : TypeConverter) (s : string) :
  isPlainString env tc s = true → roundTrip env tc (GoString s) = (GoString s, None).
Proof.
  intros Hplain. unfold roundTrip, ConvertGoValueToKuzu. simpl.
  by rewrite convertString_plain.
Qed.

Lemma roundTrip_Time (env : Env) (tc : TypeConverter) (t : Time) :
  roundTrip env tc (GoTime t)
  = parseTime env (layoutOf tc t) (time_Format env (layoutOf tc t) t).
Proof.
  unfold roundTrip, ConvertGoValueToKuzu, layoutOf. simpl. unfold convertTime.
  by destruct (_ && _).
Qed.

(** A string that parses as a date does not come back as a string: it
    comes back as the time its date text parses to. *)
Lemma roundTrip_date_string (env : Env) (tc : TypeConverter) (s : string) (date : Time) :
  time_Parse env (DateFormat tc) s = Some date →
  roundTrip env tc (GoString s)
  = parseTime env (DateFormat tc) (time_Format env (DateFormat tc) date).
Proof.
  intros Hdate. unfold roundTrip, ConvertGoValueToKuzu. simpl.
  unfold convertString, isDateString. rewrite Hdate.
  by rewrite bool_decide_eq_true_2 by by eexists.
Qed.

(** The narrow integers and [float32] pass to the engine unchanged, and
    the way back, which expects the wide types, refuses them. *)
Lemma roundTrip_narrow (env : Env) (tc : TypeConverter) (z : Z) (f : float32) :
  roundTrip env tc (GoInt8 z) = (GoNil, Some (Errorf "cannot convert %T to int" None)) ∧
  roundTrip env tc (GoInt16 z) = (GoNil, Some (Errorf "cannot convert %T to int" None)) ∧
  roundTrip env tc (GoInt32 z) = (GoNil, Some (Errorf "cannot convert %T to int" None)) ∧
  roundTrip env tc (GoUint8 z) = (GoNil, Some (Errorf "cannot convert %T to uint" None)) ∧
  roundTrip env tc (GoUint16 z) = (GoNil, Some (Errorf "cannot convert %T to uint" None)) ∧
  roundTrip env tc (GoUint32 z) = (GoNil, Some (Errorf "cannot convert %T to uint" None)) ∧
  roundTrip env tc (GoFloat32 f) = (GoNil, Some (Errorf "cannot convert %T to float" None)).
Proof. split_and!; reflexivity. Qed.

(** C3, as stated, fails: an [int8] is a supported primitive value, and
    its way back ends in an error. *)
Lemma roundTrip_int8_fails :
  roundTrip calmEnv NewTypeConverter (GoInt8 5)
  = (GoNil, Some (Errorf "cannot convert %T to int" None)).
Proof. reflexivity. Qed.

(** C3, amended.  Booleans, [int], [int64], [uint], [uint64] and
    [float64] values and the strings that are not promoted come back as
    they were ([int] as [int64], [uint] as [uint64], the number
    unchanged); a time comes back as what [time.Parse] reads from the text
    [time.Format] printed for it under the same layout. *)
Theorem roundTrip_reproduces_wide_values (env : Env) (tc : TypeConverter) :
  (∀ b, roundTrip env tc (GoBool b) = (GoBool b, None)) ∧
  (∀ z, -2 ^ 63 ≤ z < 2 ^ 63 → roundTrip env tc (GoInt z) = (GoInt64 z, None)) ∧
  (∀ z, roundTrip env tc (GoInt64 z) = (GoInt64 z, None)) ∧
  (∀ z, 0 ≤ z < 2 ^ 64 → roundTrip env tc (GoUint z) = (GoUint64 z, None)) ∧
  (∀ z, roundTrip env tc (GoUint64 z) = (GoUint64 z, None)) ∧
  (∀ f, roundTrip env tc (GoFloat64 f) = (GoFloat64 f, None)) ∧
  (∀ s, isPlainString env tc s = true →
        roundTrip env tc (GoString s) = (GoString s, None)) ∧
  (∀ t, roundTrip env tc (GoTime t)
        = parseTime env (layoutOf tc t) (time_Format env (layoutOf tc t) t)).
Proof.
  split_and!; try reflexivity.
  - intros z Hz. unfold roundTrip, ConvertGoValueToKuzu. simpl.
    by rewrite wrap_signed_small.
  - intros z Hz. unfold roundTrip, ConvertGoValueToKuzu. simpl.
    by rewrite wrap_unsigned_small.
  - apply roundTrip_String.
  - apply roundTrip_Time.
Qed.

Lemma roundTrip_reproduces_wide_values_witness :
  roundTrip calmEnv NewTypeConverter (GoInt 42) = (GoInt64 42, None) ∧
  roundTrip calmEnv NewTypeConverter (GoString "hello") = (GoString "hello", None).
Proof.
  destruct (roundTrip_reproduces_wide_values calmEnv NewTypeConverter)
    as (_ & Hint & _ & _ & _ & _ & Hstring & _).
  split.
  - apply Hint. lia.
  - apply Hstring. reflexivity.
Defined.

(** * Further properties *)









(** ** Batches *)

Lemma batches_upto_enough {A} (size : nat) (r1 r2 : nat) (xs : list A) :
  (0 < size)%nat → (length xs ≤ r1)%nat → (length xs ≤ r2)%nat →
  batches_upto r1 size xs = batches_upto r2 size xs.
Proof.
  intros Hsize. revert r2 xs. induction r1 as [|r1 IH]; intros r2 xs H1 H2.
  - destruct xs; [|simpl in H1; lia]. by destruct r2.
  - destruct xs as [|x xs]; [by destruct r2|].
    destruct r2 as [|r2]; [simpl in H2; lia|]. simpl. f_equal.
    apply IH; rewrite length_drop; simpl in *; lia.
Qed.

Lemma batches_cons {A} (size : nat) (xs : list A) :
  (0 < size)%nat → xs ≠ [] →
  batches size xs = take size xs :: batches size (drop size xs).
Proof.
  intros Hsize Hne. unfold batches. destruct xs as [|x xs]; [done|].
  change (batches_upto (length (x :: xs)) size (x :: xs))
    with (take size (x :: xs) :: batches_upto (length xs) size (drop size (x :: xs))).
  f_equal. apply batches_upto_enough; [done|..]; rewrite ?length_drop; simpl; lia.
Qed.

Lemma batches_app_full {A} (size : nat) (xs ys : list A) :
  (0 < size)%nat → length xs = size → batches size (xs ++ ys) = xs :: batches size ys.
Proof.
  intros Hsize Hlen. rewrite batches_cons; [|done|].
  - by rewrite take_app_length', drop_app_length'.
  - destruct xs; [simpl in Hlen; lia|done].
Qed.

Lemma batches_spec {A} (size : nat) (xs : list A) :
  (0 < size)%nat →
  concat (batches size xs) = xs ∧
  Forall (λ batch, (0 < length batch ≤ size)%nat) (batches size xs).
Proof.
  intros Hsize. remember (length xs) as n eqn:Hn. revert xs Hn.
  induction (lt_wf n) as [n _ IH]; intros xs ->.
  destruct xs as [|x xs]; [by split|].
  rewrite batches_cons by done.
  destruct (IH (length (drop size (x :: xs)))) with (xs := drop size (x :: xs))
    as [Hconcat Hall]; [rewrite length_drop; simpl; lia|done|].
  split.
  - simpl concat. rewrite Hconcat. apply take_drop.
  - constructor; [|done]. rewrite length_take. simpl. lia.
Qed.

(** ** Statements sent one by one *)

Lemma SendsOne_Query (env : Env) (ctx : Context) (stmt : Stmt) :
  SendsOne id (Query env ctx stmt) stmt.
Proof.
  intros k. unfold Query, id. destruct (negb (IsConnected k)).
  { exists []. rewrite app_nil_r. split_and!; [done|by left|done]. }
  destruct (ctx_done ctx).
  { exists []. rewrite app_nil_r. split_and!; [done|by left|done]. }
  exists [stmt]. unfold failing_with, execute.
  destruct (engine_accepts env (sent k) stmt); simpl; split_and!; auto.
Qed.

Lemma SendsOne_TxQuery (env : Env) (stmt : Stmt) :
  SendsOne snd (Tx.Query env stmt) stmt.
Proof.
  intros [tx k]. unfold Tx.Query. destruct (negb (Tx.IsActive tx)).
  { exists []. simpl. rewrite app_nil_r. split_and!; [done|by left|done]. }
  destruct (tx_done tx) eqn:Hdone.
  { exists []. simpl. rewrite app_nil_r. split_and!; [done|by left|done]. }
  destruct (SendsOne_Query env (Tx.ctx (Tx.record stmt tx)) stmt k) as (new & Hsent & Hnew & Hok).
  unfold id in *. exists new.
  destruct (Query env _ stmt k) as [[e|] k']; simpl in *; split_and!; auto. done.
Qed.

Lemma SendsOne_wrapped {S} (store : S → Kuzu) format (a : Action S) (stmt : Stmt) :
  SendsOne store a stmt → SendsOne store (wrapped format a) stmt.
Proof.
  intros Ha s. destruct (Ha s) as (new & Hsent & Hnew & Hok). exists new.
  unfold wrapped. destruct (a s) as [[e|] s']; simpl in *; split_and!; auto. done.
Qed.

Lemma SendsPrefix_for_each {St A} (store : St → Kuzu) (xs : list A) (body : A → Action St)
    (stmt : A → Stmt) :
  (∀ x, x ∈ xs → SendsOne store (body x) (stmt x)) →
  SendsPrefix store (for_each xs body) (stmt <$> xs).
Proof.
  induction xs as [|x xs IH]; intros Hbody s.
  { exists O. simpl. by rewrite app_nil_r. }
  destruct (Hbody x (list_elem_of_here _ _) s) as (new & Hsent & Hnew & Hok).
  simpl. unfold and_then. destruct (body x s) as [[e|] s'] eqn:Hx; simpl in *.
  - destruct Hnew as [->| ->]; [exists O|exists 1%nat]; by rewrite Hsent.
  - rewrite (Hok eq_refl) in Hsent.
    destruct (IH (λ y Hy, Hbody y (list_elem_of_further _ _ _ Hy)) s') as (n & Hrest & Hall).
    exists (S n). rewrite Hrest, Hsent, <-app_assoc. split; [done|].
    intros H. change (stmt x :: take n (stmt <$> xs) = stmt x :: (stmt <$> xs)).
    f_equal. by apply Hall.
Qed.

(** X2.  [batchInsertNodesByType], and [batchInsertNodesByTypeInTransaction]
    with it, cut the nodes of a type into batches of at most 100, in
    order and without losing or repeating a node, and send one statement
    per batch: what reaches the engine is a prefix of these statements,
    and all of them when the call returns without error. *)
Theorem batchInsertNodesByType_batches (env : Env) (ctx : Context) (nodeType : string)
    (nodes : list Node) :
  SendsPrefix id (batchInsertNodesByType env ctx nodeType nodes)
    (nodeBatchStmt nodeType <$> batches 100 nodes) ∧
  SendsPrefix snd (batchInsertNodesByTypeInTransaction env nodeType nodes)
    (nodeBatchStmt nodeType <$> batches 100 nodes) ∧
  concat (batches 100 nodes) = nodes ∧
  Forall (λ batch, (0 < length batch ≤ 100)%nat) (batches 100 nodes).
Proof.
  destruct (batches_spec 100 nodes) as [Hconcat Hall]; [lia|].
  rewrite Forall_forall in Hall.
  split_and!; [| |done|by apply Forall_forall].
  - apply SendsPrefix_for_each. intros batch Hbatch%Hall.
    apply SendsOne_wrapped. unfold insertNodeBatch.
    destruct batch; [simpl in Hbatch; lia|]. apply SendsOne_wrapped, SendsOne_Query.
  - apply SendsPrefix_for_each. intros batch Hbatch%Hall.
    apply SendsOne_wrapped. unfold insertNodeBatchInTransaction.
    destruct batch; [simpl in Hbatch; lia|]. apply SendsOne_wrapped, SendsOne_TxQuery.
Qed.

(** ** The converters *)

Lemma ConvertProperties_dom (env : Env) (properties : gmap string GoValue) :
  dom (ConvertProperties env properties).1 = dom properties.
Proof.
  pose proof (ConvertProperties_no_error env properties) as Hok.
  unfold ConvertProperties in *. destruct (first_error _) as [[key e]|]; [done|].
  simpl. by rewrite !dom_fmap_L.
Qed.

(** X3.  [ValidatePropertyTypes] rejects nothing: the converter it uses is
    not strict, so [ConvertProperties] never fails, whatever the values;
    the converted map has the keys of the map it was given. *)
Theorem ValidatePropertyTypes_accepts_everything (env : Env)
    (properties : gmap string GoValue) :
  ValidatePropertyTypes env properties = None ∧
  (ConvertProperties env properties).2 = None ∧
  dom (ConvertProperties env properties).1 = dom properties.
Proof.
  split_and!.
  - apply ConvertProperties_no_error.
  - apply ConvertProperties_no_error.
  - apply ConvertProperties_dom.
Qed.

(** *** Type tags *)

Lemma wellTagged_ok (value : GoValue) (dataType : KuzuDataType) :
  dataType ∈ convertedTypes → wellTagged (value, dataType, None).
Proof. done. Qed.

Lemma convertString_wellTagged (env : Env) (tc : TypeConverter)
    (convert : option (GoValue → Converted)) (s : string) :
  (∀ c obj, convert = Some c → wellTagged (c obj)) →
  wellTagged (convertString env tc convert s).
Proof.
  intros Hconvert. unfold convertString.
  repeat match goal with
         | |- context [if ?b then _ else _] => destruct b
         | |- context [match time_Parse ?e ?l ?s with _ => _ end] =>
             destruct (time_Parse e l s)
         | |- context [match json_Unmarshal ?e ?s with _ => _ end] =>
             destruct (json_Unmarshal e s)
         | |- context [match convert with _ => _ end] => destruct convert eqn:?
         end; simpl;
    try (by eapply Hconvert); apply wellTagged_ok; unfold convertedTypes; set_solver.
Qed.

Lemma convertSlice_loop_wellTagged (tc : TypeConverter) (i : nat) elementType
    (items : list Converted) (acc : list GoValue) :
  wellTagged (convertSlice_loop tc i elementType items acc).
Proof.
  revert i elementType acc.
  induction items as [|[[converted itemType] [err|]] items IH]; intros i elementType acc; simpl.
  - apply wellTagged_ok. unfold convertedTypes. set_solver.
  - done.
  - destruct i; [apply IH|]. destruct (_ && _); [done|apply IH].
Qed.

Lemma convertSlice_wellTagged (tc : TypeConverter) (slice : list GoValue)
    (items : list Converted) :
  wellTagged (convertSlice tc slice items).
Proof.
  unfold convertSlice. destruct slice; [|apply convertSlice_loop_wellTagged].
  apply wellTagged_ok. unfold convertedTypes. set_solver.
Qed.

Lemma convertMap_wellTagged (items : gmap string Converted) : wellTagged (convertMap items).
Proof.
  unfold convertMap. destruct (first_error _) as [[key e]|]; [done|].
  apply wellTagged_ok. unfold convertedTypes. set_solver.
Qed.

Lemma convertStruct_loop_wellTagged (fields : list (FieldInfo Converted)) structMap :
  wellTagged (convertStruct_loop fields structMap).
Proof.
  revert structMap. induction fields as [|field fields IH]; intros structMap; simpl.
  { apply wellTagged_ok. unfold convertedTypes. set_solver. }
  destruct (negb _); [apply IH|].
  match goal with
  | |- context [let (_, _) := ?x in _] =>
      change x with (fieldValue field); destruct (fieldValue field) as [[converted itemType] [err|]]
  end; [done|apply IH].
Qed.

Lemma ConvertGoValueToKuzu_at_wellTagged (env : Env) (tc : TypeConverter) (depth : nat)
    (value : GoValue) :
  wellTagged (ConvertGoValueToKuzu_at env tc depth value).
Proof.
  revert value. induction depth as [|depth IHdepth].
  all: intros value; remember (valueSize value) as n eqn:Hn; revert value Hn.
  all: induction (lt_wf n) as [n _ IH]; intros value ->.
  all: destruct value as [ |s| | | | | | | | | | | | | |t|l|m|[elem|]|fields|l| ]; simpl.
  all: try (apply wellTagged_ok; unfold convertedTypes; set_solver).
  all: try (apply convertString_wellTagged; intros c obj [= <-]; apply IHdepth).
  all: try (apply convertString_wellTagged; intros c obj [=]).
  all: try (unfold convertTime; destruct (_ && _); apply wellTagged_ok;
            unfold convertedTypes; set_solver).
  all: try apply convertSlice_wellTagged.
  all: try apply convertMap_wellTagged.
  all: try apply convertStruct_loop_wellTagged.
  all: try (eapply (IH (valueSize elem)); [simpl; lia|done]).
Qed.

Lemma KuzuMAP_not_converted : KuzuMAP ∉ convertedTypes.
Proof.
  intros H. unfold convertedTypes in H.
  repeat (apply elem_of_cons in H as [H|H]; [discriminate H|]).
  by apply elem_of_nil in H.
Qed.

(** X4.  Whatever the value, [ConvertGoValueToKuzu] returns an error
    together with the empty type tag, or no error together with one of
    sixteen tags; MAP is not among them (a Go map is tagged STRUCT), and
    a converter that is not strict always answers with one of the
    sixteen. *)
Theorem GetKuzuTypeForGoValue_tags (env : Env) (tc : TypeConverter) (value : GoValue) :
  wellTagged (ConvertGoValueToKuzu env tc value) ∧
  GetKuzuTypeForGoValue env tc value ≠ KuzuMAP ∧
  (StrictMode tc = false → GetKuzuTypeForGoValue env tc value ∈ convertedTypes).
Proof.
  pose proof (ConvertGoValueToKuzu_at_wellTagged env tc (S (longestString value)) value) as Htag.
  unfold GetKuzuTypeForGoValue, ConvertGoValueToKuzu. split_and!; [done| |].
  - unfold wellTagged in Htag. destruct (ConvertGoValueToKuzu_at _ _ _ _) as [[v t] [e|]];
      simpl in *; [by subst t|].
    intros Heq. subst t. by apply KuzuMAP_not_converted.
  - intros Hmode. pose proof (ConvertGoValueToKuzu_at_no_error env tc
      (S (longestString value)) value Hmode) as Hok.
    unfold wellTagged in Htag. by rewrite Hok in Htag.
Qed.

(** *** Slices *)

Lemma convertSlice_loop_spec (tc : TypeConverter) (i : nat) (elementType : KuzuDataType)
    (items : list Converted) (acc : list GoValue) :
  (convertSlice_loop tc (S i) elementType items acc).2 = None ↔
  Forall (λ c : Converted, c.2 = None) items ∧
  (StrictMode tc = true → Forall (λ c : Converted, c.1.2 = elementType) items).
Proof.
  revert i acc. induction items as [|[[converted itemType] [err|]] items IH]; intros i acc; simpl.
  - split; [by split; constructor|done].
  - split; [done|]. by intros [[[=] _]%Forall_cons _].
  - destruct (negb (String.eqb elementType itemType)) eqn:Htype; simpl.
    + apply negb_true_iff, String.eqb_neq in Htype.
      destruct (StrictMode tc) eqn:Hmode; simpl.
      * split; [done|]. intros [_ Hall]. specialize (Hall eq_refl).
        apply Forall_cons in Hall as [Heq _]. simpl in Heq. by subst.
      * rewrite IH. split; intros [H1 H2]; (split; [|done]).
        -- by constructor.
        -- by apply Forall_cons in H1 as [_ ?].
    + apply negb_false_iff, String.eqb_eq in Htype. subst itemType.
      rewrite IH. split; intros [H1 H2].
      * split; [by constructor|]. intros Hmode. constructor; [done|by apply H2].
      * apply Forall_cons in H1 as [_ H1]. split; [done|].
        intros Hmode. specialize (H2 Hmode). by apply Forall_cons in H2 as [_ ?].
Qed.

Lemma convertSlice_loop_value (tc : TypeConverter) (i : nat) (elementType : KuzuDataType)
    (items : list Converted) (acc : list GoValue) :
  (convertSlice_loop tc i elementType items acc).2 = None →
  (convertSlice_loop tc i elementType items acc).1
  = (GoSlice (acc ++ ((λ c : Converted, c.1.1) <$> items)), KuzuLIST).
Proof.
  revert i elementType acc.
  induction items as [|[[converted itemType] [err|]] items IH]; intros i elementType acc; simpl.
  - by rewrite app_nil_r.
  - done.
  - destruct i.
    + intros H. rewrite (IH _ _ _ H). by rewrite <-app_assoc.
    + destruct (_ && _); [done|]. intros H. rewrite (IH _ _ _ H). by rewrite <-app_assoc.
Qed.

(** X5.  A slice is converted without error exactly when each of its
    elements is and, under a strict converter, all elements get the same
    type tag; the result is then the list of the converted elements,
    tagged LIST. *)
Theorem convertSlice_strict_mode (env : Env) (tc : TypeConverter) (depth : nat)
    (slice : list GoValue) :
  let convert := ConvertGoValueToKuzu_at env tc depth in
  ((convert (GoSlice slice)).2 = None ↔
   Forall (λ item, (convert item).2 = None) slice ∧
   (StrictMode tc = true →
    ∀ item item', item ∈ slice → item' ∈ slice → (convert item).1.2 = (convert item').1.2)) ∧
  ((convert (GoSlice slice)).2 = None →
   (convert (GoSlice slice)).1 = (GoSlice ((λ item, (convert item).1.1) <$> slice), KuzuLIST)).
Proof.
  intros convert.
  assert (convert (GoSlice slice) = convertSlice tc slice (convert <$> slice)) as ->.
  { unfold convert. by destruct depth. }
  unfold convertSlice. destruct slice as [|first rest].
  { split; [|done]. split; [|done]. intros _. split; [constructor|].
    by intros _ item item' ?%elem_of_nil. }
  rewrite fmap_cons. simpl convertSlice_loop.
  destruct (convert first) as [[converted itemType] [err|]] eqn:Hfirst.
  { split; [|done]. split; [done|]. intros [[Herr _]%Forall_cons _]. by rewrite Hfirst in Herr. }
  split.
  - rewrite convertSlice_loop_spec, Forall_fmap. split; intros [Hok Hsame].
    + split; [constructor; [by rewrite Hfirst|done]|].
      intros Hmode item item' Hitem Hitem'. specialize (Hsame Hmode).
      rewrite Forall_fmap, Forall_forall in Hsame.
      assert (∀ x, x ∈ first :: rest → (convert x).1.2 = itemType) as Htype.
      { intros x [->|Hx]%elem_of_cons; [by rewrite Hfirst|by apply Hsame]. }
      by rewrite !Htype.
    + apply Forall_cons in Hok as [_ Hok]. split; [done|].
      intros Hmode. rewrite Forall_fmap. apply Forall_forall. intros x Hx. simpl.
      rewrite (Hsame Hmode x first); [by rewrite Hfirst|by right|by left].
  - intros Hok. rewrite (convertSlice_loop_value _ _ _ _ _ Hok). simpl.
    by rewrite Hfirst, <-list_fmap_compose.
Qed.

(** *** Back from the engine *)

Lemma wrap_signed_id (w z : Z) :
  0 < w → -2 ^ (w - 1) ≤ z < 2 ^ (w - 1) → wrap_signed w z = z.
Proof.
  intros Hw Hz. unfold wrap_signed.
  assert (2 ^ w = 2 * 2 ^ (w - 1)) as Hpow.
  { rewrite <-Z.pow_succ_r by lia. f_equal. lia. }
  rewrite Z.mod_small by lia. lia.
Qed.

Lemma wrap_unsigned_id (w z : Z) : 0 ≤ z < 2 ^ w → wrap_unsigned w z = z.
Proof. intros Hz. unfold wrap_unsigned. by rewrite Z.mod_small. Qed.

(** X6.  On the way back from the engine an [int64] read under the tag
    INT8, INT16 or INT32, and a [uint64] read under UINT8, UINT16 or
    UINT32, is cut to the narrow type without an error: a value in the
    range of the narrow type comes back unchanged, any other wraps around
    (128 reads as -128 under INT8, 256 as 0 under UINT8). *)
Theorem ConvertKuzuValueToGo_narrows (env : Env) (tc : TypeConverter) (v : Z) :
  ConvertKuzuValueToGo env tc (GoInt64 v) KuzuINT8 = (GoInt8 (wrap_signed 8 v), None) ∧
  ConvertKuzuValueToGo env tc (GoInt64 v) KuzuINT16 = (GoInt16 (wrap_signed 16 v), None) ∧
  ConvertKuzuValueToGo env tc (GoInt64 v) KuzuINT32 = (GoInt32 (wrap_signed 32 v), None) ∧
  ConvertKuzuValueToGo env tc (GoInt64 v) KuzuINT64 = (GoInt64 v, None) ∧
  ConvertKuzuValueToGo env tc (GoUint64 v) KuzuUINT8 = (GoUint8 (wrap_unsigned 8 v), None) ∧
  ConvertKuzuValueToGo env tc (GoUint64 v) KuzuUINT16 = (GoUint16 (wrap_unsigned 16 v), None) ∧
  ConvertKuzuValueToGo env tc (GoUint64 v) KuzuUINT32 = (GoUint32 (wrap_unsigned 32 v), None) ∧
  ConvertKuzuValueToGo env tc (GoUint64 v) KuzuUINT64 = (GoUint64 v, None) ∧
  (∀ w, 0 < w → -2 ^ (w - 1) ≤ v < 2 ^ (w - 1) → wrap_signed w v = v) ∧
  (∀ w, 0 ≤ v < 2 ^ w → wrap_unsigned w v = v) ∧
  wrap_signed 8 128 = -128 ∧ wrap_unsigned 8 256 = 0.
Proof.
  split_and!; try reflexivity.
  - intros w. apply wrap_signed_id.
  - intros w. apply wrap_unsigned_id.
Qed.

(** ** The life of a transaction handle *)

Lemma runTxCall_final (env : Env) (call : TxCall) (tx : Transaction) (k : Kuzu) :
  isFinal tx = true → (runTxCall env call (tx, k)).2 = (tx, k).
Proof.
  unfold isFinal. intros Hfinal.
  destruct call; simpl;
    unfold Tx.Query, Tx.Commit, Tx.Rollback, Tx.Close, Tx.IsActive, Tx.GetState;
    by destruct (state tx).
Qed.

(** X7.  A handle that is Committed or RolledBack is inert: whatever
    methods are called on it and in whatever order, neither the handle
    nor the store changes and nothing reaches the engine; [Query],
    [Commit] and [Rollback] return an error, [Close] returns none. *)
Theorem final_handle_is_inert (env : Env) (calls : list TxCall) (tx : Transaction)
    (k : Kuzu) :
  isFinal tx = true →
  runTxCalls env calls (tx, k) = (tx, k) ∧
  Forall (λ call, match call with
                  | CallClose => (runTxCall env call (tx, k)).1 = None
                  | _ => (runTxCall env call (tx, k)).1 ≠ None
                  end) calls.
Proof.
  intros Hfinal. split.
  - induction calls as [|call calls IH]; [done|].
    unfold runTxCalls in *. simpl. by rewrite runTxCall_final.
  - apply Forall_true. intros call. unfold isFinal in Hfinal.
    destruct call; simpl;
      unfold Tx.Query, Tx.Commit, Tx.Rollback, Tx.Close, Tx.IsActive, Tx.GetState;
      by destruct (state tx).
Qed.

Lemma final_handle_is_inert_witness :
  runTxCalls calmEnv [CallQuery CommitStmt; CallCommit; CallRollback; CallClose]
    (Tx.setState TransactionCommitted activeTx, NewKuzu)
  = (Tx.setState TransactionCommitted activeTx, NewKuzu).
Proof.
  apply (final_handle_is_inert calmEnv
           [CallQuery CommitStmt; CallCommit; CallRollback; CallClose]
           (Tx.setState TransactionCommitted activeTx) NewKuzu).
  reflexivity.
Defined.

(** X8.  [Transaction.Close] never fails and leaves a handle that is
    neither Active nor Failed: an Active or Failed handle is rolled back,
    a Committed one is left as it is; closing twice is closing once. *)
Theorem Close_ends_the_handle (env : Env) (tx : Transaction) (k : Kuzu) :
  let closed := (Tx.Close env (tx, k)).2 in
  (Tx.Close env (tx, k)).1 = None ∧
  Tx.IsActive closed.1 = false ∧
  state closed.1 ≠ TransactionFailed ∧
  (state tx = TransactionActive ∨ state tx = TransactionFailed →
   state closed.1 = TransactionRolledBack) ∧
  (state tx = TransactionCommitted → closed = (tx, k)) ∧
  Tx.Close env closed = (None, closed).
Proof.
  unfold Tx.Close, Tx.Rollback, Tx.IsActive, Tx.GetState.
  destruct (state tx) eqn:Hstate; simpl; rewrite ?Hstate; simpl;
    split_and!; try done; try tauto; try by intros [|].
Qed.

(** X9.  [BeginTransaction] fails on a store without connection, which
    it leaves untouched.  Otherwise it returns an Active handle with an
    empty log, whatever the engine says to the begin marker, which is all
    it may send; the handle's id is always [tx_1000] and its duration
    always 0, since the clock of the package is a constant. *)
Theorem BeginTransaction_handle (env : Env) (ctx : Context)
    (opts : list (TransactionConfig → TransactionConfig)) (k : Kuzu) :
  match BeginTransaction env ctx opts k with
  | (None, err, k') => connected k = false ∧ err = Some ErrConnectionNotInitialized ∧ k' = k
  | (Some tx, err, k') =>
      connected k = true ∧ err = None ∧
      state tx = TransactionActive ∧ operations tx = [] ∧
      tx_id tx = "tx_1000" ∧ GetDuration tx = 0 ∧
      nodeTables k' = nodeTables k ∧ relTables k' = relTables k ∧
      (sent k' = sent k ∨
       sent k' = sent k ++ [BeginStmt (ReadOnly (applyOptions opts defaultConfig))])
  end.
Proof.
  unfold BeginTransaction, IsConnected. destruct (connected k) eqn:Hconnected; simpl; [|done].
  split_and!; try done.
  all: destruct (Query_effect env
         (Tx.ctx {| tx_id := generateTransactionID; state := TransactionActive;
                    tx_done := ctx_done ctx; operations := [];
                    startedAt := getCurrentTimestamp |})
         (BeginStmt (ReadOnly (applyOptions opts defaultConfig))) k)
       as (new & Hnew & Hsent & Hnodes & Hrels); try done.
  rewrite Hsent. destruct Hnew as [->| ->]; [left; by rewrite app_nil_r|by right].
Qed.

(** X10.  [RunInTransaction] leaves no handle open: when the transaction
    could begin, the handle ends neither Active nor Failed, whatever the
    inner function did and returned, and it ends Committed when the call
    returns no error; when the store has no connection the call fails and
    the store is untouched. *)
Theorem RunInTransaction_closes_the_handle (env : Env) (ctx : Context)
    (fn : Action (Transaction * Kuzu))
    (opts : list (TransactionConfig → TransactionConfig)) (k : Kuzu) :
  match RunInTransaction env ctx fn opts k with
  | (result, None, k') => connected k = false ∧ result ≠ None ∧ k' = k
  | (result, Some tx, k') =>
      connected k = true ∧
      Tx.IsActive tx = false ∧ state tx ≠ TransactionFailed ∧
      (result = None → state tx = TransactionCommitted)
  end.
Proof.
  unfold RunInTransaction, BeginTransaction, IsConnected.
  destruct (connected k) eqn:Hconnected; simpl; [|done].
  match goal with |- context [fn ?s] => destruct (fn s) as [[err|] [tx1 k1]] end.
  - unfold Tx.Rollback, Tx.Close, Tx.IsActive, Tx.GetState.
    destruct (state tx1) eqn:Hstate; simpl; rewrite ?Hstate; simpl; rewrite ?Hstate;
      by split_and!.
  - unfold wrapped, Tx.Commit, Tx.Rollback, Tx.Close, Tx.IsActive, Tx.GetState.
    destruct (state tx1) eqn:Hstate;
      repeat first [progress simpl | progress rewrite Hstate
                   | progress unfold Tx.Rollback, Tx.GetState];
      by split_and!.
Qed.

(** X11.  [RunInTransaction] returns no error exactly when the
    transaction could begin, the inner function returned no error and it
    left the handle Active. *)
Theorem RunInTransaction_commits (env : Env) (ctx : Context)
    (fn : Action (Transaction * Kuzu))
    (opts : list (TransactionConfig → TransactionConfig)) (k : Kuzu) :
  (RunInTransaction env ctx fn opts k).1.1 = None ↔
  ∃ tx k', BeginTransaction env ctx opts k = (Some tx, None, k') ∧
           (fn (tx, k')).1 = None ∧ state (fn (tx, k')).2.1 = TransactionActive.
Proof.
  unfold RunInTransaction, BeginTransaction, IsConnected.
  destruct (connected k) eqn:Hconnected; simpl.
  2: { split; [done|]. by intros (tx & k' & [=] & _). }
  split.
  - intros Hok. eexists _, _. split; [reflexivity|]. revert Hok.
    match goal with |- context [fn ?s] => destruct (fn s) as [[err|] [tx1 k1]] end; simpl.
    + unfold Tx.Rollback, Tx.Close, Tx.GetState.
      destruct (state tx1) eqn:Hstate;
        repeat first [progress simpl | progress rewrite Hstate
                     | progress unfold Tx.Rollback, Tx.GetState];
        done.
    + unfold wrapped, Tx.Commit, Tx.Close, Tx.IsActive, Tx.GetState.
      destruct (state tx1) eqn:Hstate;
        repeat first [progress simpl | progress rewrite Hstate
                     | progress unfold Tx.Rollback, Tx.GetState];
        done.
  - intros (tx & k' & [= <- <-] & Hfn & Hstate). revert Hfn Hstate.
    match goal with |- context [fn ?s] => destruct (fn s) as [[err|] [tx1 k1]] end; simpl;
      [done|].
    intros _ Hstate.
    unfold wrapped, Tx.Commit, Tx.Close, Tx.IsActive, Tx.GetState. by rewrite Hstate.
Qed.

(** X12.  [Transaction.Query] on an Active handle either succeeds (the
    engine accepted the statement, which is sent and logged, and the
    handle stays Active) or marks the handle Failed; on a handle that is
    not Active it fails and changes nothing; whatever it sends to the
    engine it has logged. *)
Theorem TxQuery_outcome (env : Env) (stmt : Stmt) (tx : Transaction) (k : Kuzu) :
  let result := Tx.Query env stmt (tx, k) in
  (result.1 = None →
   state result.2.1 = TransactionActive ∧
   operations result.2.1 = operations tx ++ [stmt] ∧
   sent result.2.2 = sent k ++ [stmt] ∧
   engine_accepts env (sent k) stmt = true) ∧
  (result.1 ≠ None → Tx.IsActive tx = true → state result.2.1 = TransactionFailed) ∧
  (Tx.IsActive tx = false → result.1 ≠ None ∧ result.2 = (tx, k)) ∧
  (sent result.2.2 ≠ sent k →
   sent result.2.2 = sent k ++ [stmt] ∧ operations result.2.1 = operations tx ++ [stmt]).
Proof.
  unfold Tx.Query, Tx.IsActive, Tx.GetState.
  destruct (state tx) eqn:Hstate; simpl; try by split_and!.
  destruct (tx_done tx) eqn:Hdone; simpl; [by split_and!|].
  unfold Query, IsConnected. destruct (connected k); simpl; [|by split_and!].
  rewrite Hdone. unfold failing_with, execute.
  destruct (engine_accepts env (sent k) stmt); simpl; by split_and!.
Qed.

(** ** Schema introspection *)

Lemma updateStructuredSchema_size (env : Env) nodeTables relTables (k : Kuzu) :
  size (structuredSchema (updateStructuredSchema env nodeTables relTables k)) = 3%nat.
Proof.
  unfold updateStructuredSchema. simpl.
  rewrite !map_size_insert_None; [by rewrite map_size_singleton|done..].
Qed.

Lemma getAllTablesInfo_no_error (env : Env) (read : Reader) (ctx : Context) (k : Kuzu) :
  (getAllTablesInfo env read ctx k).1.2 = None.
Proof.
  unfold getAllTablesInfo.
  by destruct (Rows.Query env read ctx _ k) as [[[result|] [err|]] k'].
Qed.

Lemma introspectSchema_no_error (env : Env) (read : Reader) (k : Kuzu) :
  (introspectSchema env read k).1 = None.
Proof.
  unfold introspectSchema.
  pose proof (getAllTablesInfo_no_error env read Background k) as Hok.
  destruct (getAllTablesInfo env read Background k) as [[tables [err|]] k']; [done|].
  by destruct (introspect_loop env read tables ∅ ∅ k') as [[nodeTables relTables] k''].
Qed.

Lemma introspectSchema_size (env : Env) (read : Reader) (k : Kuzu) :
  size (structuredSchema (introspectSchema env read k).2) = 3%nat.
Proof.
  unfold introspectSchema.
  pose proof (getAllTablesInfo_no_error env read Background k) as Hok.
  destruct (getAllTablesInfo env read Background k) as [[tables [err|]] k']; [done|].
  destruct (introspect_loop env read tables ∅ ∅ k') as [[nodeTables relTables] k''].
  apply updateStructuredSchema_size.
Qed.

(** X13.  The introspection of the schema cannot fail: [getAllTablesInfo],
    [GetTableList], [TableExists], [introspectSchema] and
    [CompareSchemas] return no error for any engine and any store,
    connected or not, and [ValidateSchema] never reports that the table
    list could not be read. *)
Theorem schema_introspection_never_fails (env : Env) (read : Reader) (ctx : Context)
    (k : Kuzu) :
  (getAllTablesInfo env read ctx k).1.2 = None ∧
  (GetTableList env read ctx k).1.2 = None ∧
  (∀ name, (TableExists env read ctx name k).1.2 = None) ∧
  (introspectSchema env read k).1 = None ∧
  (CompareSchemas env read ctx k).1.2 = None ∧
  (∀ e, (ValidateSchema env read ctx k).1 ≠ Some (Errorf "failed to get table list: %w" e)).
Proof.
  pose proof (getAllTablesInfo_no_error env read ctx k) as Hok.
  split_and!.
  - done.
  - unfold GetTableList. by destruct (getAllTablesInfo env read ctx k) as [[tables [err|]] k'].
  - intros name. unfold TableExists.
    by destruct (getAllTablesInfo env read ctx k) as [[tables [err|]] k'].
  - apply introspectSchema_no_error.
  - unfold CompareSchemas. pose proof (introspectSchema_no_error env read k) as Hi.
    destruct (introspectSchema env read k) as [[err|] k']; [done|]. by destruct (negb _).
  - intros e. unfold ValidateSchema.
    destruct (getAllTablesInfo env read ctx k) as [[tables [err|]] k']; [done|].
    destruct tables as [|table tables]; [done|].
    generalize (table :: tables). clear. intros tables. revert k'.
    induction tables as [|t tables IH]; intros k; simpl; [done|].
    unfold and_then. destruct (Rows.Query env read ctx _ k) as [[result [err|]] k'']; [done|].
    apply IH.
Qed.

(** X14.  [CompareSchemas] answers [true] exactly when the snapshot held
    has three entries, whatever they are: it then puts that snapshot
    back; when it answers [false] the store keeps the snapshot that was
    just introspected. *)
Theorem CompareSchemas_counts_keys (env : Env) (read : Reader) (ctx : Context) (k : Kuzu) :
  let result := CompareSchemas env read ctx k in
  result.1.1 = bool_decide (size (structuredSchema k) = 3%nat) ∧
  (result.1.1 = true → structuredSchema result.2 = structuredSchema k) ∧
  (result.1.1 = false →
   structuredSchema result.2 = structuredSchema (introspectSchema env read k).2).
Proof.
  unfold CompareSchemas.
  pose proof (introspectSchema_no_error env read k) as Hok.
  pose proof (introspectSchema_size env read k) as Hsize.
  destruct (introspectSchema env read k) as [[err|] k']; [done|]. simpl in *.
  rewrite Hsize. destruct (size (structuredSchema k) =? 3)%nat eqn:Heq; simpl.
  - apply Nat.eqb_eq in Heq. rewrite bool_decide_eq_true_2 by done. by split_and!.
  - apply Nat.eqb_neq in Heq. rewrite bool_decide_eq_false_2 by done. by split_and!.
Qed.

Lemma RowsQuery_tables (env : Env) (read : Reader) (ctx : Context) (stmt : Stmt) (k : Kuzu) :
  nodeTables (Rows.Query env read ctx stmt k).2 = nodeTables k ∧
  relTables (Rows.Query env read ctx stmt k).2 = relTables k.
Proof.
  unfold Rows.Query.
  destruct (Query_effect env ctx stmt k) as (new & _ & _ & Hnodes & Hrels).
  destruct (Query env ctx stmt k) as [[err|] k']; [done|].
  by destruct (answer_error _).
Qed.

Lemma existsb_tableName (name : string) (tables : list TableInfo) :
  existsb (λ table, String.eqb (tableName table) name) tables
  = bool_decide (name ∈ tableName <$> tables).
Proof.
  induction tables as [|table tables IH].
  { symmetry. apply bool_decide_eq_false_2. by intros ?%elem_of_nil. }
  rewrite fmap_cons. cbn [existsb]. rewrite IH.
  destruct (String.eqb (tableName table) name) eqn:Heq; cbn [orb].
  - apply String.eqb_eq in Heq. symmetry. apply bool_decide_eq_true_2.
    apply elem_of_cons. by left.
  - apply String.eqb_neq in Heq. apply bool_decide_ext. rewrite elem_of_cons.
    split; [by right|]. by intros [?|?].
Qed.

Lemma getTablesInfoAlternative_names (env : Env) (k : Kuzu) :
  tableName <$> (getTablesInfoAlternative env k).1.1
  ≡ₚ (map_to_list (nodeTables k)).*1 ++ (map_to_list (relTables k)).*1.
Proof.
  unfold getTablesInfoAlternative. simpl. rewrite fmap_app, <-!list_fmap_compose.
  apply Permutation_app.
  - rewrite (fmap_Permutation _ _ _ (range_entries_Permutation env _ (nodeTables k))).
    done.
  - rewrite (fmap_Permutation _ _ _ (range_entries_Permutation env _ (relTables k))).
    done.
Qed.

(** X15.  When the [SHOW TABLES] query fails (no connection, a context
    that is done, a rejection by the engine, a result that cannot be
    read), [TableExists] and [GetTableList] answer from the table caches:
    a table exists exactly when its name is a key of [nodeTables] or of
    [relTables], and the list is made of these keys. *)
Theorem TableExists_falls_back_to_cache (env : Env) (read : Reader) (ctx : Context)
    (name : string) (k : Kuzu) :
  (Rows.Query env read ctx (QueryStmt "SHOW TABLES;" ∅) k).1.2 ≠ None →
  (TableExists env read ctx name k).1
  = (bool_decide (name ∈ dom (nodeTables k) ∨ name ∈ dom (relTables k)), None) ∧
  (GetTableList env read ctx k).1.1
  ≡ₚ (map_to_list (nodeTables k)).*1 ++ (map_to_list (relTables k)).*1.
Proof.
  intros Hfail. unfold TableExists, GetTableList, getAllTablesInfo.
  destruct (RowsQuery_tables env read ctx (QueryStmt "SHOW TABLES;" ∅) k) as [Hnodes Hrels].
  destruct (Rows.Query env read ctx _ k) as [[[result|] [err|]] k']; try done.
  all: cbn [fst snd] in *.
  all: pose proof (getTablesInfoAlternative_names env k') as Hnames.
  all: rewrite Hnodes, Hrels in Hnames.
  all: destruct (getTablesInfoAlternative env k') as [[tables err'] k''] eqn:Halt.
  all: assert (err' = None) as ->
         by (unfold getTablesInfoAlternative in Halt; by injection Halt).
  all: cbn [fst snd] in *; split; [|done].
  all: rewrite existsb_tableName; f_equal; apply bool_decide_ext.
  all: rewrite Hnames, elem_of_app, !elem_of_dom.
  all: split; intros [H|H]; [left|right|left|right].
  all: try (apply list_elem_of_fmap in H as ([key v] & -> & Hin%elem_of_map_to_list);
            by exists v).
  all: destruct H as [v Hv]; apply list_elem_of_fmap; exists (name, v);
         split; [done|]; by apply elem_of_map_to_list.
Qed.

Lemma TableExists_falls_back_to_cache_witness :
  (Rows.Query calmEnv quietReader Background (QueryStmt "SHOW TABLES;" ∅) closedStore).1.2
  = Some ErrConnectionNotInitialized ∧
  (TableExists calmEnv quietReader Background "Person" closedStore).1
  = (bool_decide ("Person" ∈ dom (nodeTables closedStore)
                  ∨ "Person" ∈ dom (relTables closedStore)), None).
Proof.
  split; [reflexivity|].
  apply (TableExists_falls_back_to_cache calmEnv quietReader Background "Person" closedStore).
  discriminate.
Defined.

Lemma range_entries_empty {V} (env : Env) (n : nat) : range_entries env n (∅ : gmap string V) = [].
Proof.
  unfold range_entries. rewrite map_to_list_empty. simpl.
  pose proof (range_order_perm env n []) as Hperm.
  apply Permutation_nil_r in Hperm. by rewrite Hperm.
Qed.

Lemma range_entries_length {V} (env : Env) (n : nat) (m : gmap string V) :
  length (range_entries env n m) = size m.
Proof.
  rewrite (Permutation_length (range_entries_Permutation env n m)).
  by rewrite length_map_to_list.
Qed.

Lemma introspect_loop_node_tables (env : Env) (read : Reader) (tables : list TableInfo)
    nodeTables relTables (k : Kuzu) :
  Forall (λ table, isNodeTable table = true) tables →
  (introspect_loop env read tables nodeTables relTables k).1.2 = relTables.
Proof.
  intros Hall. revert nodeTables k.
  induction Hall as [|table tables Hnode _ IH]; intros nodeTables k; simpl; [done|].
  rewrite Hnode.
  destruct (getTableProperties env read Background (tableName table) k)
    as [[props [err|]] k']; apply IH.
Qed.

Lemma tablesOf_node_tables (rows : list QueryRecord) :
  Forall (λ table, isNodeTable table = true) (tablesOf rows).
Proof.
  unfold tablesOf. induction rows as [|record rows IH]; simpl; [constructor|].
  destruct (record !! "table_name") as [[]|]; simpl; try done. by constructor.
Qed.

Lemma updateStructuredSchema_snapshot (env : Env) nodeTables relTables (k : Kuzu) :
  ∃ nodeTypes relTypes,
    structuredSchema (updateStructuredSchema env nodeTables relTables k)
    = {[ "node_types" := GoArray nodeTypes;
         "relationship_types" := GoArray relTypes;
         "total_tables" := GoInt (Z.of_nat (size nodeTables) + Z.of_nat (size relTables)) ]} ∧
    length nodeTypes = size nodeTables ∧ length relTypes = size relTables.
Proof.
  unfold updateStructuredSchema. eexists _, _. split_and!; [reflexivity|..].
  - by rewrite length_fmap, range_entries_length.
  - by rewrite length_fmap, range_entries_length.
Qed.

Lemma introspectSchema_snapshot (env : Env) (read : Reader) (k : Kuzu) (tables : list TableInfo)
    (k' : Kuzu) :
  getAllTablesInfo env read Background k = (tables, None, k') →
  Forall (λ table, isNodeTable table = true) tables →
  ∃ nodeTypes,
    structuredSchema (introspectSchema env read k).2
    = {[ "node_types" := GoArray nodeTypes;
         "relationship_types" := GoArray [];
         "total_tables" := GoInt (Z.of_nat (length nodeTypes)) ]}.
Proof.
  intros Htables Hall. unfold introspectSchema. rewrite Htables.
  pose proof (introspect_loop_node_tables env read tables ∅ ∅ k' Hall) as Hrels.
  destruct (introspect_loop env read tables ∅ ∅ k') as [[nodeTables relTables] k''].
  simpl in Hrels. subst relTables.
  destruct (updateStructuredSchema_snapshot env nodeTables ∅ k'')
    as (nodeTypes & relTypes & Hschema & Hnodes & Hrels).
  exists nodeTypes. cbn [snd]. rewrite Hschema.
  rewrite map_size_empty in Hrels. apply nil_length_inv in Hrels. subst relTypes.
  by rewrite map_size_empty, Z.add_0_r, Hnodes.
Qed.

Lemma introspectSchema_show_tables (env : Env) (read : Reader) (k : Kuzu) :
  (Rows.Query env read Background (QueryStmt "SHOW TABLES;" ∅) k).1.2 = None →
  ∃ nodeTypes,
    structuredSchema (introspectSchema env read k).2
    = {[ "node_types" := GoArray nodeTypes;
         "relationship_types" := GoArray [];
         "total_tables" := GoInt (Z.of_nat (length nodeTypes)) ]}.
Proof.
  intros Hshow.
  destruct (getAllTablesInfo env read Background k) as [[tables err] k'] eqn:Htables.
  pose proof (getAllTablesInfo_no_error env read Background k) as Herr.
  rewrite Htables in Herr. simpl in Herr. subst err.
  apply (introspectSchema_snapshot env read k tables k' Htables).
  unfold getAllTablesInfo in Htables.
  destruct (Rows.Query env read Background _ k) as [[[result|] [err|]] k'']; try done.
  - injection Htables as <- _. apply tablesOf_node_tables.
  - injection Htables as <- _. constructor.
Qed.

(** X16.  When the [SHOW TABLES] query succeeds, [introspectSchema] takes
    every table for a node table: the snapshot it writes has an empty
    list of relationship types, and [total_tables] counts the node types
    listed. *)
Theorem introspectSchema_finds_no_relationships (env : Env) (read : Reader) (k : Kuzu) :
  (Rows.Query env read Background (QueryStmt "SHOW TABLES;" ∅) k).1.2 = None →
  ∃ nodeTypes,
    structuredSchema (introspectSchema env read k).2
    = {[ "node_types" := GoArray nodeTypes;
         "relationship_types" := GoArray [];
         "total_tables" := GoInt (Z.of_nat (length nodeTypes)) ]}.
Proof. apply introspectSchema_show_tables. Qed.

Lemma introspectSchema_finds_no_relationships_witness :
  ∃ nodeTypes,
    structuredSchema (introspectSchema calmEnv quietReader NewKuzu).2
    = {[ "node_types" := GoArray nodeTypes;
         "relationship_types" := GoArray [];
         "total_tables" := GoInt (Z.of_nat (length nodeTypes)) ]}.
Proof.
  apply (introspectSchema_finds_no_relationships calmEnv quietReader NewKuzu). reflexivity.
Defined.

Lemma convertedValue_text (env : Env) (value : GoValue) :
  Rows.convertedValue env value = valueText env value.
Proof. by destruct value. Qed.

(** X17.  [QueryWithTypes] returns the rows of [Query] with every value
    but nil replaced by its text ([%v]): the conversion it applies is the
    one to STRING, which cannot fail. *)
Theorem QueryWithTypes_returns_text (env : Env) (read : Reader) (ctx : Context) (stmt : Stmt)
    (k : Kuzu) :
  Rows.QueryWithTypes env read ctx stmt k
  = match Rows.Query env read ctx stmt k with
    | (Some result, None, k') =>
        (Some {| records := (λ record : gmap string GoValue, valueText env <$> record)
                            <$> records result;
                 number_of_rows := number_of_rows result |}, None, k')
    | (_, err, k') => (None, err, k')
    end.
Proof.
  unfold Rows.QueryWithTypes.
  destruct (Rows.Query env read ctx stmt k) as [[[result|] [err|]] k']; try done.
  do 3 f_equal. f_equal. apply list_fmap_ext. intros _ record _.
  apply map_fmap_ext. intros key value _. apply convertedValue_text.
Qed.

(** ** The fingerprint of a snapshot *)

Lemma range_entries_keys {V} (env : Env) (n : nat) (m : gmap string V) :
  (range_entries env n m).*1 = range_order env n (map_to_list m).*1.
Proof.
  unfold range_entries.
  assert (∀ key, key ∈ range_order env n (map_to_list m).*1 → is_Some (m !! key)) as Hkeys.
  { intros key. rewrite range_order_perm. intros ([key' v] & -> & Hin)%list_elem_of_fmap.
    apply elem_of_map_to_list in Hin. by exists v. }
  induction (range_order env n (map_to_list m).*1) as [|key keys IH]; [done|]. simpl.
  destruct (Hkeys key) as [v Hv]; [by left|]. rewrite Hv. simpl. f_equal.
  apply IH. intros key' Hin. apply Hkeys. by right.
Qed.

Lemma snapshot_keys (nodeTypes relTypes total : GoValue) :
  (map_to_list ({[ "node_types" := nodeTypes; "relationship_types" := relTypes;
                   "total_tables" := total ]} : gmap string GoValue)).*1
  = (map_to_list ({[ "node_types" := GoNil; "relationship_types" := GoNil;
                     "total_tables" := GoNil ]} : gmap string GoValue)).*1.
Proof. reflexivity. Qed.

Lemma schemaHash_keys (env : Env) (entries : list (string * GoValue)) (hash : Z) :
  Forall (λ entry, ∀ str, entry.2 ≠ GoString str) entries →
  foldl (schemaHash_step env) hash entries
  = foldl (λ hash key, int_add_mul31 hash (len key)) hash entries.*1.
Proof.
  intros Hall. revert hash.
  induction Hall as [|[key value] entries Hvalue _ IH]; intros hash; simpl; [done|].
  rewrite <-IH. f_equal. unfold schemaHash_step. simpl in *.
  destruct value; try done. by destruct (Hvalue s).
Qed.

Lemma snapshot_no_strings (env : Env) (n : nat) (nodeTypes relTypes : list GoValue) (total : Z) :
  Forall (λ entry : string * GoValue, ∀ str, entry.2 ≠ GoString str)
    (range_entries env n ({[ "node_types" := GoArray nodeTypes;
                             "relationship_types" := GoArray relTypes;
                             "total_tables" := GoInt total ]} : gmap string GoValue)).
Proof.
  apply Forall_forall. intros [key value] Hin str.
  rewrite range_entries_Permutation in Hin. apply elem_of_map_to_list in Hin.
  simpl. intros ->.
  apply lookup_insert_Some in Hin as [[_ [=]]|[_ Hin]].
  apply lookup_insert_Some in Hin as [[_ [=]]|[_ Hin]].
  by apply lookup_singleton_Some in Hin as [_ [=]].
Qed.

(** The six ways to visit three entries. *)
Lemma Permutation_three {A} (a b c : A) (l : list A) :
  l ≡ₚ [a; b; c] →
  l = [a; b; c] ∨ l = [a; c; b] ∨ l = [b; a; c] ∨ l = [b; c; a] ∨ l = [c; a; b]
  ∨ l = [c; b; a].
Proof.
  intros Hperm. pose proof (Permutation_length Hperm) as Hlen.
  destruct l as [|x [|y [|z [|? ?]]]]; try discriminate. clear Hlen.
  symmetry in Hperm.
  apply Permutation_cons_inv_r in Hperm as (l1 & l2 & Hsplit & Hperm).
  destruct l1 as [|x' l1]; injection Hsplit as -> Hsplit.
  - subst l2. apply Permutation_length_2_inv in Hperm as [[= -> ->]|[= -> ->]]; tauto.
  - destruct l1 as [|y' l1]; injection Hsplit as -> Hsplit.
    + subst l2. simpl in Hperm.
      apply Permutation_length_2_inv in Hperm as [[= -> ->]|[= -> ->]]; tauto.
    + destruct l1 as [|? ?]; [|by destruct l1]. injection Hsplit as -> ->. simpl in Hperm.
      apply Permutation_length_2_inv in Hperm as [[= -> ->]|[= -> ->]]; tauto.
Qed.

(** X18.  [GetSchemaVersion] cannot tell two schemas apart.  Whatever
    tables a snapshot written by [updateStructuredSchema] lists, and at
    whatever iteration of the run the fingerprint is taken, the loop
    visits the three keys of the snapshot in some order, and the
    fingerprint is the hash of the lengths of the keys in that order: the
    values of the snapshot are no strings and do not enter it.  So the
    fingerprint is one of six texts, and two snapshots whose keys are
    visited in the same order have the same fingerprint, whatever they
    hold; which order it is, Go leaves open from one call to the next. *)
Theorem GetSchemaVersion_ignores_the_tables (env : Env)
    (nodeTables nodeTables' : gmap string (list PropertyInfo))
    (relTables relTables' : gmap string RelationshipInfo) (k k' : Kuzu) (n n' : nat) :
  let held := set_ranges n (updateStructuredSchema env nodeTables relTables k) in
  let held' := set_ranges n' (updateStructuredSchema env nodeTables' relTables' k') in
  let visited := (range_entries env n (structuredSchema held)).*1 in
  let visited' := (range_entries env n' (structuredSchema held')).*1 in
  visited ≡ₚ ["node_types"; "relationship_types"; "total_tables"] ∧
  (GetSchemaVersion env held).1
  = "v" +:+ itoa (foldl (λ hash key, int_add_mul31 hash (len key)) 0 visited) ∧
  (GetSchemaVersion env held).1
  ∈ ["v10180"; "v10000"; "v17620"; "v17680"; "v11860"; "v12100"] ∧
  (visited = visited' → (GetSchemaVersion env held).1 = (GetSchemaVersion env held').1).
Proof.
  intros held held' visited visited'.
  assert (visited ≡ₚ ["node_types"; "relationship_types"; "total_tables"]) as Hperm.
  { subst visited held. unfold updateStructuredSchema.
    cbn [structuredSchema set_ranges set_structuredSchema].
    by rewrite range_entries_keys, range_order_perm, snapshot_keys. }
  assert (∀ tables rels store m,
    (GetSchemaVersion env (set_ranges m (updateStructuredSchema env tables rels store))).1
    = "v" +:+ itoa (foldl (λ hash key, int_add_mul31 hash (len key)) 0
        (range_entries env m
           (structuredSchema
              (set_ranges m (updateStructuredSchema env tables rels store)))).*1))
    as Hhash.
  { intros tables rels store m.
    unfold GetSchemaVersion, schemaVersion_of, updateStructuredSchema.
    cbn [fst ranges structuredSchema set_ranges set_structuredSchema].
    by rewrite schemaHash_keys by apply snapshot_no_strings. }
  assert ((GetSchemaVersion env held).1
          = "v" +:+ itoa (foldl (λ hash key, int_add_mul31 hash (len key)) 0 visited))
    as Hheld by apply Hhash.
  assert ((GetSchemaVersion env held').1
          = "v" +:+ itoa (foldl (λ hash key, int_add_mul31 hash (len key)) 0 visited'))
    as Hheld' by apply Hhash.
  split_and!; [done|done| |].
  - rewrite Hheld.
    destruct (Permutation_three _ _ _ _ Hperm) as [->|[->|[->|[->|[->| ->]]]]];
      match goal with
      | |- ?version ∈ ?versions =>
          let v := eval vm_compute in version in change (v ∈ versions)
      end;
      repeat first [apply list_elem_of_here | apply list_elem_of_further].
  - intros Hsame. by rewrite Hheld, Hheld', Hsame.
Qed.

(** ** The table cache *)

Section table_cache.
Context (env : Env).

Lemma Keeps_execute tables (stmt : Stmt) :
  (∀ k, tables (execute env stmt k).2 = tables k) → Keeps tables (execute env stmt).
Proof. intros H k key. by rewrite H. Qed.

Lemma Keeps_and_then tables (a b : Action Kuzu) :
  Keeps tables a → Keeps tables b → Keeps tables (a ;> b).
Proof.
  intros Ha Hb k key Hkey. unfold and_then. specialize (Ha k key Hkey).
  destruct (a k) as [[e|] k']; [done|]. by apply Hb.
Qed.

Lemma Keeps_wrapped tables format (a : Action Kuzu) : Keeps tables a → Keeps tables (wrapped format a).
Proof.
  intros Ha k key Hkey. unfold wrapped. specialize (Ha k key Hkey).
  by destruct (a k) as [[e|] k'].
Qed.

Lemma Keeps_for_each {A} tables (xs : list A) (body : A → Action Kuzu) :
  (∀ x, Keeps tables (body x)) → Keeps tables (for_each xs body).
Proof.
  intros Hbody. induction xs as [|x xs IH]; [by intros k key|].
  simpl. by apply Keeps_and_then.
Qed.

Lemma Ensures_wrapped tables format (a : Action Kuzu) key :
  Ensures tables a key → Ensures tables (wrapped format a) key.
Proof.
  intros Ha k. unfold wrapped. specialize (Ha k). by destruct (a k) as [[e|] k'].
Qed.

Lemma Ensures_and_then_l tables (a b : Action Kuzu) key :
  Ensures tables a key → Keeps tables b → Ensures tables (a ;> b) key.
Proof.
  intros Ha Hb k. unfold and_then. specialize (Ha k).
  destruct (a k) as [[e|] k'] eqn:Hak; [done|]. intros _. apply Hb. by apply Ha.
Qed.

Lemma Ensures_and_then_r tables (a b : Action Kuzu) key :
  Ensures tables b key → Ensures tables (a ;> b) key.
Proof.
  intros Hb k. unfold and_then. destruct (a k) as [[e|] k']; [done|]. apply Hb.
Qed.

Lemma Ensures_for_each {A} tables (xs : list A) (body : A → Action Kuzu) (keyOf : A → string) :
  (∀ x, Keeps tables (body x)) → (∀ x, Ensures tables (body x) (keyOf x)) →
  ∀ x, x ∈ xs → Ensures tables (for_each xs body) (keyOf x).
Proof.
  intros Hkeeps Hbody. induction xs as [|y xs IH]; intros x Hx; [by apply elem_of_nil in Hx|].
  simpl. apply elem_of_cons in Hx as [->|Hx].
  - apply Ensures_and_then_l; [done|]. by apply Keeps_for_each.
  - by apply Ensures_and_then_r, IH.
Qed.

Lemma Keeps_for_range {V} tables (m : gmap string V) (body : string → V → Action Kuzu) :
  (∀ k n, tables (set_ranges n k) = tables k) →
  (∀ key v, Keeps tables (body key v)) → Keeps tables (for_range env m body).
Proof.
  intros Hranges Hbody k key Hkey. unfold for_range.
  apply (Keeps_for_each tables _ (λ kv, body kv.1 kv.2)); [by intros [??]|].
  by rewrite Hranges.
Qed.

Lemma Ensures_for_range {V} tables (m : gmap string V) (body : string → V → Action Kuzu)
    (keyOf : string → V → string) :
  (∀ key v, Keeps tables (body key v)) →
  (∀ key v, Ensures tables (body key v) (keyOf key v)) →
  ∀ key v, m !! key = Some v → Ensures tables (for_range env m body) (keyOf key v).
Proof.
  intros Hkeeps Hbody key v Hv k. unfold for_range.
  apply (Ensures_for_each tables _ (λ kv, body kv.1 kv.2) (λ kv, keyOf kv.1 kv.2)
           (λ kv, Hkeeps kv.1 kv.2) (λ kv, Hbody kv.1 kv.2) (key, v)).
  rewrite range_entries_Permutation. by apply elem_of_map_to_list.
Qed.

Lemma cached_insert (tables : gmap string bool) (key key' : string) :
  cached tables key' = true → cached (<[key := true]> tables) key' = true.
Proof.
  unfold cached. destruct (decide (key = key')) as [->|Hne].
  - by rewrite lookup_insert_eq.
  - by rewrite lookup_insert_ne.
Qed.

Lemma cached_insert_eq (tables : gmap string bool) (key : string) :
  cached (<[key := true]> tables) key = true.
Proof. unfold cached. by rewrite lookup_insert_eq. Qed.

Lemma createNodeTable_nodeTables (nodeType : string) :
  Keeps nodeTables (createNodeTable env nodeType) ∧
  Keeps relTables (createNodeTable env nodeType) ∧
  Ensures nodeTables (createNodeTable env nodeType) nodeType.
Proof.
  unfold Keeps, Ensures, createNodeTable, and_then, wrapped, execute.
  split_and!; intros k; intros; destruct (cached (nodeTables k) nodeType) eqn:Hc; simpl; try done;
    destruct (engine_accepts env _ _); simpl in *; try done;
    auto using cached_insert, cached_insert_eq.
Qed.

Lemma createChunkNodeTable_nodeTables :
  Keeps nodeTables (createChunkNodeTable env) ∧
  Keeps relTables (createChunkNodeTable env) ∧
  Ensures nodeTables (createChunkNodeTable env) "Chunk".
Proof.
  unfold Keeps, Ensures, createChunkNodeTable, and_then, wrapped, execute.
  split_and!; intros k; intros; destruct (cached (nodeTables k) "Chunk") eqn:Hc; simpl; try done;
    destruct (engine_accepts env _ _); simpl in *; try done;
    auto using cached_insert, cached_insert_eq.
Qed.

Lemma createRelationshipTable_relTables (rel source target : string) :
  Keeps nodeTables (createRelationshipTable env rel source target) ∧
  Keeps relTables (createRelationshipTable env rel source target) ∧
  Ensures relTables (createRelationshipTable env rel source target)
    (patternKey source rel target).
Proof.
  unfold Keeps, Ensures, createRelationshipTable, and_then, wrapped, execute.
  split_and!; intros k; intros;
    destruct (cached (relTables k) (patternKey source rel target)) eqn:Hc; simpl; try done;
    destruct (engine_accepts env _ _); simpl in *; try done;
    auto using cached_insert, cached_insert_eq.
Qed.

Lemma createMentionsRelationshipTable_tables :
  Keeps nodeTables (createMentionsRelationshipTable env) ∧
  Keeps relTables (createMentionsRelationshipTable env) ∧
  ∀ k, (createMentionsRelationshipTable env k).1 = None.
Proof.
  unfold Keeps, createMentionsRelationshipTable, execute.
  split_and!; intros k; intros; destruct (cached (relTables k) "MENTIONS") eqn:Hc; simpl; try done;
    destruct (engine_accepts env _ _); simpl in *; try done;
    auto using cached_insert, cached_insert_eq.
Qed.

End table_cache.

Lemma collectNodeTypes_lookup (nodes : list Node) (nodeTypes : gmap string bool) (node : Node) :
  node ∈ nodes → is_Some (collectNodeTypes nodes nodeTypes !! Type_ node).
Proof.
  unfold collectNodeTypes. revert nodeTypes.
  induction nodes as [|first nodes IH] using rev_ind; intros nodeTypes Hin;
    [by apply elem_of_nil in Hin|].
  rewrite foldl_app. simpl. apply elem_of_app in Hin as [Hin|Hin%list_elem_of_singleton].
  - destruct (decide (Type_ first = Type_ node)) as [->|Hne].
    + rewrite lookup_insert_eq. by eexists.
    + rewrite lookup_insert_ne by done. by apply IH.
  - subst first. rewrite lookup_insert_eq. by eexists.
Qed.

Lemma collectRelPatterns_lookup (rels : list Relationship) (patterns : gmap string RelPattern)
    (rel : Relationship) :
  rel ∈ rels →
  ∃ pattern, collectRelPatterns rels patterns !! relKey rel = Some pattern ∧
             patternKey (sourceType pattern) (relType pattern) (targetType pattern)
             = relKey rel.
Proof.
  unfold collectRelPatterns. revert patterns.
  induction rels as [|first rels IH] using rev_ind; intros patterns Hin;
    [by apply elem_of_nil in Hin|].
  rewrite foldl_app. simpl. apply elem_of_app in Hin as [Hin|Hin%list_elem_of_singleton].
  - destruct (decide (relKey first = relKey rel)) as [Heq|Hne].
    + rewrite Heq, lookup_insert_eq. eexists. split; [done|]. by rewrite <-Heq.
    + rewrite lookup_insert_ne by done. by apply IH.
  - subst first. rewrite lookup_insert_eq. eexists. by split.
Qed.

(** X19.  When [ensureTablesExist] returns without error, the table
    cache records the type of every node of the document, the Chunk
    table, and the pattern of every relationship of the document. *)
Theorem ensureTablesExist_creates_the_tables (env : Env) (doc : GraphDocument) (k : Kuzu) :
  (ensureTablesExist env doc k).1 = None →
  (∀ node, node ∈ Nodes doc →
     cached (nodeTables (ensureTablesExist env doc k).2) (Type_ node) = true) ∧
  cached (nodeTables (ensureTablesExist env doc k).2) "Chunk" = true ∧
  (∀ rel, rel ∈ Relationships doc →
     cached (relTables (ensureTablesExist env doc k).2) (relKey rel) = true).
Proof.
  intros Hok.
  pose proof (λ T, createNodeTable_nodeTables env T) as Hnode.
  pose proof (createChunkNodeTable_nodeTables env) as (HchunkN & HchunkR & Hchunk).
  pose proof (λ r s t, createRelationshipTable_relTables env r s t) as Hrel.
  pose proof (createMentionsRelationshipTable_tables env) as (HmentionsN & HmentionsR & _).
  set (nodeLoop := for_range env (collectNodeTypes (Nodes doc) ∅) (λ nodeType _,
         wrapped "failed to create node table for type %s: %w" (createNodeTable env nodeType))).
  set (relLoop := for_range env (collectRelPatterns (Relationships doc) ∅) (λ _ relInfo,
         wrapped "failed to create relationship table %s: %w"
           (createRelationshipTable env (relType relInfo) (sourceType relInfo)
              (targetType relInfo)))).
  assert (Keeps nodeTables relLoop) as HrelLoopN.
  { apply Keeps_for_range; [done|]. intros key v. apply Keeps_wrapped, Hrel. }
  assert (Keeps relTables nodeLoop) as HnodeLoopR.
  { apply Keeps_for_range; [done|]. intros key v. apply Keeps_wrapped, Hnode. }
  split_and!.
  - intros node Hnode_in.
    destruct (collectNodeTypes_lookup (Nodes doc) ∅ node Hnode_in) as [v Hv].
    revert Hok. apply (Ensures_and_then_l nodeTables nodeLoop).
    + apply (Ensures_for_range env nodeTables _ _ (λ key _, key)) with (v := v); [| |done].
      * intros key ?. apply Keeps_wrapped, Hnode.
      * intros key ?. apply Ensures_wrapped, Hnode.
    + apply Keeps_and_then; [by apply Keeps_wrapped|].
      apply Keeps_and_then; [done|]. by apply Keeps_wrapped.
  - revert Hok. apply Ensures_and_then_r, Ensures_and_then_l.
    + by apply Ensures_wrapped.
    + apply Keeps_and_then; [done|]. by apply Keeps_wrapped.
  - intros rel Hrel_in.
    destruct (collectRelPatterns_lookup (Relationships doc) ∅ rel Hrel_in)
      as (pattern & Hpattern & Hkey).
    revert Hok. apply Ensures_and_then_r, Ensures_and_then_r, Ensures_and_then_l.
    + rewrite <-Hkey.
      apply (Ensures_for_range env relTables _ _
               (λ _ v, patternKey (sourceType v) (relType v) (targetType v)))
        with (key := relKey rel); [| |done].
      * intros key v. apply Keeps_wrapped, Hrel.
      * intros key v. apply Ensures_wrapped, Hrel.
    + by apply Keeps_wrapped.
Qed.

Lemma ensureTablesExist_creates_the_tables_witness :
  cached (nodeTables (ensureTablesExist calmEnv aliceDoc NewKuzu).2) (Type_ alice) = true.
Proof.
  destruct (ensureTablesExist_creates_the_tables calmEnv aliceDoc NewKuzu)
    as (Hnodes & _ & _); [reflexivity|].
  apply Hnodes, list_elem_of_here.
Defined.

(** ** A closed store *)

(** X20.  After [Kuzu.Close] the store is not connected and refuses
    work without touching the engine or itself: [Query], [HealthCheck],
    [AddGraphDocument] and [BeginTransaction] return
    [ErrConnectionNotInitialized], [RunInTransaction] and
    [AddGraphDocuments] return it wrapped; only [AddGraphDocuments] with
    no document still succeeds.  Closing twice is closing once. *)
Theorem closed_store_refuses (env : Env) (read : Reader) (ctx : Context) (k : Kuzu) :
  let closed := Close k in
  IsConnected closed = false ∧ Close closed = closed ∧
  (∀ stmt, Query env ctx stmt closed = (Some ErrConnectionNotInitialized, closed)) ∧
  (∀ stmt, Rows.Query env read ctx stmt closed
           = (None, Some ErrConnectionNotInitialized, closed)) ∧
  HealthCheck env read ctx closed = (Some ErrConnectionNotInitialized, closed) ∧
  (∀ docs options,
     AddGraphDocument env ctx docs options closed = (Some ErrConnectionNotInitialized, closed)) ∧
  (∀ opts, BeginTransaction env ctx opts closed
           = (None, Some ErrConnectionNotInitialized, closed)) ∧
  (∀ fn opts, RunInTransaction env ctx fn opts closed
              = (Some (Errorf "failed to begin transaction: %w"
                         (Some ErrConnectionNotInitialized)), None, closed)) ∧
  (∀ doc docs options,
     AddGraphDocuments env ctx (doc :: docs) options closed
     = (Some (Errorf "failed to begin transaction: %w" (Some ErrConnectionNotInitialized)),
        closed)) ∧
  AddGraphDocuments env ctx [] [] closed = (None, closed).
Proof. by split_and!. Qed.

(** ** The configuration of a store *)

Lemma applyOptions_snoc {O} (options : list (O → O)) (opt : O → O) (opts : O) :
  applyOptions (options ++ [opt]) opts = opt (applyOptions options opts).
Proof. unfold applyOptions. by rewrite foldl_app. Qed.

(** X21.  After [applyDefaults] a configuration has a timeout, a buffer
    pool size, a thread count and a log level, and a path unless it is in
    memory; what the caller had set is kept, and a second call changes
    nothing. *)
Theorem applyDefaults_fills_the_gaps (opts : Config.options) :
  let filled := Config.applyDefaults opts in
  (Config.inMemory filled = false → Config.databasePath filled ≠ "") ∧
  Config.timeout filled ≠ 0 ∧ Config.bufferPoolSize filled ≠ 0 ∧
  Config.maxNumThreads filled ≠ 0 ∧ Config.logLevel filled ≠ "" ∧
  (Config.databasePath opts ≠ "" → Config.databasePath filled = Config.databasePath opts) ∧
  (Config.timeout opts ≠ 0 → Config.timeout filled = Config.timeout opts) ∧
  (Config.bufferPoolSize opts ≠ 0 →
   Config.bufferPoolSize filled = Config.bufferPoolSize opts) ∧
  (Config.maxNumThreads opts ≠ 0 → Config.maxNumThreads filled = Config.maxNumThreads opts) ∧
  (Config.logLevel opts ≠ "" → Config.logLevel filled = Config.logLevel opts) ∧
  Config.inMemory filled = Config.inMemory opts ∧
  Config.allowDangerousRequests filled = Config.allowDangerousRequests opts ∧
  Config.applyDefaults filled = filled.
Proof.
  destruct opts as [path memory allow timeout pool threads logging level].
  unfold Config.applyDefaults. simpl.
  destruct (emptyString path) eqn:Hpath; destruct memory; simpl;
    destruct (timeout =? 0) eqn:Htimeout; destruct (pool =? 0) eqn:Hpool;
    destruct (threads =? 0) eqn:Hthreads; destruct (emptyString level) eqn:Hlevel; simpl;
    rewrite ?Hpath, ?Htimeout, ?Hpool, ?Hthreads, ?Hlevel; simpl;
    rewrite ?emptyString_spec, ?emptyString_false, ?Z.eqb_eq, ?Z.eqb_neq in *;
    split_and!; try done; try (intros; congruence).
Qed.

Lemma configured_snoc (settings : list Config.Setting) (setting : Config.Setting) :
  Config.configured (settings ++ [setting])
  = Config.applyDefaults
      (Config.option_of setting (applyOptions (Config.option_of <$> settings) Config.zero)).
Proof. unfold Config.configured. by rewrite fmap_snoc, applyOptions_snoc. Qed.

Lemma settings_path_or_memory (settings : list Config.Setting) :
  let opts := applyOptions (Config.option_of <$> settings) Config.zero in
  Config.inMemory opts = true → Config.databasePath opts = "".
Proof.
  induction settings as [|setting settings IH] using rev_ind; [done|].
  rewrite fmap_snoc, applyOptions_snoc. simpl in *.
  destruct setting as [path|[]| | | | | | ]; simpl; done.
Qed.

(** X22.  Whatever options of the package are applied and in whatever
    order, the configuration [NewKuzu] works with is in memory exactly
    when its path is empty: of [WithDatabasePath] and [WithInMemory(true)]
    the later one wins, and without either the path is [./kuzu_db]. *)
Theorem configured_in_memory_or_on_disk (settings : list Config.Setting) :
  let opts := Config.configured settings in
  (Config.inMemory opts = true ↔ Config.databasePath opts = "") ∧
  (∀ path, path ≠ "" →
     let opts' := Config.configured (settings ++ [Config.SetDatabasePath path]) in
     Config.inMemory opts' = false ∧ Config.databasePath opts' = path) ∧
  (let opts' := Config.configured (settings ++ [Config.SetInMemory true]) in
   Config.inMemory opts' = true ∧ Config.databasePath opts' = "") ∧
  Config.databasePath (Config.configured []) = "./kuzu_db".
Proof.
  split_and!.
  - pose proof (settings_path_or_memory settings) as Hpath.
    unfold Config.configured, Config.applyDefaults. simpl in *.
    destruct (Config.inMemory _) eqn:Hmemory; simpl.
    + rewrite Hpath by done. by rewrite andb_false_r.
    + split; [done|]. destruct (emptyString _) eqn:Hempty; simpl; [done|].
      by apply emptyString_false in Hempty.
  - intros path Hpath. rewrite configured_snoc. simpl.
    apply emptyString_false in Hpath. by rewrite Hpath.
  - by rewrite configured_snoc.
  - done.
Qed.

(** X23.  [NewKuzu] returns [ErrDangerousRequestsDisabled] when no option
    allows dangerous requests or the last such option denies them, and
    then does not depend on the engine; when they are allowed its error is
    the wrapped error of [connect]; a store it returns is connected. *)
Theorem NewKuzu_requires_dangerous_requests (connect : Config.options → option error)
    (settings : list Config.Setting) :
  let new := Config.NewKuzu connect (Config.option_of <$> settings) in
  ((∀ allow, Config.SetAllowDangerousRequests allow ∉ settings) →
   new = (None, Some Config.ErrDangerousRequestsDisabled)) ∧
  Config.NewKuzu connect
    (Config.option_of <$> (settings ++ [Config.SetAllowDangerousRequests false]))
  = (None, Some Config.ErrDangerousRequestsDisabled) ∧
  (Config.NewKuzu connect
     (Config.option_of <$> (settings ++ [Config.SetAllowDangerousRequests true]))).2
  = (λ err, Errorf "failed to connect to kuzu: %w" (Some err))
    <$> connect (Config.configured (settings ++ [Config.SetAllowDangerousRequests true])) ∧
  (∀ k, new.1 = Some k → new.2 = None ∧ k = NewKuzu ∧ IsConnected k = true ∧
        connect (Config.configured settings) = None).
Proof.
  split_and!.
  - intros Hnone. unfold Config.NewKuzu.
    assert (Config.allowDangerousRequests
              (applyOptions (Config.option_of <$> settings) Config.zero) = false) as Hallow.
    { induction settings as [|setting settings IH] using rev_ind; [done|].
      rewrite fmap_snoc, applyOptions_snoc.
      destruct setting; simpl;
        try (apply IH; intros allow' Hin; apply (Hnone allow'), elem_of_app; by left).
      destruct (Hnone allow). apply elem_of_app. right. by left. }
    simpl. by rewrite Hallow.
  - unfold Config.NewKuzu. by rewrite fmap_snoc, applyOptions_snoc.
  - unfold Config.NewKuzu, Config.configured. rewrite fmap_snoc, applyOptions_snoc. simpl.
    by destruct (connect _).
  - intros k. unfold Config.NewKuzu, Config.configured.
    destruct (negb _); [done|]. destruct (connect _); [done|]. by intros [= <-].
Qed.

(** ** The options of an import *)

Lemma processGraphDocumentInTransaction_opts (env : Env) (doc : GraphDocument)
    (opts opts' : Options) :
  processGraphDocumentInTransaction env doc opts
  = processGraphDocumentInTransaction env doc opts'.
Proof. reflexivity. Qed.

Lemma addGraphDocumentsInTransaction_opts (env : Env) (docs : list GraphDocument)
    (opts opts' : Options) :
  addGraphDocumentsInTransaction env docs opts = addGraphDocumentsInTransaction env docs opts'.
Proof. reflexivity. Qed.

Lemma processGraphDocument_opts (env : Env) (ctx : Context) (doc : GraphDocument)
    (opts opts' : Options) :
  IncludeSource opts = IncludeSource opts' ∨ isLarge doc = false →
  processGraphDocument env ctx doc opts = processGraphDocument env ctx doc opts'.
Proof.
  intros H. unfold processGraphDocument. destruct (isLarge doc) eqn:Hlarge; [|done].
  destruct H as [H|H]; [|done]. unfold processBatch. by rewrite H.
Qed.

Lemma for_each_ext_in {St A} (xs : list A) (body body' : A → Action St) (s : St) :
  (∀ x, x ∈ xs → body x = body' x) → for_each xs body s = for_each xs body' s.
Proof.
  revert s. induction xs as [|x xs IH]; intros s Hbody; [done|]. simpl.
  unfold and_then. rewrite (Hbody x) by left.
  destruct (body' x s) as [[e|] s']; [done|]. apply IH. intros y Hy. apply Hbody. by right.
Qed.

Lemma AddGraphDocument_opts (env : Env) (ctx : Context) (docs : list GraphDocument)
    (options options' : list (Options → Options)) (k : Kuzu) :
  IncludeSource (applyOptions options NewOptions)
  = IncludeSource (applyOptions options' NewOptions)
  ∨ Forall (λ doc, isLarge doc = false) docs →
  AddGraphDocument env ctx docs options k = AddGraphDocument env ctx docs options' k.
Proof.
  intros H. unfold AddGraphDocument. destruct (negb (connected k)); [done|].
  apply for_each_ext_in. intros doc Hdoc. apply processGraphDocument_opts.
  destruct H as [H|H]; [by left|right]. rewrite Forall_forall in H. by apply H.
Qed.

(** X24.  The options of an import hardly matter.  [AddGraphDocuments]
    and [AddGraphDocumentsWithTransaction] ignore them altogether;
    [AddGraphDocument] ignores the batch size and the timeout, and
    ignores [IncludeSource] as well when no document has more than ten
    nodes or more than ten relationships. *)
Theorem import_options_ignored (env : Env) (ctx : Context) (docs : list GraphDocument)
    (options options' : list (Options → Options)) (k : Kuzu) :
  AddGraphDocuments env ctx docs options k = AddGraphDocuments env ctx docs options' k ∧
  (∀ tx, AddGraphDocumentsWithTransaction env docs options (tx, k)
         = AddGraphDocumentsWithTransaction env docs options' (tx, k)) ∧
  (∀ size timeout,
     AddGraphDocument env ctx docs (options ++ [WithBatchSize size; WithTimeout timeout]) k
     = AddGraphDocument env ctx docs options k) ∧
  (Forall (λ doc, isLarge doc = false) docs →
   AddGraphDocument env ctx docs options k = AddGraphDocument env ctx docs options' k).
Proof.
  split_and!.
  - unfold AddGraphDocuments. by destruct docs.
  - intros tx. unfold AddGraphDocumentsWithTransaction. by destruct docs.
  - intros size timeout. apply AddGraphDocument_opts. left.
    unfold applyOptions. by rewrite foldl_app.
  - intros Hsmall. apply AddGraphDocument_opts. by right.
Qed.

(** ** Documents ten at a time *)

(** X25.  [addGraphDocumentsInTransaction] takes the documents ten at a
    time: the first ten go through [processDocumentBatchInTransaction] on
    their own, then the rest.  So when the first ten are processed without
    error and an invalid document is among the next ten, the call fails
    with everything the first ten wrote already sent. *)
Theorem addGraphDocumentsInTransaction_chunks (env : Env) (first rest : list GraphDocument)
    (opts : Options) (s : Transaction * Kuzu) :
  length first = 10%nat →
  addGraphDocumentsInTransaction env (first ++ rest) opts s
  = (wrapped "failed to process document batch %d-%d: %w"
       (processDocumentBatchInTransaction env first opts) ;>
     addGraphDocumentsInTransaction env rest opts) s ∧
  (∀ s', processDocumentBatchInTransaction env first opts s = (None, s') →
         Exists invalidDocument rest → (length rest ≤ 10)%nat →
         ∃ e, addGraphDocumentsInTransaction env (first ++ rest) opts s = (Some e, s')).
Proof.
  intros Hfirst.
  assert (addGraphDocumentsInTransaction env (first ++ rest) opts s
          = (wrapped "failed to process document batch %d-%d: %w"
               (processDocumentBatchInTransaction env first opts) ;>
             addGraphDocumentsInTransaction env rest opts) s) as Hchunk.
  { unfold addGraphDocumentsInTransaction. by rewrite batches_app_full by (done || lia). }
  split; [done|]. intros s' Hok Hbad Hlen. rewrite Hchunk.
  unfold and_then, wrapped. rewrite Hok.
  unfold addGraphDocumentsInTransaction. rewrite batches_single; [|by destruct Hbad|done].
  simpl. unfold and_then, wrapped.
  destruct (processDocumentBatchInTransaction_invalid env rest opts s' Hbad) as [e ->].
  by eexists.
Qed.

Lemma addGraphDocumentsInTransaction_chunks_witness :
  ∃ e, addGraphDocumentsInTransaction calmEnv (tenDocuments ++ [namelessDoc]) NewOptions
         (activeTx, NewKuzu)
       = (Some e, (processDocumentBatchInTransaction calmEnv tenDocuments NewOptions
                     (activeTx, NewKuzu)).2) ∧
         length (sent (processDocumentBatchInTransaction calmEnv tenDocuments NewOptions
                         (activeTx, NewKuzu)).2.2) = 13%nat.
Proof.
  destruct (addGraphDocumentsInTransaction_chunks calmEnv tenDocuments [namelessDoc]
              NewOptions (activeTx, NewKuzu) eq_refl) as [_ Hbad].
  destruct (Hbad (processDocumentBatchInTransaction calmEnv tenDocuments NewOptions
                    (activeTx, NewKuzu)).2) as [e He].
  - vm_compute. reflexivity.
  - apply Exists_cons_hd. left. apply Exists_cons_hd. by left.
  - simpl. lia.
  - exists e. split; [exact He|]. vm_compute. reflexivity.
Defined.

(** ** The individual path, statement by statement *)

Lemma SendsOneOf_SendsOne {St} (store : St → Kuzu) (a : Action St) (stmt : Stmt)
    (P : Stmt → Prop) :
  P stmt → SendsOne store a stmt → SendsOneOf store a P.
Proof.
  intros HP Ha s. destruct (Ha s) as (new & Hsent & Hnew & Hok). exists new.
  split_and!; [done| |].
  - destruct Hnew as [->| ->]; [by left|right; by exists stmt].
  - intros H. by rewrite (Hok H).
Qed.

Lemma SendsOneOf_fail {St} (store : St → Kuzu) (e : error) (P : Stmt → Prop) (s : St) :
  ∃ new, sent (store (Some e, s).2) = sent (store s) ++ new ∧
         (new = [] ∨ ∃ stmt, new = [stmt] ∧ P stmt) ∧
         ((Some e, s).1 = None → new ≠ []).
Proof. exists []. rewrite app_nil_r. split_and!; [done|by left|done]. Qed.

Lemma SendsOneOf_addNode (env : Env) (node : Node) :
  SendsOneOf id (addNode env node) (writesNode node).
Proof.
  intros k. unfold addNode. destruct (emptyString (ID node)); [apply SendsOneOf_fail|].
  destruct (ConvertProperties env (Properties node)) as [converted [e|]];
    [apply SendsOneOf_fail|].
  destruct (propertyArrays _ _ _ _ _) as [propKeys propValues].
  refine (SendsOneOf_SendsOne id _ _ (writesNode node) _ _ (set_ranges (S (ranges k)) k));
    [by eexists _, _|].
  apply SendsOne_wrapped, SendsOne_Query.
Qed.

Lemma SendsOneOf_addRelationship (env : Env) (rel : Relationship) :
  SendsOneOf id (addRelationship env rel) (writesRelationship rel).
Proof.
  intros k. unfold addRelationship. destruct (_ || _); [apply SendsOneOf_fail|].
  destruct (ConvertProperties env (RelProperties rel)) as [converted [e|]];
    [apply SendsOneOf_fail|].
  destruct (propertyArrays _ _ _ _ _) as [propKeys propValues].
  refine (SendsOneOf_SendsOne id _ _ (writesRelationship rel) _ _ (set_ranges (S (ranges k)) k));
    [by eexists _, _|].
  apply SendsOne_wrapped, SendsOne_Query.
Qed.

Lemma SendsOneOf_addNodeInTransaction (env : Env) (node : Node) :
  SendsOneOf snd (addNodeInTransaction env node) (writesNode node).
Proof.
  intros [tx k]. unfold addNodeInTransaction.
  destruct (emptyString (ID node)); [apply (SendsOneOf_fail snd)|].
  destruct (propertyArrays _ _ _ _ _) as [propKeys propValues].
  refine (SendsOneOf_SendsOne snd _ _ (writesNode node) _ _ (tx, set_ranges (S (ranges k)) k));
    [by eexists _, _|].
  apply SendsOne_wrapped, SendsOne_TxQuery.
Qed.

Lemma SendsOneOf_addRelationshipInTransaction (env : Env) (rel : Relationship) :
  SendsOneOf snd (addRelationshipInTransaction env rel) (writesRelationship rel).
Proof.
  intros [tx k]. unfold addRelationshipInTransaction.
  destruct (_ || _); [apply (SendsOneOf_fail snd)|].
  destruct (propertyArrays _ _ _ _ _) as [propKeys propValues].
  refine (SendsOneOf_SendsOne snd _ _ (writesRelationship rel) _ _ (tx, set_ranges (S (ranges k)) k));
    [by eexists _, _|].
  apply SendsOne_wrapped, SendsOne_TxQuery.
Qed.

Lemma SendsInOrder_for_each {St A} (store : St → Kuzu) (xs : list A) (body : A → Action St)
    (P : A → Stmt → Prop) :
  (∀ x, SendsOneOf store (body x) (P x)) →
  SendsInOrder store (for_each xs body) (P <$> xs).
Proof.
  intros Hbody. induction xs as [|x xs IH]; intros s.
  { exists []. simpl. rewrite app_nil_r. split_and!; [done|constructor|done]. }
  destruct (Hbody x s) as (new & Hsent & Hnew & Hok).
  simpl. unfold and_then. destruct (body x s) as [[e|] s'] eqn:Hx; simpl in *.
  - exists new. split_and!; [done| |done].
    destruct Hnew as [->|(stmt & -> & Hstmt)]; [constructor|]. simpl. by repeat constructor.
  - destruct Hnew as [->|(stmt & -> & Hstmt)]; [by destruct Hok|].
    destruct (IH s') as (rest & Hrest & Hall & Hlen).
    exists (stmt :: rest). rewrite Hrest, Hsent, <-app_assoc. split_and!; [done| |].
    + simpl. by constructor.
    + intros H. simpl. rewrite length_fmap in *. by rewrite (Hlen H).
Qed.

Lemma SendsInOrder_and_then {St} (store : St → Kuzu) (a b : Action St)
    (Ps Qs : list (Stmt → Prop)) :
  SendsInOrder store a Ps → SendsInOrder store b Qs → SendsInOrder store (a ;> b) (Ps ++ Qs).
Proof.
  intros Ha Hb s. destruct (Ha s) as (new & Hsent & Hall & Hlen).
  assert (length new ≤ length Ps)%nat as Hle.
  { apply Forall2_length in Hall. rewrite length_take in Hall. lia. }
  unfold and_then. destruct (a s) as [[e|] s'] eqn:Hs; simpl in *.
  - exists new. split_and!; [done| |done]. by rewrite take_app_le.
  - specialize (Hlen eq_refl). destruct (Hb s') as (new' & Hsent' & Hall' & Hlen').
    exists (new ++ new'). rewrite Hsent', Hsent, <-app_assoc. split_and!; [done| |].
    + rewrite length_app, Hlen, take_app_add'; [|done].
      rewrite Hlen, take_ge in Hall by lia. by apply Forall2_app.
    + intros H. rewrite !length_app, Hlen. by rewrite (Hlen' H).
Qed.

(** X26.  [processIndividually] and [processIndividuallyInTransaction]
    send one merge statement per node, in the order of the document, and
    then one per relationship, in order; they stop at the first failure,
    and have sent all of them when they return without error. *)
Theorem processIndividually_in_order (env : Env) (ctx : Context) (doc : GraphDocument)
    (opts : Options) :
  SendsInOrder id (processIndividually env ctx doc opts)
    ((writesNode <$> Nodes doc) ++ (writesRelationship <$> Relationships doc)) ∧
  SendsInOrder snd (processIndividuallyInTransaction env doc opts)
    ((writesNode <$> Nodes doc) ++ (writesRelationship <$> Relationships doc)).
Proof.
  split.
  - apply SendsInOrder_and_then; apply SendsInOrder_for_each.
    + apply SendsOneOf_addNode.
    + apply SendsOneOf_addRelationship.
  - apply SendsInOrder_and_then; apply SendsInOrder_for_each.
    + apply SendsOneOf_addNodeInTransaction.
    + apply SendsOneOf_addRelationshipInTransaction.
Qed.

(** ** Grouping *)

Lemma groupBy_snoc {A B} (key : A → string) (val : A → B) (xs : list A) (x : A) :
  groupBy key val (xs ++ [x])
  = <[key x := default [] (groupBy key val xs !! key x) ++ [val x]]> (groupBy key val xs).
Proof. unfold groupBy. by rewrite foldl_app. Qed.

(** The groups hold every element once, each under its own key. *)
Lemma groupBy_Permutation {A B} (key : A → string) (val : A → B) (xs : list A) :
  map_to_list (groupBy key val xs) ≫= (λ kv, (λ v, (kv.1, v)) <$> kv.2)
  ≡ₚ (λ x, (key x, val x)) <$> xs.
Proof.
  induction xs as [|x xs IH] using rev_ind; [done|].
  rewrite groupBy_snoc, fmap_snoc. set (groups := groupBy key val xs) in *.
  etrans; [|apply Permutation_app; [exact IH|reflexivity]].
  destruct (groups !! key x) as [group|] eqn:Hgroup; simpl.
  - rewrite <-insert_delete_eq.
    rewrite (map_to_list_insert _ _ _ (lookup_delete_eq _ _)).
    rewrite <-(map_to_list_delete groups (key x) group Hgroup).
    rewrite !bind_cons. simpl. rewrite fmap_app. simpl.
    rewrite <-!app_assoc. apply Permutation_app; [done|].
    apply Permutation_cons_append.
  - rewrite (map_to_list_insert _ _ _ Hgroup). rewrite bind_cons. simpl.
    apply Permutation_cons_append.
Qed.

Lemma groupBy_keys {A} (key : A → string) (xs : list A) (k : string) (group : list A) :
  groupBy key id xs !! k = Some group → group ≠ [] ∧ Forall (λ x, key x = k) group.
Proof.
  revert group. induction xs as [|x xs IH] using rev_ind; intros group; [done|].
  rewrite groupBy_snoc. destruct (decide (key x = k)) as [<-|Hne].
  - rewrite lookup_insert_eq. intros [= <-]. split; [by destruct (default _ _)|].
    apply Forall_app. split; [|by apply Forall_singleton].
    destruct (groupBy key id xs !! key x) as [group|] eqn:Hgroup; [|constructor].
    by apply IH.
  - rewrite lookup_insert_ne by done. apply IH.
Qed.

(** ** What the batched path writes *)

Section yields.
Context {B : Type} (env : Env) (observe : Stmt → list B).

Lemma Yields_ok : Yields observe ok [].
Proof. intros k _. exists []. by rewrite app_nil_r. Qed.

Lemma Yields_Permutation (a : Action Kuzu) (items items' : list B) :
  items ≡ₚ items' → Yields observe a items → Yields observe a items'.
Proof.
  intros Hperm Ha k Hok. destruct (Ha k Hok) as (new & Hsent & Hnew).
  exists new. split; [done|]. by rewrite Hnew.
Qed.

Lemma Yields_and_then (a b : Action Kuzu) (items items' : list B) :
  Yields observe a items → Yields observe b items' →
  Yields observe (a ;> b) (items ++ items').
Proof.
  intros Ha Hb k. unfold and_then. specialize (Ha k).
  destruct (a k) as [[e|] k']; [done|]. intros Hok.
  destruct (Ha eq_refl) as (new & Hsent & Hnew).
  destruct (Hb k' Hok) as (new' & Hsent' & Hnew').
  exists (new ++ new'). simpl in *. rewrite Hsent', Hsent, <-app_assoc. split; [done|].
  by rewrite bind_app, Hnew, Hnew'.
Qed.

Lemma Yields_wrapped format (a : Action Kuzu) (items : list B) :
  Yields observe a items → Yields observe (wrapped format a) items.
Proof.
  intros Ha k. unfold wrapped. specialize (Ha k). destruct (a k) as [[e|] k']; [done|].
  done.
Qed.

Lemma Yields_for_each {A} (xs : list A) (body : A → Action Kuzu) (f : A → list B) :
  (∀ x, x ∈ xs → Yields observe (body x) (f x)) →
  Yields observe (for_each xs body) (xs ≫= f).
Proof.
  induction xs as [|x xs IH]; intros Hbody; [apply Yields_ok|].
  change (for_each (x :: xs) body) with (body x ;> for_each xs body).
  rewrite bind_cons. apply Yields_and_then; [apply Hbody; by left|].
  apply IH. intros y Hy. apply Hbody. by right.
Qed.

Lemma Yields_for_range {V} (m : gmap string V) (body : string → V → Action Kuzu)
    (f : string → V → list B) :
  (∀ key v, m !! key = Some v → Yields observe (body key v) (f key v)) →
  Yields observe (for_range env m body) (map_to_list m ≫= (λ kv, f kv.1 kv.2)).
Proof.
  intros Hbody k. unfold for_range. intros Hok.
  eapply (Yields_Permutation _ _ _ (bind_Permutation _ _ _ (range_entries_Permutation env (ranges k) m)))
    in Hok as (new & Hsent & Hnew).
  - exists new. by split.
  - apply (Yields_for_each _ (λ kv, body kv.1 kv.2) (λ kv, f kv.1 kv.2)).
    intros [key v] Hin. apply Hbody. apply elem_of_map_to_list.
    by rewrite <-(range_entries_Permutation env (ranges k) m).
Qed.

Lemma Yields_Query (ctx : Context) (stmt : Stmt) :
  Yields observe (Query env ctx stmt) (observe stmt).
Proof.
  intros k Hok. destruct (SendsOne_Query env ctx stmt k) as (new & Hsent & _ & Hnew).
  exists new. split; [done|]. rewrite (Hnew Hok). by rewrite bind_singleton.
Qed.

End yields.

Lemma bind_fmap_concat {A C} (g : A → C) (l : list (list A)) :
  l ≫= (λ xs, g <$> xs) = g <$> concat l.
Proof.
  induction l as [|xs l IH]; [done|]. rewrite bind_cons, IH. simpl. by rewrite fmap_app.
Qed.

Lemma bind_nil_all {A C} (l : list A) (f : A → list C) :
  (∀ x, x ∈ l → f x = []) → l ≫= f = [].
Proof.
  induction l as [|x l IH]; intros Hf; [done|]. rewrite bind_cons, (Hf x) by left.
  apply IH. intros y Hy. apply Hf. by right.
Qed.

Lemma fmap_bind_list {A C D} (h : C → D) (f : A → list C) (l : list A) :
  h <$> (l ≫= f) = l ≫= (λ x, h <$> f x).
Proof.
  induction l as [|x l IH]; [done|]. by rewrite !bind_cons, fmap_app, IH.
Qed.

Lemma groupBy_Permutation_map {A C} (key : A → string) (h : A → C) (xs : list A) :
  map_to_list (groupBy key id xs) ≫= (λ kv, (λ v, (kv.1, h v)) <$> kv.2)
  ≡ₚ (λ x, (key x, h x)) <$> xs.
Proof.
  pose proof (fmap_Permutation (prod_map id h) _ _ (groupBy_Permutation key id xs)) as Hperm.
  rewrite fmap_bind_list, <-list_fmap_compose in Hperm.
  erewrite list_bind_ext; [exact Hperm| |done].
  intros [k group]. simpl. by rewrite <-list_fmap_compose.
Qed.

Section batched.
Context (env : Env).

Lemma Yields_insertNodeBatch ctx (nodeType : string) (nodes : list Node) :
  Yields batchedNodes (insertNodeBatch env ctx nodeType nodes)
    ((λ node, (nodeType, nodeData node)) <$> nodes).
Proof.
  unfold insertNodeBatch. destruct nodes as [|node nodes]; [apply Yields_ok|].
  apply Yields_wrapped.
  eapply Yields_Permutation; [|apply Yields_Query]. simpl. by rewrite <-list_fmap_compose.
Qed.

Lemma Yields_batchInsertNodesByType ctx (nodeType : string) (nodes : list Node) :
  Yields batchedNodes (batchInsertNodesByType env ctx nodeType nodes)
    ((λ node, (nodeType, nodeData node)) <$> nodes).
Proof.
  destruct (batches_spec 100 nodes) as [Hconcat _]; [lia|].
  rewrite <-Hconcat at 2. rewrite <-bind_fmap_concat.
  apply Yields_for_each. intros batch _. apply Yields_wrapped, Yields_insertNodeBatch.
Qed.

Lemma Yields_batchLinkNodesToSource {B} (observe : Stmt → list B) ctx nodes doc :
  (∀ label docID ids, observe (MentionsStmt label docID ids) = []) →
  Yields observe (batchLinkNodesToSource env ctx nodes doc) [].
Proof.
  intros Hobserve. unfold batchLinkNodesToSource.
  destruct (emptyString _); [apply Yields_ok|].
  eapply Yields_Permutation; [|apply (Yields_for_range env observe _ _ (λ _ _, []))].
  { by rewrite bind_nil_all. }
  intros nodeType nodeIDs _. apply Yields_wrapped.
  unfold batchCreateMentionsRelationships. destruct nodeIDs; [apply Yields_ok|].
  apply Yields_wrapped. eapply Yields_Permutation; [|apply Yields_Query]. by rewrite Hobserve.
Qed.

Lemma Yields_insertRelationshipBatch_nodes ctx (rels : list Relationship) :
  Yields batchedNodes (insertRelationshipBatch env ctx rels) [].
Proof.
  unfold insertRelationshipBatch. destruct rels as [|rel rels]; [apply Yields_ok|].
  eapply Yields_Permutation; [|apply (Yields_for_range env batchedNodes _ _ (λ _ _, []))].
  { by rewrite bind_nil_all. }
  intros key group _. destruct group as [|firstRel group]; [apply Yields_ok|].
  apply Yields_wrapped.
  apply (Yields_Query env batchedNodes ctx (relBatchStmt firstRel (firstRel :: group))).
Qed.

Lemma Yields_batchInsertRelationships_nodes ctx (rels : list Relationship) :
  Yields batchedNodes (batchInsertRelationships env ctx rels) [].
Proof.
  unfold batchInsertRelationships.
  eapply Yields_Permutation; [|apply (Yields_for_each batchedNodes _ _ (λ _, []))].
  { by rewrite bind_nil_all. }
  intros batch _. apply Yields_wrapped, Yields_insertRelationshipBatch_nodes.
Qed.

Lemma Yields_processBatch_nodes ctx (doc : GraphDocument) (opts : Options) :
  Yields batchedNodes (processBatch env ctx doc opts)
    ((λ node, (Type_ node, nodeData node)) <$> Nodes doc).
Proof.
  unfold processBatch.
  apply (Yields_Permutation batchedNodes _
           ((map_to_list (groupBy Type_ id (Nodes doc))
             ≫= (λ kv, (λ node, (kv.1, nodeData node)) <$> kv.2)) ++ [] ++ [])).
  { rewrite !app_nil_r. apply groupBy_Permutation_map. }
  apply Yields_and_then; [|apply Yields_and_then].
  - apply (Yields_for_range env batchedNodes _ _
             (λ nodeType nodes, (λ node, (nodeType, nodeData node)) <$> nodes)).
    intros nodeType nodes _. apply Yields_wrapped, Yields_batchInsertNodesByType.
  - destruct (IncludeSource opts); [|apply Yields_ok].
    apply Yields_wrapped. by apply Yields_batchLinkNodesToSource.
  - eapply Yields_Permutation; [|apply (Yields_for_range env batchedNodes _ _ (λ _ _, []))].
    { by rewrite bind_nil_all. }
    intros key rels _. apply Yields_wrapped, Yields_batchInsertRelationships_nodes.
Qed.

End batched.

Section batched_relationships.
Context (env : Env).

Lemma Yields_batchInsertNodesByType_relationships ctx (nodeType : string) (nodes : list Node) :
  Yields batchedRelationships (batchInsertNodesByType env ctx nodeType nodes) [].
Proof.
  unfold batchInsertNodesByType.
  eapply Yields_Permutation; [|apply (Yields_for_each batchedRelationships _ _ (λ _, []))].
  { by rewrite bind_nil_all. }
  intros batch _. apply Yields_wrapped. unfold insertNodeBatch.
  destruct batch as [|node batch]; [apply Yields_ok|]. apply Yields_wrapped.
  apply (Yields_Query env batchedRelationships ctx (nodeBatchStmt nodeType (node :: batch))).
Qed.

Lemma Yields_insertRelationshipBatch ctx (rels : list Relationship) :
  Yields batchedRelationships (insertRelationshipBatch env ctx rels)
    ((λ rel, (relKey rel, relData rel)) <$> rels).
Proof.
  unfold insertRelationshipBatch. destruct rels as [|rel0 rels0] eqn:Hrels; [apply Yields_ok|].
  rewrite <-Hrels. clear Hrels.
  apply (Yields_Permutation batchedRelationships _ _ _
           (groupBy_Permutation_map relKey relData rels)).
  apply (Yields_for_range env batchedRelationships _ _
           (λ key group, (λ rel, (key, relData rel)) <$> group)).
  intros key group Hgroup. destruct (groupBy_keys _ _ _ _ Hgroup) as [_ Hkeys].
  destruct group as [|firstRel group]; [apply Yields_ok|]. apply Yields_wrapped.
  apply Forall_cons in Hkeys as [Hfirst _].
  eapply Yields_Permutation; [|apply Yields_Query]. unfold relBatchStmt. simpl.
  rewrite <-Hfirst. unfold relKey. by rewrite <-list_fmap_compose.
Qed.

Lemma Yields_batchInsertRelationships ctx (rels : list Relationship) :
  Yields batchedRelationships (batchInsertRelationships env ctx rels)
    ((λ rel, (relKey rel, relData rel)) <$> rels).
Proof.
  destruct (batches_spec 100 rels) as [Hconcat _]; [lia|].
  rewrite <-Hconcat at 2. rewrite <-bind_fmap_concat.
  apply Yields_for_each. intros batch _. apply Yields_wrapped, Yields_insertRelationshipBatch.
Qed.

Lemma Yields_processBatch_relationships ctx (doc : GraphDocument) (opts : Options) :
  Yields batchedRelationships (processBatch env ctx doc opts)
    ((λ rel, (relKey rel, relData rel)) <$> Relationships doc).
Proof.
  unfold processBatch.
  apply (Yields_Permutation batchedRelationships _
           ([] ++ [] ++
            (map_to_list (groupBy relKey id (Relationships doc))
             ≫= (λ kv, (λ rel, (kv.1, relData rel)) <$> kv.2)))).
  { simpl. apply groupBy_Permutation_map. }
  apply Yields_and_then; [|apply Yields_and_then].
  - eapply Yields_Permutation;
      [|apply (Yields_for_range env batchedRelationships _ _ (λ _ _, []))].
    { by rewrite bind_nil_all. }
    intros nodeType nodes _.
    apply Yields_wrapped, Yields_batchInsertNodesByType_relationships.
  - destruct (IncludeSource opts); [|apply Yields_ok].
    apply Yields_wrapped. by apply Yields_batchLinkNodesToSource.
  - apply (Yields_for_range env batchedRelationships _ _
             (λ key rels, (λ rel, (key, relData rel)) <$> rels)).
    intros key rels Hrels. destruct (groupBy_keys _ _ _ _ Hrels) as [_ Hkeys].
    apply Yields_wrapped.
    eapply Yields_Permutation; [|apply Yields_batchInsertRelationships].
    apply eq_subrelation; [apply _|]. apply list_fmap_ext.
    intros i rel Hrel%list_elem_of_lookup_2. rewrite Forall_forall in Hkeys.
    by rewrite (Hkeys rel Hrel).
Qed.

End batched_relationships.

(** X27.  When [processBatch] returns without error, the batched
    statements it sent carry every node of the document exactly once,
    under the label of its own type, and every relationship exactly once,
    under a pattern with the key of its own pattern. *)
Theorem processBatch_writes_everything (env : Env) (ctx : Context) (doc : GraphDocument)
    (opts : Options) (k : Kuzu) :
  (processBatch env ctx doc opts k).1 = None →
  ∃ new,
    sent (processBatch env ctx doc opts k).2 = sent k ++ new ∧
    new ≫= batchedNodes ≡ₚ (λ node, (Type_ node, nodeData node)) <$> Nodes doc ∧
    new ≫= batchedRelationships
    ≡ₚ (λ rel, (relKey rel, relData rel)) <$> Relationships doc.
Proof.
  intros Hok.
  destruct (Yields_processBatch_nodes env ctx doc opts k Hok) as (new & Hsent & Hnodes).
  destruct (Yields_processBatch_relationships env ctx doc opts k Hok)
    as (new' & Hsent' & Hrels).
  rewrite Hsent in Hsent'. apply app_inv_head in Hsent'. subst new'.
  by exists new.
Qed.

Lemma processBatch_writes_everything_witness :
  ∃ new,
    sent (processBatch calmEnv Background elevenPersons NewOptions NewKuzu).2
    = sent NewKuzu ++ new ∧
    new ≫= batchedNodes
    ≡ₚ (λ node, (Type_ node, nodeData node)) <$> Nodes elevenPersons ∧
    new ≫= batchedRelationships
    ≡ₚ (λ rel, (relKey rel, relData rel)) <$> Relationships elevenPersons.
Proof.
  apply (processBatch_writes_everything calmEnv Background elevenPersons NewOptions NewKuzu).
  vm_compute. reflexivity.
Defined.

(** ** The description of the schema *)

Lemma prefix_append (s t : string) : String.prefix s (s +:+ t) = true.
Proof.
  induction s as [|a s IH]; [by destruct t|].
  change (match ascii_dec a a with
          | left _ => String.prefix s (s +:+ t)
          | right _ => false
          end = true).
  by destruct (ascii_dec a a).
Qed.

Lemma buildSchemaDescription_prefix (schema : gmap string GoValue) :
  String.prefix ("Node properties:" +:+ nl) (buildSchemaDescription schema) = true.
Proof.
  unfold buildSchemaDescription.
  match goal with
  | |- String.prefix ?s (_ +:+ nl +:+ ?rest) = true =>
      change (String.prefix s (s +:+ rest) = true)
  end.
  apply prefix_append.
Qed.

(** X28.  [RefreshSchema] fails on a store without connection and
    changes nothing then.  On a connected store it cannot fail, and
    [GetSchema] afterwards returns the description of the new snapshot,
    which starts with the line [Node properties:] and so is not empty;
    when the [SHOW TABLES] query succeeded both relationship sections of
    the description are empty. *)
Theorem RefreshSchema_describes_the_schema (env : Env) (read : Reader) (ctx : Context)
    (k : Kuzu) (schemaCache : string) :
  let result := RefreshSchema env read ctx (k, schemaCache) in
  (connected k = false → result = (Some ErrConnectionNotInitialized, (k, schemaCache))) ∧
  (connected k = true →
   result.1 = None ∧
   GetSchema result.2 = buildSchemaDescription (structuredSchema result.2.1) ∧
   String.prefix ("Node properties:" +:+ nl) (GetSchema result.2) = true ∧
   GetSchema result.2 ≠ "" ∧
   ((Rows.Query env read Background (QueryStmt "SHOW TABLES;" ∅) k).1.2 = None →
    ∃ nodeTypes,
      GetSchema result.2
      = "Node properties:" +:+ nl +:+ describeNodeTypes nodeTypes +:+ nl
          +:+ "Relationship properties:" +:+ nl +:+ nl +:+ "Relationships:" +:+ nl)).
Proof.
  unfold RefreshSchema. split; [by intros ->|]. intros ->. simpl negb. cbv iota.
  pose proof (introspectSchema_no_error env read k) as Hok.
  pose proof (introspectSchema_show_tables env read k) as Hnone.
  destruct (introspectSchema env read k) as [[err|] k']; [done|]. cbn [fst snd GetSchema] in *.
  split_and!; [done|done|apply buildSchemaDescription_prefix| |].
  - intros Hempty. pose proof (buildSchemaDescription_prefix (structuredSchema k')) as Hprefix.
    by rewrite Hempty in Hprefix.
  - intros Hshow. destruct (Hnone Hshow) as [nodeTypes Hschema]. exists nodeTypes.
    rewrite Hschema. reflexivity.
Qed.

(** ** The log of a handle *)

Section tables_only.
Context (env : Env).

Lemma writesOf_app (l1 l2 : list Stmt) : writesOf (l1 ++ l2) = writesOf l1 ++ writesOf l2.
Proof. apply filter_app. Qed.

Lemma SendsTables_ok : SendsTables ok.
Proof. intros k. exists []. by rewrite app_nil_r. Qed.

Lemma SendsTables_and_then (a b : Action Kuzu) :
  SendsTables a → SendsTables b → SendsTables (a ;> b).
Proof.
  intros Ha Hb k. destruct (Ha k) as (new & Hsent & Hnew & Hconn).
  unfold and_then. destruct (a k) as [[e|] k']; [by exists new|].
  destruct (Hb k') as (new' & Hsent' & Hnew' & Hconn'). simpl in *.
  exists (new ++ new'). rewrite Hsent', Hsent, <-app_assoc, writesOf_app, Hnew, Hnew', Hconn'.
  done.
Qed.

Lemma SendsTables_wrapped format (a : Action Kuzu) : SendsTables a → SendsTables (wrapped format a).
Proof.
  intros Ha k. destruct (Ha k) as (new & Hsent & Hnew & Hconn). exists new.
  unfold wrapped. by destruct (a k) as [[e|] k'].
Qed.

Lemma SendsTables_for_each {A} (xs : list A) (body : A → Action Kuzu) :
  (∀ x, SendsTables (body x)) → SendsTables (for_each xs body).
Proof.
  intros Hbody. induction xs as [|x xs IH]; [apply SendsTables_ok|].
  simpl. by apply SendsTables_and_then.
Qed.

Lemma SendsTables_for_range {V} (m : gmap string V) (body : string → V → Action Kuzu) :
  (∀ key v, SendsTables (body key v)) → SendsTables (for_range env m body).
Proof.
  intros Hbody k. unfold for_range.
  apply (SendsTables_for_each _ (λ kv, body kv.1 kv.2) (λ kv, Hbody kv.1 kv.2)
           (set_ranges (S (ranges k)) k)).
Qed.

Lemma SendsTables_execute (stmt : Stmt) (after : Action Kuzu) :
  isTableCreation stmt = true →
  (∀ k, sent (after k).2 = sent k ∧ connected (after k).2 = connected k) →
  SendsTables (λ k, match execute env stmt k with
                    | (Some e, k') => (Some e, k')
                    | (None, k') => after k'
                    end).
Proof.
  intros Hstmt Hafter k. exists [stmt]. unfold execute, writesOf.
  rewrite filter_cons_False, filter_nil by by rewrite Hstmt.
  destruct (engine_accepts env (sent k) stmt); simpl; [|done].
  destruct (Hafter (set_sent (λ h, h ++ [stmt]) k)) as [-> ->]. done.
Qed.

Lemma SendsTables_createNodeTable (nodeType : string) : SendsTables (createNodeTable env nodeType).
Proof.
  intros k. unfold createNodeTable. destruct (cached _ _); [apply SendsTables_ok|].
  destruct (SendsTables_execute (CreateNodeTableStmt nodeType)
              (λ k, (None, set_nodeTables <[nodeType := true]> k)) eq_refl (λ _, conj eq_refl eq_refl) k)
    as (new & Hsent & Hnew & Hconn).
  exists new. unfold and_then, wrapped in *.
  by destruct (execute env _ k) as [[e|] k'].
Qed.

Lemma SendsTables_createChunkNodeTable : SendsTables (createChunkNodeTable env).
Proof.
  intros k. unfold createChunkNodeTable. destruct (cached _ _); [apply SendsTables_ok|].
  destruct (SendsTables_execute CreateChunkTableStmt
              (λ k, (None, set_nodeTables <["Chunk" := true]> k)) eq_refl (λ _, conj eq_refl eq_refl) k)
    as (new & Hsent & Hnew & Hconn).
  exists new. unfold and_then, wrapped in *.
  by destruct (execute env _ k) as [[e|] k'].
Qed.

Lemma SendsTables_createRelationshipTable (rel source target : string) :
  SendsTables (createRelationshipTable env rel source target).
Proof.
  intros k. unfold createRelationshipTable. destruct (cached _ _); [apply SendsTables_ok|].
  destruct (SendsTables_execute (CreateRelTableStmt rel source target)
              (λ k, (None, set_relTables <[patternKey source rel target := true]> k))
              eq_refl (λ _, conj eq_refl eq_refl) k)
    as (new & Hsent & Hnew & Hconn).
  exists new. unfold and_then, wrapped in *.
  by destruct (execute env _ k) as [[e|] k'].
Qed.

Lemma SendsTables_createMentionsRelationshipTable :
  SendsTables (createMentionsRelationshipTable env).
Proof.
  intros k. unfold createMentionsRelationshipTable. destruct (cached _ _); [apply SendsTables_ok|].
  exists [CreateMentionsTableStmt]. unfold execute.
  by destruct (engine_accepts env (sent k) _).
Qed.

Lemma SendsTables_ensureTablesExist (doc : GraphDocument) :
  SendsTables (ensureTablesExist env doc).
Proof.
  unfold ensureTablesExist.
  repeat first
    [ apply SendsTables_and_then | apply SendsTables_wrapped
    | apply SendsTables_for_range; intros ? ?
    | apply SendsTables_createNodeTable | apply SendsTables_createChunkNodeTable
    | apply SendsTables_createRelationshipTable
    | apply SendsTables_createMentionsRelationshipTable ].
Qed.

Lemma SendsTables_ensureTablesForBatch nodeTypes relPatterns :
  SendsTables (ensureTablesForBatch env nodeTypes relPatterns).
Proof.
  unfold ensureTablesForBatch.
  repeat first
    [ apply SendsTables_and_then | apply SendsTables_wrapped
    | apply SendsTables_for_range; intros ? ?
    | apply SendsTables_createNodeTable | apply SendsTables_createChunkNodeTable
    | apply SendsTables_createRelationshipTable
    | apply SendsTables_createMentionsRelationshipTable ].
Qed.

End tables_only.

Section logs.
Context (env : Env).

Lemma Logs_ok : Logs ok.
Proof. intros tx k Hk. exists []. simpl. by rewrite !app_nil_r. Qed.

Lemma Logs_fail (e : error) : Logs (fail e).
Proof. intros tx k Hk. exists []. simpl. by rewrite !app_nil_r. Qed.

Lemma Logs_lift (r : option error) : Logs (lift r).
Proof. intros tx k Hk. exists []. simpl. by rewrite !app_nil_r. Qed.

Lemma Logs_and_then (a b : Action (Transaction * Kuzu)) : Logs a → Logs b → Logs (a ;> b).
Proof.
  intros Ha Hb tx k Hk. destruct (Ha tx k Hk) as (new & Hsent & Hlog & Hconn & Hstay).
  unfold and_then. destruct (a (tx, k)) as [[e|] [tx' k']]; [by exists new|]. simpl in *.
  destruct (Hb tx' k' Hconn) as (new' & Hsent' & Hlog' & Hconn' & Hstay').
  exists (new ++ new').
  rewrite Hsent', Hsent, Hlog', Hlog, <-!app_assoc, writesOf_app. split_and!; [done..|].
  intros Hactive. specialize (Hstay Hactive). subst tx'. by apply Hstay'.
Qed.

Lemma Logs_wrapped format (a : Action (Transaction * Kuzu)) : Logs a → Logs (wrapped format a).
Proof.
  intros Ha tx k Hk. destruct (Ha tx k Hk) as (new & Hsent & Hlog & Hconn & Hstay).
  exists new. unfold wrapped. by destruct (a (tx, k)) as [[e|] [tx' k']].
Qed.

Lemma Logs_for_each {A} (xs : list A) (body : A → Action (Transaction * Kuzu)) :
  (∀ x, Logs (body x)) → Logs (for_each xs body).
Proof.
  intros Hbody. induction xs as [|x xs IH]; [apply Logs_ok|].
  simpl. by apply Logs_and_then.
Qed.

Lemma Logs_for_range_tx {V} (m : gmap string V)
    (body : string → V → Action (Transaction * Kuzu)) :
  (∀ key v, Logs (body key v)) → Logs (for_range_tx env m body).
Proof.
  intros Hbody tx k Hk. unfold for_range_tx.
  apply (Logs_for_each _ (λ kv, body kv.1 kv.2) (λ kv, Hbody kv.1 kv.2) tx
           (set_ranges (S (ranges k)) k) Hk).
Qed.

Lemma Logs_onStore (a : Action Kuzu) : SendsTables a → Logs (onStore a).
Proof.
  intros Ha tx k Hk. destruct (Ha k) as (new & Hsent & Hnew & Hconn). exists new.
  unfold onStore. destruct (a k) as [result k']. simpl in *.
  rewrite Hnew, app_nil_r, Hconn. done.
Qed.

Lemma Logs_TxQuery (stmt : Stmt) : isTableCreation stmt = false → Logs (Tx.Query env stmt).
Proof.
  intros Hstmt tx k Hk. unfold Tx.Query, Tx.IsActive, Tx.GetState.
  destruct (state tx) eqn:Hstate; simpl;
    try (exists []; simpl; by rewrite !app_nil_r).
  destruct (tx_done tx) eqn:Hdone; simpl.
  { exists []. simpl. by rewrite !app_nil_r. }
  unfold Query, IsConnected. rewrite Hk. simpl. rewrite Hdone.
  exists [stmt]. unfold failing_with, execute, writesOf.
  rewrite filter_cons_True, filter_nil by done.
  by destruct (engine_accepts env (sent k) stmt).
Qed.

Lemma Logs_addNodeInTransaction (node : Node) : Logs (addNodeInTransaction env node).
Proof.
  intros tx k Hk. unfold addNodeInTransaction.
  destruct (emptyString _); [by apply Logs_fail|].
  destruct (propertyArrays _ _ _ _ _) as [propKeys propValues].
  by apply (Logs_wrapped _ _
              (Logs_TxQuery (MergeNodeStmt (Type_ node) (ID node) (Type_ node)
                               propKeys propValues) eq_refl)
              tx (set_ranges (S (ranges k)) k)).
Qed.

Lemma Logs_addRelationshipInTransaction (rel : Relationship) :
  Logs (addRelationshipInTransaction env rel).
Proof.
  intros tx k Hk. unfold addRelationshipInTransaction.
  destruct (_ || _); [by apply Logs_fail|].
  destruct (propertyArrays _ _ _ _ _) as [propKeys propValues].
  by apply (Logs_wrapped _ _
              (Logs_TxQuery (MergeRelStmt (Type_ (Source rel)) (Type_ (Target rel))
                               (RelType rel) (ID (Source rel)) (ID (Target rel))
                               propKeys propValues) eq_refl)
              tx (set_ranges (S (ranges k)) k)).
Qed.

Lemma Logs_processGraphDocumentInTransaction (doc : GraphDocument) (opts : Options) :
  Logs (processGraphDocumentInTransaction env doc opts).
Proof.
  unfold processGraphDocumentInTransaction.
  apply Logs_and_then; [apply Logs_onStore, SendsTables_ensureTablesExist|].
  destruct (isLarge doc).
  - unfold processBatchInTransaction. apply Logs_and_then.
    + apply Logs_for_range_tx. intros nodeType nodes. apply Logs_wrapped.
      apply Logs_for_each. intros batch. apply Logs_wrapped.
      unfold insertNodeBatchInTransaction. destruct batch; [apply Logs_ok|].
      by apply Logs_wrapped, Logs_TxQuery.
    + apply Logs_for_range_tx. intros key rels. apply Logs_wrapped.
      apply Logs_for_each. intros batch. apply Logs_wrapped.
      unfold insertRelationshipBatchInTransaction. destruct batch; [apply Logs_ok|].
      apply Logs_for_range_tx. intros key' group. destruct group; [apply Logs_ok|].
      by apply Logs_wrapped, Logs_TxQuery.
  - unfold processIndividuallyInTransaction. apply Logs_and_then; apply Logs_for_each.
    + apply Logs_addNodeInTransaction.
    + apply Logs_addRelationshipInTransaction.
Qed.

Lemma Logs_addGraphDocumentsInTransaction (docs : list GraphDocument) (opts : Options) :
  Logs (addGraphDocumentsInTransaction env docs opts).
Proof.
  unfold addGraphDocumentsInTransaction. apply Logs_for_each. intros batch.
  apply Logs_wrapped. unfold processDocumentBatchInTransaction.
  apply Logs_and_then; [apply Logs_lift|].
  apply Logs_and_then; [apply Logs_wrapped, Logs_onStore, SendsTables_ensureTablesForBatch|].
  apply Logs_for_each. intros doc. apply Logs_wrapped, Logs_processGraphDocumentInTransaction.
Qed.

End logs.

(** X29.  During [AddGraphDocumentsWithTransaction] on a connected store
    the handle logs exactly the statements sent that create no table, in
    order: tables are created through the store, outside the handle.  With
    a handle that is not Active, table creations are therefore all that
    can reach the engine, and the handle is left as it was. *)
Theorem operations_log_the_writes (env : Env) (docs : list GraphDocument)
    (options : list (Options → Options)) (tx : Transaction) (k : Kuzu) :
  connected k = true →
  let result := AddGraphDocumentsWithTransaction env docs options (tx, k) in
  ∃ new,
    sent result.2.2 = sent k ++ new ∧
    Tx.GetOperations result.2.1 = Tx.GetOperations tx ++ writesOf new ∧
    (Tx.IsActive tx = false → result.2.1 = tx ∧ writesOf new = []).
Proof.
  intros Hk result.
  assert (Logs (AddGraphDocumentsWithTransaction env docs options)) as Hlogs.
  { unfold AddGraphDocumentsWithTransaction. destruct docs; [apply Logs_ok|].
    apply Logs_addGraphDocumentsInTransaction. }
  destruct (Hlogs tx k Hk) as (new & Hsent & Hlog & _ & Hstay).
  exists new. split_and!; [done..|]. intros Hactive. specialize (Hstay Hactive).
  split; [done|]. unfold result. fold result in Hlog. unfold Tx.GetOperations in *.
  subst result. rewrite Hstay in Hlog.
  by apply (app_inv_head (operations tx)); rewrite app_nil_r.
Qed.

Lemma operations_log_the_writes_witness :
  ∃ new,
    sent (AddGraphDocumentsWithTransaction calmEnv [aliceDoc] []
            (Tx.setState TransactionCommitted activeTx, NewKuzu)).2.2
    = sent NewKuzu ++ new ∧
    new = [CreateNodeTableStmt "Person"; CreateChunkTableStmt; CreateMentionsTableStmt] ∧
    writesOf new = [].
Proof.
  destruct (operations_log_the_writes calmEnv [aliceDoc] []
              (Tx.setState TransactionCommitted activeTx) NewKuzu eq_refl)
    as (new & Hsent & _ & Hstay).
  exists new. split_and!; [exact Hsent| |by apply Hstay].
  apply (app_inv_head (sent NewKuzu)). rewrite <-Hsent. vm_compute. reflexivity.
Defined.

(** ** The properties of a relationship on the individual path *)

Lemma propertyArrays_writesAllProperties (rel : Relationship) (text : GoValue → string)
    (f : GoValue → GoValue) (entries : list (string * GoValue)) :
  entries ≡ₚ map_to_list (f <$> RelProperties rel) →
  writesAllProperties rel (text ∘ f)
    (MergeRelStmt (Type_ (Source rel)) (Type_ (Target rel)) (RelType rel)
       (ID (Source rel)) (ID (Target rel))
       (propertyArrays (λ _, false) text entries [] []).1
       (propertyArrays (λ _, false) text entries [] []).2).
Proof.
  intros Hperm. rewrite propertyArrays_spec. simpl.
  rewrite (filter_all _ entries) by done.
  exists entries.*1, (text <$> entries.*2). split_and!; [done|by rewrite !length_fmap|].
  rewrite zip_keys_texts, Hperm, map_to_list_fmap, <-list_fmap_compose.
  apply reflexive_eq, list_fmap_ext. by intros i [key v] _.
Qed.

Lemma addRelationship_sent (env : Env) (rel : Relationship) (k : Kuzu) :
  ∃ new, sent (addRelationship env rel k).2 = sent k ++ new ∧
    Forall (writesAllProperties rel (storedText env)) new ∧
    (connected k = true → ID (Source rel) ≠ "" → ID (Target rel) ≠ "" →
     length new = 1%nat).
Proof.
  unfold addRelationship.
  destruct (emptyString (ID (Source rel))) eqn:Hsource; simpl.
  { exists []. rewrite app_nil_r. split_and!; [done|constructor|].
    intros _ Hne. by apply emptyString_spec in Hsource. }
  destruct (emptyString (ID (Target rel))) eqn:Htarget; simpl.
  { exists []. rewrite app_nil_r. split_and!; [done|constructor|].
    intros _ _ Hne. by apply emptyString_spec in Htarget. }
  pose proof (ConvertProperties_no_error env (RelProperties rel)) as Hconverted.
  unfold ConvertProperties in *.
  destruct (first_error _) as [[key e]|] eqn:Herr; [done|]. clear Hconverted.
  rewrite <- map_fmap_compose.
  set (f := (λ c : Converted, c.1.1) ∘ ConvertGoValueToKuzu env NewTypeConverter).
  set (entries := range_entries env (ranges k) (f <$> RelProperties rel)).
  pose proof (propertyArrays_writesAllProperties rel (propertyText env) f entries
                (range_entries_Permutation env _ _)) as Hstmt.
  destruct (propertyArrays (λ _, false) (propertyText env) entries [] [])
    as [propKeys propValues]. simpl in Hstmt.
  unfold wrapped, Query, IsConnected. simpl.
  destruct (connected k); simpl.
  - eexists [_]. unfold failing_with, execute. simpl.
    destruct (engine_accepts env (sent k) _); simpl;
      (split_and!; [done|by apply Forall_singleton|done]).
  - exists []. rewrite app_nil_r. split_and!; [done|constructor|done].
Qed.

Lemma addRelationshipInTransaction_sent (env : Env) (rel : Relationship) (tx : Transaction)
    (k : Kuzu) :
  ∃ new, sent (addRelationshipInTransaction env rel (tx, k)).2.2 = sent k ++ new ∧
    Forall (writesAllProperties rel (Sprint_v env)) new ∧
    (connected k = true → ID (Source rel) ≠ "" → ID (Target rel) ≠ "" →
     state tx = TransactionActive → tx_done tx = false → length new = 1%nat).
Proof.
  unfold addRelationshipInTransaction.
  destruct (emptyString (ID (Source rel))) eqn:Hsource; simpl.
  { exists []. rewrite app_nil_r. split_and!; [done|constructor|].
    intros _ Hne. by apply emptyString_spec in Hsource. }
  destruct (emptyString (ID (Target rel))) eqn:Htarget; simpl.
  { exists []. rewrite app_nil_r. split_and!; [done|constructor|].
    intros _ _ Hne. by apply emptyString_spec in Htarget. }
  set (entries := range_entries env (ranges k) (RelProperties rel)).
  assert (entries ≡ₚ map_to_list (id <$> RelProperties rel)) as Hperm.
  { rewrite map_fmap_id. apply range_entries_Permutation. }
  pose proof (propertyArrays_writesAllProperties rel (Sprint_v env) id entries Hperm)
    as Hstmt.
  destruct (propertyArrays (λ _, false) (Sprint_v env) entries [] [])
    as [propKeys propValues]. simpl in Hstmt.
  unfold wrapped, Tx.Query, Tx.IsActive, Tx.GetState.
  destruct (state tx) eqn:Hstate; simpl;
    try (exists []; rewrite app_nil_r; split_and!; [done|constructor|by intros _ _ _ [=]]).
  destruct (tx_done tx) eqn:Hdone; simpl.
  { exists []. rewrite app_nil_r. split_and!; [done|constructor|by intros _ _ _ _ [=]]. }
  unfold Query, IsConnected. simpl. destruct (connected k); simpl.
  - eexists [_]. rewrite Hdone. unfold failing_with, execute. simpl.
    destruct (engine_accepts env (sent k) _); simpl;
      (split_and!; [done|by apply Forall_singleton|done]).
  - exists []. rewrite app_nil_r. split_and!; [done|constructor|done].
Qed.

(** X30.  Whatever [addRelationship] and [addRelationshipInTransaction]
    send for a relationship is one merge statement whose property keys
    are all the keys of the relationship, [id] and [type] included, each
    paired with the text of its value; it is sent whenever the call gets
    as far as the engine. *)
Theorem individual_path_keeps_relationship_properties (env : Env) (rel : Relationship) :
  (∀ k, ∃ new, sent (addRelationship env rel k).2 = sent k ++ new ∧
     Forall (writesAllProperties rel (storedText env)) new ∧
     (connected k = true → ID (Source rel) ≠ "" → ID (Target rel) ≠ "" →
      length new = 1%nat)) ∧
  (∀ tx k, ∃ new, sent (addRelationshipInTransaction env rel (tx, k)).2.2 = sent k ++ new ∧
     Forall (writesAllProperties rel (Sprint_v env)) new ∧
     (connected k = true → ID (Source rel) ≠ "" → ID (Target rel) ≠ "" →
      state tx = TransactionActive → tx_done tx = false → length new = 1%nat)).
Proof.
  split.
  - intros k. apply addRelationship_sent.
  - intros tx k. apply addRelationshipInTransaction_sent.
Qed.
